(** * The log index and view engine of lnav: a shallow embedding

    The development follows [src/logfile_sub_source.cc] and
    [src/textview_curses.cc].  Each C++ member function becomes a Rocq
    function over an explicit state record; the vectors of the program are
    lists accessed with stdpp's lookup and insert.

    Conventions.
    - [size_t] counters that only ever count lines held in memory
      ([ld_lines_indexed], [tfs_filter_count], ...) are [nat].
    - [uint32_t] values (filter masks, entries of [lss_filtered_index]) are
      [Z] and every operation that can leave the 32-bit range is followed by
      [uint32].
    - [content_line_t] values are [Z].  The type is declared in a header
      outside the excerpt, and section 3 of the specification makes it a
      32-bit identifier.  [con_line] keeps the mathematical value of
      [file_index * MAX_LINES_PER_FILE + line_index], which is that
      identifier as long as there are at most 256 slots ([slots_fit]);
      other arithmetic on a ContentLine wraps modulo 2^32
      ([content_line_add]), and a statement about the ContentLines of any
      number of slots carries the bound.
    - A failed [require]/[ensure], a null dereference and an access outside a
      vector all end the run: the model returns [Abort].  Loops that the
      model bounds with fuel return [OutOfFuel] when the bound is hit, and
      the development proves that this never happens. *)

From Stdlib Require Import ZArith Lia Bool.
From stdpp Require Import base tactics option list numbers strings gmap sorting.

Open Scope Z_scope.
Open Scope nat_scope.

(** ** Outcomes *)

Inductive result (A : Type) : Type :=
  | Ok (a : A)
  | Abort
  | OutOfFuel.
Arguments Ok {A} a.
Arguments Abort {A}.
Arguments OutOfFuel {A}.

Global Instance result_ret : MRet result := λ A a, Ok a.
Global Instance result_bind : MBind result := λ A B f m,
  match m with
  | Ok a => f a
  | Abort => Abort
  | OutOfFuel => OutOfFuel
  end.

(** [require(c)] and [ensure(c)] *)
Definition require (c : bool) : result unit :=
  if c then Ok tt else Abort.

(** [v[i]] as an rvalue *)
Definition at_index {A : Type} (v : list A) (i : nat) : result A :=
  match v !! i with
  | Some x => Ok x
  | None => Abort
  end.

(** [v[i] = x] *)
Definition set_index {A : Type} (v : list A) (i : nat) (x : A)
  : result (list A) :=
  if decide (i < length v) then Ok (<[i:=x]> v) else Abort.

(** dereference of a pointer that may be null *)
Definition deref {A : Type} (p : option A) : result A :=
  match p with
  | Some x => Ok x
  | None => Abort
  end.

Definition uint32 (z : Z) : Z := (z mod 2 ^ 32)%Z.

(** ** Log lines and log files (the LogFile capability) *)

Inductive log_level_t : Type :=
  | LEVEL_UNKNOWN
  | LEVEL_TRACE
  | LEVEL_DEBUG
  | LEVEL_INFO
  | LEVEL_STATS
  | LEVEL_NOTICE
  | LEVEL_WARNING
  | LEVEL_ERROR
  | LEVEL_CRITICAL
  | LEVEL_FATAL.

Global Instance log_level_eq_dec : EqDecision log_level_t.
Proof. solve_decision. Defined.

Definition level_rank (l : log_level_t) : nat :=
  match l with
  | LEVEL_UNKNOWN => 0
  | LEVEL_TRACE => 1
  | LEVEL_DEBUG => 2
  | LEVEL_INFO => 3
  | LEVEL_STATS => 4
  | LEVEL_NOTICE => 5
  | LEVEL_WARNING => 6
  | LEVEL_ERROR => 7
  | LEVEL_CRITICAL => 8
  | LEVEL_FATAL => 9
  end.

(** Modelled from the spec: [logline] is declared in a header that is not
    part of the excerpt.  The record carries what the iterator element of
    section 6 exposes: the timestamp as seconds and milliseconds, the level,
    and the continuation, skew and mark flags. *)
Record logline : Type := mk_logline {
  ll_time : Z;
  ll_millis : Z;
  ll_level : log_level_t;
  ll_continued : bool;
  ll_time_skewed : bool;
  ll_marked : bool;
  ll_sub_offset : Z;
}.

Definition get_time (ll : logline) : Z := ll_time ll.
Definition get_msg_level (ll : logline) : log_level_t := ll_level ll.
Definition is_continued (ll : logline) : bool := ll_continued ll.
Definition is_time_skewed (ll : logline) : bool := ll_time_skewed ll.
Definition is_marked (ll : logline) : bool := ll_marked ll.
Definition get_sub_offset (ll : logline) : Z := ll_sub_offset ll.
Definition get_time_in_millis (ll : logline) : Z :=
  (ll_time ll * 1000 + ll_millis ll)%Z.

Abbreviation timestamp := (Z * Z)%type (only parsing).

(** [get_timeval()], as seconds and milliseconds. *)
Definition get_timeval (ll : logline) : timestamp := (ll_time ll, ll_millis ll).

Definition timestamp_lt (a b : timestamp) : bool :=
  (a.1 <? b.1)%Z || ((a.1 =? b.1)%Z && (a.2 <? b.2)%Z).

(** Modelled from the spec: the strict timestamp order of two lines
    ("timestamp(a) < timestamp(b)"), seconds first and then milliseconds.
    It stands for [logline::operator<], used both between two lines and
    between a line and the [get_timeval()] of another. *)
Definition logline_lt (a b : logline) : bool :=
  timestamp_lt (get_timeval a) (get_timeval b).

(** Modelled from the spec: [logfile] (section 6); [lf_loglines] is the
    line vector that [begin()], [end()], [size()] and [operator[]] range
    over. *)
Record logfile : Type := mk_logfile {
  lf_filename : string;
  lf_unique_path : string;
  lf_format_name : string;
  lf_loglines : list logline;
  lf_longest_line : nat;
  lf_time_adjusted : bool;
}.

Definition logfile_size (lf : logfile) : nat := length (lf_loglines lf).

Inductive logfile_rebuild_result : Type :=
  | RR_INVALID
  | RR_NO_NEW_LINES
  | RR_NEW_LINES
  | RR_NEW_ORDER.

(** ** Filter state (textview_curses.cc) *)

Definition MAX_FILTERS : nat := 32.

Record logfile_filter_state : Type := mk_filter_state {
  tfs_logfile : logfile;
  tfs_filter_count : list nat;
  tfs_filter_hits : list nat;
  tfs_message_matched : list bool;
  tfs_lines_for_message : list nat;
  tfs_last_message_matched : list bool;
  tfs_last_lines_for_message : list nat;
  tfs_mask : list Z;
}.

Record text_filter : Type := mk_text_filter {
  lf_index : nat;
  matches : logfile → logline → string → bool;
}.

(** One round of the loop of [text_filter::end_of_message]. *)
Definition end_of_message_round (p : nat) (mask : Z)
    (lfs : logfile_filter_state) : result logfile_filter_state :=
  cnt ← at_index (tfs_filter_count lfs) p;
  _ ← require (bool_decide (cnt ≤ logfile_size (tfs_logfile lfs)));
  let line_number := cnt in
  old ← at_index (tfs_mask lfs) line_number;
  mask' ← set_index (tfs_mask lfs) line_number (uint32 (Z.lor old mask));
  count' ← set_index (tfs_filter_count lfs) p (cnt + 1);
  matched ← at_index (tfs_message_matched lfs) p;
  hits' ← (if matched : bool then
             h ← at_index (tfs_filter_hits lfs) p;
             set_index (tfs_filter_hits lfs) p (h + 1)
           else Ok (tfs_filter_hits lfs));
  Ok {| tfs_logfile := tfs_logfile lfs;
        tfs_filter_count := count';
        tfs_filter_hits := hits';
        tfs_message_matched := tfs_message_matched lfs;
        tfs_lines_for_message := tfs_lines_for_message lfs;
        tfs_last_message_matched := tfs_last_message_matched lfs;
        tfs_last_lines_for_message := tfs_last_lines_for_message lfs;
        tfs_mask := mask' |}.

Fixpoint end_of_message_loop (p : nat) (mask : Z) (rounds : nat)
    (lfs : logfile_filter_state) : result logfile_filter_state :=
  match rounds with
  | O => Ok lfs
  | S rounds' =>
      lfs' ← end_of_message_round p mask lfs;
      end_of_message_loop p mask rounds' lfs'
  end.

(** [text_filter::end_of_message] *)
Definition end_of_message (f : text_filter) (lfs : logfile_filter_state)
  : result logfile_filter_state :=
  let p := lf_index f in
  matched ← at_index (tfs_message_matched lfs) p;
  let mask := uint32 (Z.shiftl (if matched : bool then 1 else 0) (Z.of_nat p)) in
  rounds ← at_index (tfs_lines_for_message lfs) p;
  lfs1 ← end_of_message_loop p mask rounds lfs;
  mm ← at_index (tfs_message_matched lfs1) p;
  last_mm ← set_index (tfs_last_message_matched lfs1) p mm;
  lm ← at_index (tfs_lines_for_message lfs1) p;
  last_lm ← set_index (tfs_last_lines_for_message lfs1) p lm;
  mm' ← set_index (tfs_message_matched lfs1) p false;
  lm' ← set_index (tfs_lines_for_message lfs1) p 0;
  Ok {| tfs_logfile := tfs_logfile lfs1;
        tfs_filter_count := tfs_filter_count lfs1;
        tfs_filter_hits := tfs_filter_hits lfs1;
        tfs_message_matched := mm';
        tfs_lines_for_message := lm';
        tfs_last_message_matched := last_mm;
        tfs_last_lines_for_message := last_lm;
        tfs_mask := tfs_mask lfs1 |}.

(** [text_filter::add_line] *)
Definition add_line (f : text_filter) (lfs : logfile_filter_state)
    (ll : logline) (line : string) : result logfile_filter_state :=
  let p := lf_index f in
  let match_state := matches f (tfs_logfile lfs) ll line in
  lfs1 ← (if negb (is_continued ll) then end_of_message f lfs else Ok lfs);
  mm ← at_index (tfs_message_matched lfs1) p;
  mm' ← set_index (tfs_message_matched lfs1) p (mm || match_state);
  lm ← at_index (tfs_lines_for_message lfs1) p;
  lm' ← set_index (tfs_lines_for_message lfs1) p (lm + 1);
  Ok {| tfs_logfile := tfs_logfile lfs1;
        tfs_filter_count := tfs_filter_count lfs1;
        tfs_filter_hits := tfs_filter_hits lfs1;
        tfs_message_matched := mm';
        tfs_lines_for_message := lm';
        tfs_last_message_matched := tfs_last_message_matched lfs1;
        tfs_last_lines_for_message := tfs_last_lines_for_message lfs1;
        tfs_mask := tfs_mask lfs1 |}.

(** [add_line] for each line of a run of lines, in file order. *)
Fixpoint add_lines (f : text_filter) (lfs : logfile_filter_state)
    (lines : list (logline * string)) : result logfile_filter_state :=
  match lines with
  | [] => Ok lfs
  | (ll, body) :: rest =>
      lfs' ← add_line f lfs ll body;
      add_lines f lfs' rest
  end.

(** ** The log sub-source (logfile_sub_source.cc) *)

(** Modelled from the spec: [MAX_LINES_PER_FILE] is declared in a header
    that is not part of the excerpt; section 3 says that 2^24 suffices. *)
Definition MAX_LINES_PER_FILE : Z := (2 ^ 24)%Z.

Abbreviation content_line_t := Z (only parsing).

Record logfile_data : Type := mk_logfile_data {
  ld_file_index : nat;
  ld_file : option logfile;
  ld_lines_indexed : nat;
  ld_filter_state : logfile_filter_state;
}.

(** [ld.get_file()]: [None] is the null pointer of a file that is gone. *)
Definition get_file (ld : logfile_data) : option logfile := ld_file ld.

Inductive rebuild_result : Type :=
  | rr_no_change
  | rr_appended_lines
  | rr_full_rebuild.

Global Instance rebuild_result_eq_dec : EqDecision rebuild_result.
Proof. solve_decision. Defined.

Global Instance logfile_rebuild_result_eq_dec :
  EqDecision logfile_rebuild_result.
Proof. solve_decision. Defined.

Record logfile_sub_source : Type := mk_lss {
  lss_force_rebuild : bool;
  lss_files : list logfile_data;
  lss_index : list content_line_t;
  lss_filtered_index : list Z;
  lss_longest_line : nat;
  lss_basename_width : nat;
  lss_filename_width : nat;
  lss_min_log_level : log_level_t;
  lss_marked_only : bool;
  lss_min_log_time : option timestamp;
  lss_max_log_time : option timestamp;
}.

(** The constructor: nothing attached, nothing indexed, no extra filter. *)
Definition lss_init : logfile_sub_source :=
  {| lss_force_rebuild := false;
     lss_files := [];
     lss_index := [];
     lss_filtered_index := [];
     lss_longest_line := 0;
     lss_basename_width := 0;
     lss_filename_width := 0;
     lss_min_log_level := LEVEL_UNKNOWN;
     lss_marked_only := false;
     lss_min_log_time := None;
     lss_max_log_time := None |}.

(** What the sub-source asks of its collaborators during one call: the view
    ([is_paused]), each attached LogFile ([lf_rebuild_index] re-observes the
    file in slot [i]; its observers may update the slot's filter state;
    [reobserve_from] replays lines to the observers), the segmented array
    ([big_array_reserve n] tells whether reserving [n] entries allocated)
    and the filter stack ([enabled_mask] is what [get_enabled_mask] yields,
    IN mask first). *)
Record collaborators : Type := mk_collaborators {
  is_paused : bool;
  lf_rebuild_index :
    nat → logfile → logfile_filter_state →
    logfile_rebuild_result * logfile * logfile_filter_state;
  reobserve_from :
    nat → logfile → logfile_filter_state → logfile * logfile_filter_state;
  big_array_reserve : nat → bool;
  enabled_mask : Z * Z;
}.

(** Modelled from the spec: [find_data] lives in a header outside the
    excerpt; decoding a ContentLine yields [(slot, line_number)] with
    [slot = cl / MAX_LINES_PER_FILE]. *)
Definition find_data (files : list logfile_data) (cl : content_line_t)
  : result (logfile_data * nat) :=
  ld ← at_index files (Z.to_nat (cl / MAX_LINES_PER_FILE));
  Ok (ld, Z.to_nat (cl mod MAX_LINES_PER_FILE)).

(** Modelled from the spec: [find_line] (same header) resolves a ContentLine
    to its line, or to null when the slot's file is gone. *)
Definition find_line (files : list logfile_data) (cl : content_line_t)
  : result (option logline) :=
  '(ld, line_number) ← find_data files cl;
  match get_file ld with
  | None => Ok None
  | Some lf => ll ← at_index (lf_loglines lf) line_number; Ok (Some ll)
  end.

(** Modelled from the spec (section 4.B): a line is excluded iff
    [(mask[line_number] & filter_out_mask) ≠ 0] or, when an IN filter is
    enabled, [(mask[line_number] & filter_in_mask) = 0]. *)
Definition excluded (lfs : logfile_filter_state)
    (filter_in_mask filter_out_mask : Z) (line_number : nat) : result bool :=
  m ← at_index (tfs_mask lfs) line_number;
  Ok (negb (Z.land m filter_out_mask =? 0)%Z
      || (negb (filter_in_mask =? 0)%Z && (Z.land m filter_in_mask =? 0)%Z)).

(** Modelled from the spec (section 4.C): the extra filters are the minimum
    log level, the marked-only toggle and the minimum and maximum time. *)
Definition check_extra_filters (lss : logfile_sub_source) (ll : logline)
  : bool :=
  if lss_marked_only lss && negb (is_marked ll) then false
  else
    negb ((level_rank (get_msg_level ll) <? level_rank (lss_min_log_level lss))
          || match lss_min_log_time lss with
             | Some t => timestamp_lt (get_timeval ll) t
             | None => false
             end
          || match lss_max_log_time lss with
             | Some t => timestamp_lt t (get_timeval ll)
             | None => false
             end).

(** *** The k-way merge *)

(** Modelled from the spec: [kmerge_tree_c] is declared in [k_merge_tree.h],
    which is not part of the excerpt.  Section 4.F asks for "the minimum
    across heads"; among equal heads the model takes the range added first.
    A range is its owner (the slot of the [logfile_data]), the offset of its
    iterator from [begin()], and the lines from the iterator to [end()]. *)
Record kmerge_range : Type := mk_kmerge_range {
  kr_owner : nat;
  kr_pos : nat;
  kr_lines : list logline;
}.

Abbreviation kmerge_tree_c := (list kmerge_range) (only parsing).

Definition kmerge_add (merge : kmerge_tree_c) (owner pos : nat)
    (lines : list logline) : kmerge_tree_c :=
  merge ++ [{| kr_owner := owner; kr_pos := pos; kr_lines := lines |}].

Fixpoint kmerge_top (merge : kmerge_tree_c) : option (nat * logline) :=
  match merge with
  | [] => None
  | r :: merge' =>
      match head (kr_lines r), kmerge_top merge' with
      | None, None => None
      | None, Some (i, l) => Some (S i, l)
      | Some h, None => Some (0, h)
      | Some h, Some (i, l) =>
          if logline_lt l h then Some (S i, l) else Some (0, h)
      end
  end.

(** [merge.get_top(ld, lf_iter)]: the owner and the iterator of the least
    head, or [None] when it returns false. *)
Definition kmerge_get_top (merge : kmerge_tree_c) : option (nat * nat) :=
  '(i, _) ← kmerge_top merge;
  r ← merge !! i;
  Some (kr_owner r, kr_pos r).

(** [merge.next()]: step the iterator of the top range. *)
Definition kmerge_next (merge : kmerge_tree_c) : kmerge_tree_c :=
  match kmerge_top merge with
  | None => merge
  | Some (i, _) =>
      match merge !! i with
      | None => merge
      | Some r =>
          <[i := {| kr_owner := kr_owner r;
                    kr_pos := S (kr_pos r);
                    kr_lines := tail (kr_lines r) |}]> merge
      end
  end.

Definition kmerge_remaining (merge : kmerge_tree_c) : nat :=
  sum_list (map (λ r, length (kr_lines r)) merge).

Definition con_line (file_index line_index : nat) : content_line_t :=
  (Z.of_nat file_index * MAX_LINES_PER_FILE + Z.of_nat line_index)%Z.

Definition set_lines_indexed (ld : logfile_data) (n : nat) : logfile_data :=
  {| ld_file_index := ld_file_index ld;
     ld_file := ld_file ld;
     ld_lines_indexed := n;
     ld_filter_state := ld_filter_state ld |}.

(** The loop that fills the merge tree: one range per attached file that
    still has lines past [ld_lines_indexed].  An iterator that would start
    beyond [end()] is outside the vector: the run ends. *)
Fixpoint merge_add_files (files : list logfile_data) (slot : nat)
    (merge : kmerge_tree_c) : result kmerge_tree_c :=
  match files with
  | [] => Ok merge
  | ld :: rest =>
      match get_file ld with
      | None => merge_add_files rest (S slot) merge
      | Some lf =>
          _ ← require (bool_decide (ld_lines_indexed ld ≤ logfile_size lf));
          if bool_decide (ld_lines_indexed ld = logfile_size lf) then
            merge_add_files rest (S slot) merge
          else
            merge_add_files rest (S slot)
              (kmerge_add merge slot (ld_lines_indexed ld)
                 (drop (ld_lines_indexed ld) (lf_loglines lf)))
      end
  end.

(** The [for (;;)] loop that drains the merge tree. *)
Fixpoint merge_loop (fuel : nat) (merge : kmerge_tree_c)
    (files : list logfile_data) (index : list content_line_t)
  : result (list logfile_data * list content_line_t) :=
  match fuel with
  | O => OutOfFuel
  | S fuel' =>
      match kmerge_get_top merge with
      | None => Ok (files, index)
      | Some (owner, lf_iter) =>
          ld ← at_index files owner;
          let file_index := ld_file_index ld in
          let line_index := ld_lines_indexed ld in
          let files' :=
            <[owner := set_lines_indexed ld (S line_index)]> files in
          lf ← deref (get_file ld);
          _ ← require (bool_decide (lf_iter = line_index));
          let index' := index ++ [con_line file_index line_index] in
          if bool_decide (lf_iter + 1 = logfile_size lf) then
            Ok (files', index')
          else
            merge_loop fuel' (kmerge_next merge) files' index'
      end
  end.

(** *** Polling the files *)

Record poll_state : Type := mk_poll_state {
  ps_files : list logfile_data;
  ps_force : bool;
  ps_retval : rebuild_result;
  ps_file_count : nat;
  ps_total_lines : nat;
}.

Definition set_observed (ld : logfile_data) (lf : logfile)
    (fs : logfile_filter_state) : logfile_data :=
  {| ld_file_index := ld_file_index ld;
     ld_file := Some lf;
     ld_lines_indexed := ld_lines_indexed ld;
     ld_filter_state := fs |}.

(** The [RR_NEW_LINES] case of the switch. *)
Definition classify_new_lines (files : list logfile_data)
    (index : list content_line_t) (lf : logfile) (lines_indexed : nat)
    (force : bool) (retval : rebuild_result)
  : result (bool * rebuild_result) :=
  let retval1 :=
    if decide (retval = rr_no_change) then rr_appended_lines else retval in
  match last index with
  | None => Ok (force, retval1)
  | Some cl =>
      last_indexed_line ← find_line files cl;
      match last_indexed_line with
      | None => Ok (true, rr_full_rebuild)
      | Some last_ll =>
          new_file_line ← at_index (lf_loglines lf) lines_indexed;
          if logline_lt new_file_line last_ll then Ok (true, rr_full_rebuild)
          else Ok (force, retval1)
      end
  end.

(** One round of the loop "Find new lines in all files". *)
Definition poll_file (env : collaborators) (index : list content_line_t)
    (i : nat) (st : poll_state) : result poll_state :=
  ld ← at_index (ps_files st) i;
  match get_file ld with
  | None =>
      if bool_decide (0 < ld_lines_indexed ld) then
        Ok {| ps_files := ps_files st;
              ps_force := true;
              ps_retval := rr_full_rebuild;
              ps_file_count := ps_file_count st;
              ps_total_lines := ps_total_lines st |}
      else Ok st
  | Some lf =>
      if negb (is_paused env) then
        let '(observed, lf', fs') :=
          lf_rebuild_index env i lf (ld_filter_state ld) in
        let files' := <[i := set_observed ld lf' fs']> (ps_files st) in
        let rebuild :=
          if bool_decide (observed = RR_NO_NEW_LINES)
             && bool_decide (ld_lines_indexed ld < logfile_size lf')
          then RR_NEW_LINES else observed in
        '(force', retval') ←
          match rebuild with
          | RR_NO_NEW_LINES => Ok (ps_force st, ps_retval st)
          | RR_NEW_LINES =>
              classify_new_lines files' index lf' (ld_lines_indexed ld)
                (ps_force st) (ps_retval st)
          | RR_INVALID | RR_NEW_ORDER => Ok (true, rr_full_rebuild)
          end;
        Ok {| ps_files := files';
              ps_force := force';
              ps_retval := retval';
              ps_file_count := ps_file_count st + 1;
              ps_total_lines := ps_total_lines st + logfile_size lf' |}
      else
        Ok {| ps_files := ps_files st;
              ps_force := ps_force st;
              ps_retval := ps_retval st;
              ps_file_count := ps_file_count st + 1;
              ps_total_lines := ps_total_lines st + logfile_size lf |}
  end.

Fixpoint poll_files (env : collaborators) (index : list content_line_t)
    (slots : list nat) (st : poll_state) : result poll_state :=
  match slots with
  | [] => Ok st
  | i :: rest =>
      st' ← poll_file env index i st;
      poll_files env index rest st'
  end.

(** *** Extending the two indexes *)

(** "Get longest lines, widest filenames, etc, among all files". *)
Fixpoint measure_files (files : list logfile_data) (widths : nat * nat * nat)
  : nat * nat * nat :=
  match files with
  | [] => widths
  | ld :: rest =>
      match get_file ld with
      | None => measure_files rest widths
      | Some lf =>
          let '(longest, basename, filename) := widths in
          measure_files rest
            (longest `max` lf_longest_line lf,
             basename `max` String.length (lf_unique_path lf),
             filename `max` String.length (lf_filename lf))
      end
  end.

(** The filter loop shared by [rebuild_index] and [text_filters_changed]:
    [entries] are the entries of [lss_index] from position [index_index]
    on.  The calls to the index delegate do not touch the sub-source and are
    left out. *)
Fixpoint filter_lines (lss : logfile_sub_source) (files : list logfile_data)
    (filter_in_mask filter_out_mask : Z) (entries : list content_line_t)
    (index_index : nat) (filtered : list Z) : result (list Z) :=
  match entries with
  | [] => Ok filtered
  | cl :: rest =>
      '(ld, line_number) ← find_data files cl;
      lf ← deref (get_file ld);
      ex ← excluded (ld_filter_state ld) filter_in_mask filter_out_mask
             line_number;
      keep ← (if ex : bool then Ok false
              else ll ← at_index (lf_loglines lf) line_number;
                   Ok (check_extra_filters lss ll));
      filter_lines lss files filter_in_mask filter_out_mask rest
        (S index_index)
        (if keep : bool then filtered ++ [uint32 (Z.of_nat index_index)]
         else filtered)
  end.

Definition never_force : bool := true.

(** "Recreate lss_index from scratch": every line of every attached file. *)
Definition all_lines (files : list logfile_data) : list content_line_t :=
  flat_map
    (λ ld, match get_file ld with
           | None => []
           | Some lf =>
               map (con_line (ld_file_index ld)) (seq 0 (logfile_size lf))
           end)
    files.

(** [logline_cmp]: the timestamp order of the lines two ContentLines
    resolve to. *)
Definition logline_cmp (files : list logfile_data)
    (lhs rhs : content_line_t) : bool :=
  match find_line files lhs, find_line files rhs with
  | Ok (Some a), Ok (Some b) => logline_lt a b
  | _, _ => false
  end.

Section RebuildIndex.

(** [std::sort] leaves the order of equal elements open, so the sort is a
    parameter of the model. *)
Variable std_sort :
  (content_line_t → content_line_t → bool) →
  list content_line_t → list content_line_t.

(** The block guarded by [retval != rr_no_change || force]. *)
Definition extend_index (env : collaborators) (full_sort : bool)
    (lss : logfile_sub_source) : result logfile_sub_source :=
  let start_size := length (lss_index lss) in
  let '(longest, basename, filename) :=
    measure_files (lss_files lss)
      (lss_longest_line lss, lss_basename_width lss, lss_filename_width lss) in
  '(files', index') ←
    (if full_sort then
       Ok (lss_files lss,
           std_sort (logline_cmp (lss_files lss))
             (lss_index lss ++ all_lines (lss_files lss)))
     else
       merge ← merge_add_files (lss_files lss) 0 [];
       merge_loop (S (kmerge_remaining merge)) merge
         (lss_files lss) (lss_index lss));
  let '(filter_in_mask, filter_out_mask) := enabled_mask env in
  filtered ← filter_lines lss files' filter_in_mask filter_out_mask
               (drop start_size index') start_size (lss_filtered_index lss);
  Ok {| lss_force_rebuild := lss_force_rebuild lss;
        lss_files := files';
        lss_index := index';
        lss_filtered_index := filtered;
        lss_longest_line := longest;
        lss_basename_width := basename;
        lss_filename_width := filename;
        lss_min_log_level := lss_min_log_level lss;
        lss_marked_only := lss_marked_only lss;
        lss_min_log_time := lss_min_log_time lss;
        lss_max_log_time := lss_max_log_time lss |}.

(** [logfile_sub_source::rebuild_index].  The final switch only tells the
    view which search to run ([redo_search] for [rr_full_rebuild],
    [search_new_data] for [rr_appended_lines]); the returned value carries
    that choice. *)
Definition rebuild_index (env : collaborators) (lss : logfile_sub_source)
  : result (logfile_sub_source * rebuild_result) :=
  let force := lss_force_rebuild lss in
  let retval := if force then rr_full_rebuild else rr_no_change in
  st ← poll_files env (lss_index lss) (seq 0 (length (lss_files lss)))
         {| ps_files := lss_files lss;
            ps_force := force;
            ps_retval := retval;
            ps_file_count := 0;
            ps_total_lines := 0 |};
  let retval := ps_retval st in
  let force :=
    if big_array_reserve env (ps_total_lines st) then true else ps_force st in
  let full_sort := force && negb never_force in
  let lss1 :=
    if force && negb never_force then
      {| lss_force_rebuild := false;
         lss_files := map (λ ld, set_lines_indexed ld 0) (ps_files st);
         lss_index := [];
         lss_filtered_index := [];
         lss_longest_line := 0;
         lss_basename_width := 0;
         lss_filename_width := 0;
         lss_min_log_level := lss_min_log_level lss;
         lss_marked_only := lss_marked_only lss;
         lss_min_log_time := lss_min_log_time lss;
         lss_max_log_time := lss_max_log_time lss |}
    else
      {| lss_force_rebuild := false;
         lss_files := ps_files st;
         lss_index := lss_index lss;
         lss_filtered_index := lss_filtered_index lss;
         lss_longest_line := lss_longest_line lss;
         lss_basename_width := lss_basename_width lss;
         lss_filename_width := lss_filename_width lss;
         lss_min_log_level := lss_min_log_level lss;
         lss_marked_only := lss_marked_only lss;
         lss_min_log_time := lss_min_log_time lss;
         lss_max_log_time := lss_max_log_time lss |} in
  lss2 ← (if negb (bool_decide (retval = rr_no_change)) || force then
            extend_index env full_sort lss1
          else Ok lss1);
  let retval :=
    if bool_decide (retval = rr_full_rebuild) && never_force
    then rr_appended_lines else retval in
  Ok (lss2, retval).

End RebuildIndex.

(** [logfile_sub_source::text_filters_changed].  The calls to the delegate
    and to the view ([reload_data], [redo_search]) are left out. *)
Definition text_filters_changed (env : collaborators)
    (lss : logfile_sub_source) : result logfile_sub_source :=
  let files' :=
    imap (λ i ld,
            match get_file ld with
            | None => ld
            | Some lf =>
                let '(lf', fs') := reobserve_from env i lf (ld_filter_state ld) in
                set_observed ld lf' fs'
            end)
         (lss_files lss) in
  let '(filtered_in_mask, filtered_out_mask) := enabled_mask env in
  filtered ← filter_lines lss files' filtered_in_mask filtered_out_mask
               (lss_index lss) 0 [];
  Ok {| lss_force_rebuild := lss_force_rebuild lss;
        lss_files := files';
        lss_index := lss_index lss;
        lss_filtered_index := filtered;
        lss_longest_line := lss_longest_line lss;
        lss_basename_width := lss_basename_width lss;
        lss_filename_width := lss_filename_width lss;
        lss_min_log_level := lss_min_log_level lss;
        lss_marked_only := lss_marked_only lss;
        lss_min_log_time := lss_min_log_time lss;
        lss_max_log_time := lss_max_log_time lss |}.

(** ** Rows of the view *)

(** [vis_line_t] wraps an [int]; a row number is a [Z]. *)
Abbreviation vis_line_t := Z (only parsing).

(** Modelled from the spec: [text_line_count] (a header outside the
    excerpt) is the number of rows, the length of FilteredIndex. *)
Definition text_line_count (lss : logfile_sub_source) : nat :=
  length (lss_filtered_index lss).

(** Modelled from the spec (section 4.G, step 1): [at(row)] resolves
    [GlobalIndex[FilteredIndex[row]]]. *)
Definition lss_at (lss : logfile_sub_source) (row : vis_line_t)
  : result content_line_t :=
  _ ← require (bool_decide (0 ≤ row)%Z);
  i ← at_index (lss_filtered_index lss) (Z.to_nat row);
  at_index (lss_index lss) (Z.to_nat i).

(** Modelled from the spec: [find(cl)] (same header) yields the file of the
    slot, null when it is gone, and rewrites [cl] to the line number. *)
Definition find (files : list logfile_data) (cl : content_line_t)
  : result (nat * option logfile * nat) :=
  let slot := Z.to_nat (cl / MAX_LINES_PER_FILE) in
  ld ← at_index files slot;
  Ok (slot, get_file ld, Z.to_nat (cl mod MAX_LINES_PER_FILE)).

(** ** Location history *)

(** Modelled from the spec: the history is a bounded ring (section 4.J);
    [llh_history] lists its entries oldest first and [llh_max_size] is the
    size of its backing array, declared outside the excerpt. *)
Record log_location_history : Type := mk_location_history {
  llh_history : list content_line_t;
  llh_max_size : nat;
  lh_history_position : nat;
}.

(** Modelled from the spec: [push_back] on the ring drops the oldest entry
    once the ring is full. *)
Definition ring_push_back (max_size : nat) (ring : list content_line_t)
    (cl : content_line_t) : list content_line_t :=
  if bool_decide (length ring < max_size) then ring ++ [cl]
  else tail ring ++ [cl].

(** The conversion of an [int] to [size_t] that the comparison of a row
    with [text_line_count()] performs. *)
Definition size_t_of_int (i : Z) : Z := (i mod 2 ^ 64)%Z.

(** [log_location_history::loc_history_append] *)
Definition loc_history_append (lss : logfile_sub_source)
    (h : log_location_history) (top : vis_line_t)
  : result log_location_history :=
  if bool_decide (Z.of_nat (text_line_count lss) ≤ size_t_of_int top)%Z then
    Ok h
  else
    cl ← lss_at lss top;
    _ ← require (bool_decide (lh_history_position h ≤ length (llh_history h)));
    let kept :=
      take (length (llh_history h) - lh_history_position h) (llh_history h) in
    Ok {| llh_history := ring_push_back (llh_max_size h) kept cl;
          llh_max_size := llh_max_size h;
          lh_history_position := 0 |}.

(** ** Bookmarks *)

Abbreviation bookmark_type_t := string (only parsing).

Definition BM_ERRORS : bookmark_type_t := "error".
Definition BM_WARNINGS : bookmark_type_t := "warning".
Definition BM_FILES : bookmark_type_t := EmptyString.
Definition BM_USER : bookmark_type_t := "user".
Definition BM_SEARCH : bookmark_type_t := "search".
Definition BM_META : bookmark_type_t := "meta".

(** [vis_bookmarks]: a map from the bookmark type to its sorted vector of
    rows.  [bm[type]] reads an absent entry as the empty vector. *)
Definition bm_get (bm : gmap bookmark_type_t (list vis_line_t))
    (ty : bookmark_type_t) : list vis_line_t :=
  default [] (bm !! ty).

(** Modelled from the spec: [insert_once] (section 3, "a sorted set of row
    numbers") inserts in order unless the row is already there. *)
Fixpoint insert_once (v : list vis_line_t) (vl : vis_line_t)
  : list vis_line_t :=
  match v with
  | [] => [vl]
  | x :: v' =>
      if (vl <? x)%Z then vl :: x :: v'
      else if (vl =? x)%Z then x :: v'
      else x :: insert_once v' vl
  end.

Definition bm_insert_once (bm : gmap bookmark_type_t (list vis_line_t))
    (ty : bookmark_type_t) (vl : vis_line_t)
  : gmap bookmark_type_t (list vis_line_t) :=
  <[ty := insert_once (bm_get bm ty) vl]> bm.

Definition set_mark (ll : logline) (mark : bool) : logline :=
  {| ll_time := ll_time ll;
     ll_millis := ll_millis ll;
     ll_level := ll_level ll;
     ll_continued := ll_continued ll;
     ll_time_skewed := ll_time_skewed ll;
     ll_marked := mark;
     ll_sub_offset := ll_sub_offset ll |}.

(** [(lf->begin() + line)->set_mark(true)] on the file of [slot]. *)
Definition mark_line (files : list logfile_data) (slot line : nat)
  : result (list logfile_data) :=
  ld ← at_index files slot;
  lf ← deref (get_file ld);
  ll ← at_index (lf_loglines lf) line;
  Ok (<[slot :=
         {| ld_file_index := ld_file_index ld;
            ld_file :=
              Some {| lf_filename := lf_filename lf;
                      lf_unique_path := lf_unique_path lf;
                      lf_format_name := lf_format_name lf;
                      lf_loglines := <[line := set_mark ll true]> (lf_loglines lf);
                      lf_longest_line := lf_longest_line lf;
                      lf_time_adjusted := lf_time_adjusted lf |};
            ld_lines_indexed := ld_lines_indexed ld;
            ld_filter_state := ld_filter_state ld |}]> files).

(** The inner loop over [lss_user_marks] for one row.  The marked vectors
    are kept sorted, so [binary_search] is membership. *)
Fixpoint apply_user_marks
    (user_marks : list (bookmark_type_t * list content_line_t))
    (orig_cl : content_line_t) (vl : vis_line_t) (slot line : nat)
    (files : list logfile_data) (bm : gmap bookmark_type_t (list vis_line_t))
  : result (list logfile_data * gmap bookmark_type_t (list vis_line_t)) :=
  match user_marks with
  | [] => Ok (files, bm)
  | (ty, marked) :: rest =>
      if bool_decide (orig_cl ∈ marked) then
        files' ← (if bool_decide (ty = BM_USER) then mark_line files slot line
                  else Ok files);
        apply_user_marks rest orig_cl vl slot line files'
          (bm_insert_once bm ty vl)
      else apply_user_marks rest orig_cl vl slot line files bm
  end.

Record marks_state : Type := mk_marks_state {
  ms_files : list logfile_data;
  ms_bm : gmap bookmark_type_t (list vis_line_t);
  ms_last_file : option nat;
}.

(** The level switch of [text_update_marks]. *)
Definition mark_level (bm : gmap bookmark_type_t (list vis_line_t))
    (ll : logline) (vl : vis_line_t)
  : gmap bookmark_type_t (list vis_line_t) :=
  if negb (is_continued ll) then
    match get_msg_level ll with
    | LEVEL_WARNING => bm_insert_once bm BM_WARNINGS vl
    | LEVEL_FATAL | LEVEL_ERROR | LEVEL_CRITICAL =>
        bm_insert_once bm BM_ERRORS vl
    | _ => bm
    end
  else bm.

(** One round of the row loop of [text_update_marks].  Two file pointers
    are equal when both are null or both belong to the same slot. *)
Definition update_marks_row (lss : logfile_sub_source)
    (user_marks : list (bookmark_type_t * list content_line_t))
    (row : nat) (st : marks_state) : result marks_state :=
  let vl := Z.of_nat row in
  orig_cl ← lss_at lss vl;
  '(slot, lf, cl) ← find (ms_files st) orig_cl;
  let this_file := match lf with Some _ => Some slot | None => None end in
  '(files1, bm1) ←
    apply_user_marks user_marks orig_cl vl slot cl (ms_files st) (ms_bm st);
  let bm2 :=
    if bool_decide (this_file ≠ ms_last_file st)
    then bm_insert_once bm1 BM_FILES vl else bm1 in
  ld ← at_index files1 slot;
  lf1 ← deref (get_file ld);
  line_iter ← at_index (lf_loglines lf1) cl;
  Ok {| ms_files := files1;
        ms_bm := mark_level bm2 line_iter vl;
        ms_last_file := this_file |}.

Fixpoint update_marks_rows (lss : logfile_sub_source)
    (user_marks : list (bookmark_type_t * list content_line_t))
    (rows : list nat) (st : marks_state) : result marks_state :=
  match rows with
  | [] => Ok st
  | row :: rest =>
      st' ← update_marks_row lss user_marks row st;
      update_marks_rows lss user_marks rest st'
  end.

Definition bm_clear (bm : gmap bookmark_type_t (list vis_line_t))
    (ty : bookmark_type_t) : gmap bookmark_type_t (list vis_line_t) :=
  <[ty := []]> bm.

(** [logfile_sub_source::text_update_marks]; [user_marks] is the member
    [lss_user_marks].  The result is the bookmarks and the files, whose
    lines may have been marked. *)
Definition text_update_marks (lss : logfile_sub_source)
    (user_marks : list (bookmark_type_t * list content_line_t))
    (bm : gmap bookmark_type_t (list vis_line_t))
  : result (list logfile_data * gmap bookmark_type_t (list vis_line_t)) :=
  let bm0 :=
    foldl (λ b um, bm_clear b um.1)
      (bm_clear (bm_clear (bm_clear bm BM_WARNINGS) BM_ERRORS) BM_FILES)
      user_marks in
  st ← update_marks_rows lss user_marks
         (seq 0 (length (lss_filtered_index lss)))
         {| ms_files := lss_files lss; ms_bm := bm0; ms_last_file := None |};
  Ok (ms_files st, ms_bm st).

(** ** Rendering attributes (text_attrs_for_line) *)

Record line_range : Type := mk_line_range {
  lr_start : Z;
  lr_end : Z;
}.

Global Instance line_range_eq_dec : EqDecision line_range.
Proof. solve_decision. Defined.

Inductive string_attr_type_t : Type :=
  | SA_ORIGINAL_LINE
  | SA_HIDDEN
  | SA_FORMAT
  | VC_STYLE
  | VC_GRAPHIC
  | L_FILE
  | L_PARTITION
  | L_META
  | L_TIMESTAMP
  | L_OTHER (name : string).

Global Instance string_attr_type_eq_dec : EqDecision string_attr_type_t.
Proof. solve_decision. Defined.

(** The payload of an attribute: an [int] of curses attributes or a
    graphic, or a reference to a file, a format name or a mark's metadata. *)
Inductive string_attr_value : Type :=
  | SAV_none
  | SAV_int (v : Z)
  | SAV_file (filename : string)
  | SAV_format (name : string)
  | SAV_meta (name : string).

Record string_attr : Type := mk_string_attr {
  sa_range : line_range;
  sa_type : string_attr_type_t;
  sa_value : string_attr_value;
}.

Inductive view_role : Type :=
  | VCR_ADJUSTED_TIME
  | VCR_ALT_ROW
  | VCR_SKEWED_TIME
  | VCR_OFFSET_TIME
  | VCR_DIFF_DELETE
  | VCR_DIFF_ADD.

Inductive direction_t : Type :=
  | A_STEADY
  | A_DECEL
  | A_ACCEL.

(** The bits of [lss_flags] that [text_attrs_for_line] tests. *)
Record lss_flags_t : Type := mk_lss_flags {
  F_FILENAME : bool;
  F_BASENAME : bool;
  F_TIME_OFFSET : bool;
}.

(** The bit of the [line_flags_t] of the row being rendered that
    [text_attrs_for_line] tests. *)
Record line_flags_t : Type := mk_line_flags {
  RF_FULL : bool;
}.

Record logline_value : Type := mk_logline_value {
  lv_sub_offset : Z;
  lv_origin : line_range;
  lv_hidden : bool;
  lv_identifier : bool;
  lv_text : string;
}.

(** The members that [text_value_for_line] leaves behind for the row. *)
Record token_state : Type := mk_token_state {
  lss_flags : lss_flags_t;
  lss_token_flags : line_flags_t;
  lss_token_file : logfile;
  lss_token_line : logline;
  lss_token_attrs : list string_attr;
  lss_token_values : list logline_value;
  lss_token_value : string;
  lss_token_shift_start : Z;
  lss_token_shift_size : Z;
}.

Record bookmark_metadata : Type := mk_bookmark_metadata {
  bm_name : string;
}.

(** Modelled from the spec: [day_num] (section 4.G, step 8) is
    [floor(epoch_sec / 86400)]. *)
Definition day_num (t : Z) : Z := (t / 86400)%Z.

(** [std::lower_bound] on a sorted vector of rows: the number of rows
    below [vl]. *)
Fixpoint lower_bound (v : list vis_line_t) (vl : vis_line_t) : nat :=
  match v with
  | [] => 0
  | x :: v' => if (x <? vl)%Z then S (lower_bound v' vl) else 0
  end.

(** [std::binary_search] on a sorted vector of rows. *)
Definition binary_search (v : list vis_line_t) (vl : vis_line_t) : bool :=
  bool_decide (vl ∈ v).

Section Render.

(** What the headers outside the excerpt provide: the colours of the view,
    the curses constants, the range helpers of [attr_line.hh], and
    [log_accel]. *)
Variable vc_level_attrs : log_level_t → Z.
Variable attrs_for_role : view_role → Z.
Variable attrs_for_ident : string → Z.
Variables A_UNDERLINE A_REVERSE : Z.
Variables ACS_VLINE ACS_HLINE ACS_ULCORNER ACS_LLCORNER : Z.
Variable shift_string_attrs : list string_attr → Z → Z → list string_attr.
Variable find_string_attr_range :
  list string_attr → string_attr_type_t → line_range.
Variable is_valid : line_range → bool.
Variable origin_in_full_msg : logline_value → string → line_range.
Variable log_accel : Type.
Variable la_new : log_accel.
Variable add_point : log_accel → Z → log_accel * bool.
Variable get_direction : log_accel → direction_t.

(** [logfile_sub_source::get_line_accel_direction]: [rows] counts the rows
    from [vl] down to row 0 that are still to visit. *)
Fixpoint accel_loop (lss : logfile_sub_source) (rows : nat) (la : log_accel)
  : result log_accel :=
  match rows with
  | O => Ok la
  | S vl =>
      cl ← lss_at lss (Z.of_nat vl);
      found ← find_line (lss_files lss) cl;
      curr_line ← deref found;
      if is_continued curr_line then accel_loop lss vl la
      else
        let '(la', more) := add_point la (get_time_in_millis curr_line) in
        if more : bool then accel_loop lss vl la' else Ok la'
  end.

Definition get_line_accel_direction (lss : logfile_sub_source)
    (vl : vis_line_t) : result direction_t :=
  la ← accel_loop lss (Z.to_nat (vl + 1)%Z) la_new;
  Ok (get_direction la).

(** The loop over the values of the line. *)
Fixpoint value_attrs (tok : token_state) (values : list logline_value)
    (value_out : list string_attr) : list string_attr :=
  match values with
  | [] => value_out
  | line_value :: rest =>
      if (negb (RF_FULL (lss_token_flags tok))
          && negb (lv_sub_offset line_value
                   =? get_sub_offset (lss_token_line tok))%Z)
         || negb (is_valid (lv_origin line_value))
      then value_attrs tok rest value_out
      else
        let out1 :=
          if lv_hidden line_value
          then value_out ++ [mk_string_attr (lv_origin line_value) SA_HIDDEN SAV_none]
          else value_out in
        if negb (lv_identifier line_value)
           || negb (is_valid (lv_origin line_value))
        then value_attrs tok rest out1
        else
          let id_attrs := attrs_for_ident (lv_text line_value) in
          let ident_range :=
            if RF_FULL (lss_token_flags tok)
            then origin_in_full_msg line_value (lss_token_value tok)
            else lv_origin line_value in
          value_attrs tok rest
            (out1 ++ [mk_string_attr ident_range VC_STYLE (SAV_int id_attrs)])
  end.

(** Everything [text_attrs_for_line] does before it styles the timestamp:
    level colour and day underline, identifiers, the shifts, the file glyph,
    the search mark, the file-name and time-offset columns, and the file,
    format, partition and meta attributes. *)
Definition attrs_before_time_styles (lss : logfile_sub_source)
    (tok : token_state)
    (bm : gmap bookmark_type_t (list vis_line_t))
    (metadata : gmap Z bookmark_metadata) (row : vis_line_t)
  : result (list string_attr) :=
  let value_out := lss_token_attrs tok in
  let attrs := vc_level_attrs (get_msg_level (lss_token_line tok)) in
  next_line ←
    (if bool_decide (row + 1 < Z.of_nat (length (lss_filtered_index lss)))%Z
     then cl ← lss_at lss (row + 1)%Z; find_line (lss_files lss) cl
     else Ok None);
  let attrs :=
    match next_line with
    | Some nl =>
        if (day_num (get_time (lss_token_line tok)) <? day_num (get_time nl))%Z
        then Z.lor attrs A_UNDERLINE else attrs
    | None => attrs
    end in
  let value_out :=
    value_out
      ++ [mk_string_attr
            (mk_line_range 0 (Z.of_nat (String.length (lss_token_value tok))))
            SA_ORIGINAL_LINE SAV_none] in
  let value_out :=
    value_out ++ [mk_string_attr (mk_line_range 0 (-1)%Z) VC_STYLE (SAV_int attrs)] in
  let value_out := value_attrs tok (lss_token_values tok) value_out in
  let value_out :=
    if negb (lss_token_shift_size tok =? 0)%Z
    then shift_string_attrs value_out (lss_token_shift_start tok + 1)%Z
           (lss_token_shift_size tok)
    else value_out in
  let value_out := shift_string_attrs value_out 0 1 in
  let lr := mk_line_range 0 1 in
  let is_first_for_file := binary_search (bm_get bm BM_FILES) row in
  let is_last_for_file := binary_search (bm_get bm BM_FILES) (row + 1)%Z in
  let graph :=
    if is_first_for_file then
      if is_last_for_file then ACS_HLINE else ACS_ULCORNER
    else if is_last_for_file then ACS_LLCORNER
    else ACS_VLINE in
  let value_out := value_out ++ [mk_string_attr lr VC_GRAPHIC (SAV_int graph)] in
  let value_out :=
    if negb (RF_FULL (lss_token_flags tok)) && binary_search (bm_get bm BM_SEARCH) row
    then value_out ++ [mk_string_attr lr VC_STYLE (SAV_int A_REVERSE)]
    else value_out in
  let file_attrs := attrs_for_ident (lf_filename (lss_token_file tok)) in
  let value_out := value_out ++ [mk_string_attr lr VC_STYLE (SAV_int file_attrs)] in
  let value_out :=
    if F_FILENAME (lss_flags tok) || F_BASENAME (lss_flags tok) then
      let file_offset_end :=
        Z.of_nat (if F_FILENAME (lss_flags tok) then lss_filename_width lss
                  else lss_basename_width lss) in
      shift_string_attrs value_out 0 file_offset_end
        ++ [mk_string_attr (mk_line_range 0 (file_offset_end + 1)%Z) VC_STYLE
              (SAV_int file_attrs)]
    else value_out in
  value_out ←
    (if F_TIME_OFFSET (lss_flags tok) then
       let time_offset_end := 13%Z in
       let out1 :=
         shift_string_attrs value_out 0 time_offset_end
           ++ [mk_string_attr (mk_line_range 0 time_offset_end) VC_STYLE
                 (SAV_int (attrs_for_role VCR_OFFSET_TIME));
               mk_string_attr (mk_line_range 12 13) VC_GRAPHIC
                 (SAV_int ACS_VLINE)] in
       dir ← get_line_accel_direction lss row;
       let bar_attrs :=
         match dir with
         | A_STEADY => 0%Z
         | A_DECEL => attrs_for_role VCR_DIFF_DELETE
         | A_ACCEL => attrs_for_role VCR_DIFF_ADD
         end in
       Ok (out1 ++ [mk_string_attr (mk_line_range 12 13) VC_STYLE
                      (SAV_int bar_attrs)])
     else Ok value_out);
  let whole := mk_line_range 0 (-1)%Z in
  let value_out :=
    value_out
      ++ [mk_string_attr whole L_FILE (SAV_file (lf_filename (lss_token_file tok)));
          mk_string_attr whole SA_FORMAT
            (SAV_format (lf_format_name (lss_token_file tok)))] in
  let bv := bm_get bm BM_META in
  value_out ←
    (match lower_bound bv (row + 1)%Z with
     | O => Ok value_out
     | S before =>
         part_row ← at_index bv before;
         part_start_line ← lss_at lss part_row;
         match metadata !! part_start_line with
         | Some meta =>
             if negb (bool_decide (bm_name meta = EmptyString))
             then Ok (value_out
                        ++ [mk_string_attr whole L_PARTITION
                              (SAV_meta (bm_name meta))])
             else Ok value_out
         | None => Ok value_out
         end
     end);
  row_line ← lss_at lss row;
  Ok (match metadata !! row_line with
      | Some meta =>
          value_out ++ [mk_string_attr whole L_META (SAV_meta (bm_name meta))]
      | None => value_out
      end).

(** The two closing blocks of [text_attrs_for_line]: the role of the
    timestamp (adjusted time, or the alternate row) and the skew warning. *)
Definition time_styles (tok : token_state) (value_out : list string_attr)
  : list string_attr :=
  let value_out :=
    if lf_time_adjusted (lss_token_file tok) then
      let time_range := find_string_attr_range value_out L_TIMESTAMP in
      if negb (lr_end time_range =? -1)%Z
      then value_out
             ++ [mk_string_attr time_range VC_STYLE
                   (SAV_int (attrs_for_role VCR_ADJUSTED_TIME))]
      else value_out
    else if (Z.rem (Z.quot (get_time (lss_token_line tok)) (5 * 60)) 2 =? 0)%Z
            && negb (is_continued (lss_token_line tok)) then
      let time_range := find_string_attr_range value_out L_TIMESTAMP in
      if negb (lr_end time_range =? -1)%Z
      then value_out
             ++ [mk_string_attr time_range VC_STYLE
                   (SAV_int (attrs_for_role VCR_ALT_ROW))]
      else value_out
    else value_out in
  if is_time_skewed (lss_token_line tok) then
    let time_range := find_string_attr_range value_out L_TIMESTAMP in
    if negb (lr_end time_range =? -1)%Z
    then value_out
           ++ [mk_string_attr time_range VC_STYLE
                 (SAV_int (attrs_for_role VCR_SKEWED_TIME))]
    else value_out
  else value_out.

(** [logfile_sub_source::text_attrs_for_line] *)
Definition text_attrs_for_line (lss : logfile_sub_source) (tok : token_state)
    (bm : gmap bookmark_type_t (list vis_line_t))
    (metadata : gmap Z bookmark_metadata) (row : vis_line_t)
  : result (list string_attr) :=
  value_out ← attrs_before_time_styles lss tok bm metadata row;
  Ok (time_styles tok value_out).

End Render.

(** * Vocabulary of the properties and scenarios *)

(** ** Filter state *)

Definition filter_bit (p : nat) (m : Z) : bool := Z.testbit m (Z.of_nat p).

(** The per-filter arrays hold [MAX_FILTERS] entries each. *)
Definition filter_arrays_sized (lfs : logfile_filter_state) : Prop :=
  length (tfs_filter_count lfs) = MAX_FILTERS
  ∧ length (tfs_filter_hits lfs) = MAX_FILTERS
  ∧ length (tfs_message_matched lfs) = MAX_FILTERS
  ∧ length (tfs_lines_for_message lfs) = MAX_FILTERS
  ∧ length (tfs_last_message_matched lfs) = MAX_FILTERS
  ∧ length (tfs_last_lines_for_message lfs) = MAX_FILTERS.

(** Whether the filter matches some line of the message. *)
Definition message_matches (f : text_filter) (lf : logfile)
    (msg : list (logline * string)) : bool :=
  existsb (λ lb, matches f lf lb.1 lb.2) msg.

(** ** The k-way merge *)

(** No line is strictly below [h]: [h] is a minimum. *)
Definition least_head (h : logline) (heads : list logline) : Prop :=
  ∀ h', h' ∈ heads → logline_lt h' h = false.

Definition range_heads (merge : kmerge_tree_c) : list logline :=
  omap (λ r, head (kr_lines r)) merge.

(** *** The merge as the specification words it

    "Repeatedly take the minimum across heads; append its ContentLine to
    GlobalIndex; advance that file's [lines_indexed].  Terminate when any
    participating file is fully consumed."  The head of a file is its first
    line past [ld_lines_indexed]. *)

Definition head_of (ld : logfile_data) : option logline :=
  lf ← get_file ld; lf_loglines lf !! ld_lines_indexed ld.

Definition file_heads (files : list logfile_data) : list logline :=
  omap head_of files.

Definition advance (ld : logfile_data) : logfile_data :=
  set_lines_indexed ld (S (ld_lines_indexed ld)).

Inductive spec_merge :
  list logfile_data → list content_line_t →
  list logfile_data → list content_line_t → Prop :=
  | spec_merge_idle files index :
      file_heads files = [] →
      spec_merge files index files index
  | spec_merge_last files index o ld lf h :
      files !! o = Some ld →
      get_file ld = Some lf →
      head_of ld = Some h →
      least_head h (file_heads files) →
      ld_lines_indexed ld + 1 = logfile_size lf →
      spec_merge files index
        (<[o := advance ld]> files)
        (index ++ [con_line (ld_file_index ld) (ld_lines_indexed ld)])
  | spec_merge_more files index o ld lf h files' index' :
      files !! o = Some ld →
      get_file ld = Some lf →
      head_of ld = Some h →
      least_head h (file_heads files) →
      ld_lines_indexed ld + 1 ≠ logfile_size lf →
      spec_merge
        (<[o := advance ld]> files)
        (index ++ [con_line (ld_file_index ld) (ld_lines_indexed ld)])
        files' index' →
      spec_merge files index files' index'.

(** *** The merge tree against the files *)

Definition range_agrees (files : list logfile_data) (r : kmerge_range)
  : Prop :=
  ∃ ld lf, files !! kr_owner r = Some ld
           ∧ get_file ld = Some lf
           ∧ kr_pos r = ld_lines_indexed ld
           ∧ kr_lines r = drop (kr_pos r) (lf_loglines lf)
           ∧ kr_pos r < logfile_size lf.

Definition merge_agrees (files : list logfile_data) (merge : kmerge_tree_c)
  : Prop :=
  (∀ j r, merge !! j = Some r → range_agrees files r)
  ∧ NoDup (kr_owner <$> merge)
  ∧ (∀ o ld h, files !! o = Some ld → head_of ld = Some h →
               ∃ j r, merge !! j = Some r ∧ kr_owner r = o).

(** *** Filling the merge tree *)

(** Every attached file holds at least the lines already indexed. *)
Definition files_fit (files : list logfile_data) : Prop :=
  ∀ ld lf, ld ∈ files → get_file ld = Some lf →
           ld_lines_indexed ld ≤ logfile_size lf.

Fixpoint ranges_from (slot : nat) (files : list logfile_data)
  : list kmerge_range :=
  match files with
  | [] => []
  | ld :: rest =>
      match get_file ld with
      | Some lf =>
          if bool_decide (ld_lines_indexed ld < logfile_size lf) then
            {| kr_owner := slot;
               kr_pos := ld_lines_indexed ld;
               kr_lines := drop (ld_lines_indexed ld) (lf_loglines lf) |}
            :: ranges_from (S slot) rest
          else ranges_from (S slot) rest
      | None => ranges_from (S slot) rest
      end
  end.

(** *** What the merge leaves alone *)

(** A slot keeps its file, its number and its filter state; the count of
    indexed lines only grows. *)
Definition same_file (a b : logfile_data) : Prop :=
  ld_file_index a = ld_file_index b
  ∧ ld_file a = ld_file b
  ∧ ld_filter_state a = ld_filter_state b
  ∧ ld_lines_indexed a ≤ ld_lines_indexed b.

(** *** Well-formed slots *)

(** The slot number is the position in [lss_files]; an attached file holds
    the lines already indexed, stays below [MAX_LINES_PER_FILE] lines, and
    its filter mask covers every line. *)
Definition slot_ok (i : nat) (ld : logfile_data) : Prop :=
  ld_file_index ld = i
  ∧ ∀ lf, get_file ld = Some lf →
          ld_lines_indexed ld ≤ logfile_size lf
          ∧ (Z.of_nat (logfile_size lf) ≤ MAX_LINES_PER_FILE)%Z
          ∧ logfile_size lf ≤ length (tfs_mask (ld_filter_state ld)).

Definition files_ok (files : list logfile_data) : Prop :=
  ∀ i ld, files !! i = Some ld → slot_ok i ld.

(** A ContentLine names a slot of [files] and, if the file is still
    attached, one of its indexed lines. *)
Definition entry_in_range (files : list logfile_data) (cl : content_line_t)
  : Prop :=
  (0 ≤ cl)%Z
  ∧ ∃ ld, files !! Z.to_nat (cl / MAX_LINES_PER_FILE) = Some ld
          ∧ ∀ lf, get_file ld = Some lf →
                  Z.to_nat (cl mod MAX_LINES_PER_FILE) < ld_lines_indexed ld.

(** A ContentLine names an indexed line of an attached file. *)
Definition entry_attached (files : list logfile_data) (cl : content_line_t)
  : Prop :=
  (0 ≤ cl)%Z
  ∧ ∃ ld lf, files !! Z.to_nat (cl / MAX_LINES_PER_FILE) = Some ld
             ∧ get_file ld = Some lf
             ∧ Z.to_nat (cl mod MAX_LINES_PER_FILE) < ld_lines_indexed ld.

(** *** Where the merge stops *)

(** The file in slot [o] takes part in the merge: it has a head. *)
Definition participates (files : list logfile_data) (o : nat) : Prop :=
  ∃ ld, files !! o = Some ld ∧ is_Some (head_of ld).

(** ** Polling *)

(** A re-observation that the sub-source can digest: the file keeps the
    lines already indexed and stays below [MAX_LINES_PER_FILE] lines, the
    observers have grown the filter mask with the file, and [RR_NEW_LINES]
    is reported only when there is a line past those indexed. *)
Definition slot_observation_ok (env : collaborators) (i : nat)
    (ld : logfile_data) : Prop :=
  ∀ lf, get_file ld = Some lf → is_paused env = false →
    let '(observed, lf', fs') := lf_rebuild_index env i lf (ld_filter_state ld) in
    ld_lines_indexed ld ≤ logfile_size lf'
    ∧ (Z.of_nat (logfile_size lf') ≤ MAX_LINES_PER_FILE)%Z
    ∧ logfile_size lf' ≤ length (tfs_mask fs')
    ∧ (observed = RR_NEW_LINES → ld_lines_indexed ld < logfile_size lf').

Definition observation_ok (env : collaborators) (files : list logfile_data)
  : Prop :=
  ∀ i ld, files !! i = Some ld → slot_observation_ok env i ld.

(** The view is running and the file in slot [i] does not report
    [RR_NO_NEW_LINES]. *)
Definition reports_change (env : collaborators) (i : nat)
    (ld : logfile_data) : Prop :=
  ∃ lf, get_file ld = Some lf ∧ is_paused env = false
        ∧ (lf_rebuild_index env i lf (ld_filter_state ld)).1.1
          ≠ RR_NO_NEW_LINES.

(** What polling one slot does to the files: the slot alone changes, and
    only in its file and its filter state. *)
Definition polled (files files' : list logfile_data) : Prop :=
  Forall2 (λ a b, ld_file_index a = ld_file_index b
                  ∧ ld_lines_indexed a = ld_lines_indexed b
                  ∧ (is_Some (ld_file a) ↔ is_Some (ld_file b)))
          files files'.

(** ** rebuild_index *)

(** The sub-source is well formed: its slots are, and every entry of
    GlobalIndex names an indexed line of its slot. *)
Definition lss_wf (lss : logfile_sub_source) : Prop :=
  files_ok (lss_files lss)
  ∧ Forall (entry_in_range (lss_files lss)) (lss_index lss).

(** The positions a call appends to FilteredIndex: increasing, and taken
    from the part of GlobalIndex between the two given lengths. *)
Definition appended_rows (before after : nat) (filtered filtered' : list Z)
  : Prop :=
  ∃ js : list nat,
    filtered' = filtered ++ map (λ j, uint32 (Z.of_nat j)) js
    ∧ StronglySorted lt js
    ∧ Forall (λ j, before ≤ j < after) js.

(** ** The invariants of the two indexes *)

(** FilteredIndex is strictly increasing and every entry is a position of
    GlobalIndex. *)
Definition filtered_index_ok (lss : logfile_sub_source) : Prop :=
  StronglySorted Z.lt (lss_filtered_index lss)
  ∧ Forall (λ row, (0 ≤ row < Z.of_nat (length (lss_index lss)))%Z)
      (lss_filtered_index lss).

Section Reachable.

Context (std_sort :
  (content_line_t → content_line_t → bool) →
  list content_line_t → list content_line_t).

(** One step of the life of the sub-source: a call of [rebuild_index], a
    call of [text_filters_changed], or anything else (attaching or detaching
    a file, a change of the filters or of the view), which leaves both
    indexes alone. *)
Inductive lss_step : logfile_sub_source → logfile_sub_source → Prop :=
  | step_rebuild_index env lss lss' r :
      rebuild_index std_sort env lss = Ok (lss', r) → lss_step lss lss'
  | step_text_filters_changed env lss lss' :
      text_filters_changed env lss = Ok lss' → lss_step lss lss'
  | step_other lss lss' :
      lss_index lss' = lss_index lss →
      lss_filtered_index lss' = lss_filtered_index lss →
      lss_step lss lss'.

Inductive reachable : logfile_sub_source → Prop :=
  | reachable_init : reachable lss_init
  | reachable_step lss lss' :
      reachable lss → lss_step lss lss' → reachable lss'.

End Reachable.

(** *** The classification of section 4.F *)

(** Some attached file, re-observed while the view runs, reports
    [RR_NEW_ORDER] or [RR_INVALID], or reports [RR_NEW_LINES] with a first
    new line older than the last line of GlobalIndex. *)
Definition forces_full_rebuild (env : collaborators)
    (lss : logfile_sub_source) : Prop :=
  ∃ i ld lf observed lf' fs',
    lss_files lss !! i = Some ld
    ∧ get_file ld = Some lf
    ∧ is_paused env = false
    ∧ lf_rebuild_index env i lf (ld_filter_state ld) = (observed, lf', fs')
    ∧ (observed = RR_NEW_ORDER
       ∨ observed = RR_INVALID
       ∨ (observed = RR_NEW_LINES
          ∧ ∃ cl new_line last_line,
              last (lss_index lss) = Some cl
              ∧ lf_loglines lf' !! ld_lines_indexed ld = Some new_line
              ∧ find_line (lss_files lss) cl = Ok (Some last_line)
              ∧ logline_lt new_line last_line = true)).

(** ** Bookmarks *)

(** Whether a line is a continuation, and its level: what marking a line
    never changes. *)
Definition line_kind (files : list logfile_data) (slot line : nat)
  : option (bool * log_level_t) :=
  ld ← files !! slot;
  lf ← get_file ld;
  ll ← lf_loglines lf !! line;
  Some (is_continued ll, get_msg_level ll).

(** The kind of the log line under a row of the view. *)
Definition row_kind (lss : logfile_sub_source) (row : nat)
  : option (bool * log_level_t) :=
  match lss_at lss (Z.of_nat row) with
  | Ok cl =>
      line_kind (lss_files lss)
        (Z.to_nat (cl / MAX_LINES_PER_FILE))
        (Z.to_nat (cl mod MAX_LINES_PER_FILE))
  | _ => None
  end.

Definition is_error_level (l : log_level_t) : bool :=
  match l with
  | LEVEL_ERROR | LEVEL_CRITICAL | LEVEL_FATAL => true
  | _ => false
  end.

(** ** The role of the timestamp *)

(** The attribute that gives [role] to the timestamp range found in
    [value_out]. *)
Definition time_role_attr (attrs_for_role : view_role → Z)
    (find_string_attr_range :
       list string_attr → string_attr_type_t → line_range)
    (value_out : list string_attr) (role : view_role) : string_attr :=
  mk_string_attr (find_string_attr_range value_out L_TIMESTAMP) VC_STYLE
    (SAV_int (attrs_for_role role)).

(** ** Scenarios *)

Definition line_at (t : Z) : logline :=
  {| ll_time := t; ll_millis := 0; ll_level := LEVEL_INFO;
     ll_continued := false; ll_time_skewed := false; ll_marked := false;
     ll_sub_offset := 0 |}.

Definition file_of (name : string) (lines : list logline) : logfile :=
  {| lf_filename := name; lf_unique_path := name;
     lf_format_name := "syslog_log"; lf_loglines := lines;
     lf_longest_line := 80; lf_time_adjusted := false |}.

(** The filter state of a file nobody has filtered yet. *)
Definition fresh_filter_state (lf : logfile) : logfile_filter_state :=
  {| tfs_logfile := lf;
     tfs_filter_count := replicate MAX_FILTERS 0;
     tfs_filter_hits := replicate MAX_FILTERS 0;
     tfs_message_matched := replicate MAX_FILTERS false;
     tfs_lines_for_message := replicate MAX_FILTERS 0;
     tfs_last_message_matched := replicate MAX_FILTERS false;
     tfs_last_lines_for_message := replicate MAX_FILTERS 0;
     tfs_mask := replicate (logfile_size lf) 0%Z |}.

Definition attach (slot : nat) (lf : logfile) : logfile_data :=
  {| ld_file_index := slot; ld_file := Some lf; ld_lines_indexed := 0;
     ld_filter_state := fresh_filter_state lf |}.

Definition with_files (files : list logfile_data) : logfile_sub_source :=
  {| lss_force_rebuild := false;
     lss_files := files;
     lss_index := [];
     lss_filtered_index := [];
     lss_longest_line := 0;
     lss_basename_width := 0;
     lss_filename_width := 0;
     lss_min_log_level := LEVEL_UNKNOWN;
     lss_marked_only := false;
     lss_min_log_time := None;
     lss_max_log_time := None |}.

(** A tick on which every file reports what [report] says and stays as it
    is; the view runs and no filter is enabled. *)
Definition tick (report : logfile_rebuild_result) : collaborators :=
  {| is_paused := false;
     lf_rebuild_index := λ _ lf fs, (report, lf, fs);
     reobserve_from := λ _ lf fs, (lf, fs);
     big_array_reserve := λ _, false;
     enabled_mask := (0%Z, 0%Z) |}.

(** A tick on which the file in slot 1 has grown into [lf] and reports
    [RR_NEW_LINES]; the other files report nothing new. *)
Definition tick_grown (lf : logfile) : collaborators :=
  {| is_paused := false;
     lf_rebuild_index := λ i lf0 fs,
       if bool_decide (i = 1) then (RR_NEW_LINES, lf, fresh_filter_state lf)
       else (RR_NO_NEW_LINES, lf0, fs);
     reobserve_from := λ _ lf0 fs, (lf0, fs);
     big_array_reserve := λ _, false;
     enabled_mask := (0%Z, 0%Z) |}.

Definition keep_order :
  (content_line_t → content_line_t → bool) →
  list content_line_t → list content_line_t :=
  λ _ index, index.

(** Scenario 1 of section 8: file A with lines at t = 1, 3, 5 and file B
    with lines at t = 2, 4, 6. *)
Definition two_files : logfile_sub_source :=
  with_files [attach 0 (file_of "A" (map line_at [1; 3; 5]%Z));
              attach 1 (file_of "B" (map line_at [2; 4; 6]%Z))].

(** File A holds one line at t = 10 and file B is still empty. *)
Definition late_file : logfile_sub_source :=
  with_files [attach 0 (file_of "A" [line_at 10]);
              attach 1 (file_of "B" [])].

(** [late_file] after a first call of [rebuild_index]: A0 is indexed. *)
Definition late_file_indexed : logfile_sub_source :=
  {| lss_force_rebuild := false;
     lss_files :=
       [{| ld_file_index := 0;
           ld_file := Some (file_of "A" [line_at 10]);
           ld_lines_indexed := 1;
           ld_filter_state := fresh_filter_state (file_of "A" [line_at 10]) |};
        attach 1 (file_of "B" [])];
     lss_index := [0%Z];
     lss_filtered_index := [0%Z];
     lss_longest_line := 80;
     lss_basename_width := 1;
     lss_filename_width := 1;
     lss_min_log_level := LEVEL_UNKNOWN;
     lss_marked_only := false;
     lss_min_log_time := None;
     lss_max_log_time := None |}.

(** GlobalIndex is in non-decreasing timestamp order: no later entry is
    strictly older than an earlier one. *)
Definition index_sorted (lss : logfile_sub_source) : Prop :=
  ∀ i j cl_i cl_j ll_i ll_j,
    i < j →
    lss_index lss !! i = Some cl_i →
    lss_index lss !! j = Some cl_j →
    find_line (lss_files lss) cl_i = Ok (Some ll_i) →
    find_line (lss_files lss) cl_j = Ok (Some ll_j) →
    logline_lt ll_j ll_i = false.

(** [two_files] after one call of [rebuild_index], and after two. *)
Definition two_files_once : logfile_sub_source :=
  Eval vm_compute in
    match rebuild_index keep_order (tick RR_NEW_LINES) two_files with
    | Ok (lss, _) => lss
    | _ => two_files
    end.

Definition two_files_twice : logfile_sub_source :=
  Eval vm_compute in
    match rebuild_index keep_order (tick RR_NO_NEW_LINES) two_files_once with
    | Ok (lss, _) => lss
    | _ => two_files_once
    end.

(** [late_file_indexed] after file B has grown a line at t = 5. *)
Definition late_file_appended : logfile_sub_source :=
  Eval vm_compute in
    match rebuild_index keep_order (tick_grown (file_of "B" [line_at 5]))
            late_file_indexed with
    | Ok (lss, _) => lss
    | _ => late_file_indexed
    end.

(** A message of three lines: a head at level ERROR and two continuation
    lines. *)
Definition error_head : logline :=
  {| ll_time := 7; ll_millis := 0; ll_level := LEVEL_ERROR;
     ll_continued := false; ll_time_skewed := false; ll_marked := false;
     ll_sub_offset := 0 |}.

Definition continuation (sub_offset : Z) : logline :=
  {| ll_time := 7; ll_millis := 0; ll_level := LEVEL_ERROR;
     ll_continued := true; ll_time_skewed := false; ll_marked := false;
     ll_sub_offset := sub_offset |}.

Definition error_message_file : logfile :=
  file_of "C" [error_head; continuation 1; continuation 2].

(** A filter in slot 0 that matches the lines whose body is "ERR". *)
Definition err_filter : text_filter :=
  {| lf_index := 0; matches := λ _ _ body, bool_decide (body = "ERR") |}.

(** A source of four rows: a warning and its continuation, an error and an
    informational line. *)
Definition warning_line : logline :=
  {| ll_time := 1; ll_millis := 0; ll_level := LEVEL_WARNING;
     ll_continued := false; ll_time_skewed := false; ll_marked := false;
     ll_sub_offset := 0 |}.

Definition warning_continuation : logline :=
  {| ll_time := 1; ll_millis := 0; ll_level := LEVEL_WARNING;
     ll_continued := true; ll_time_skewed := false; ll_marked := false;
     ll_sub_offset := 1 |}.

Definition levels_file : logfile :=
  file_of "D" [warning_line; warning_continuation; error_head; line_at 9].

Definition levels_source : logfile_sub_source :=
  {| lss_force_rebuild := false;
     lss_files :=
       [{| ld_file_index := 0;
           ld_file := Some levels_file;
           ld_lines_indexed := 4;
           ld_filter_state := fresh_filter_state levels_file |}];
     lss_index := [0; 1; 2; 3]%Z;
     lss_filtered_index := [0; 1; 2; 3]%Z;
     lss_longest_line := 80;
     lss_basename_width := 1;
     lss_filename_width := 1;
     lss_min_log_level := LEVEL_UNKNOWN;
     lss_marked_only := false;
     lss_min_log_time := None;
     lss_max_log_time := None |}.

(** Stand-ins for the helpers that the headers outside the excerpt
    provide, to run [text_attrs_for_line] on an example. *)
Definition demo_level_attrs (l : log_level_t) : Z := Z.of_nat (level_rank l).

Definition demo_role_attrs (role : view_role) : Z :=
  match role with
  | VCR_ADJUSTED_TIME => 1001
  | VCR_ALT_ROW => 1002
  | VCR_SKEWED_TIME => 1003
  | VCR_OFFSET_TIME => 1004
  | VCR_DIFF_DELETE => 1005
  | VCR_DIFF_ADD => 1006
  end.

Definition demo_ident_attrs (s : string) : Z :=
  Z.of_nat (String.length s) + 2000.

Definition demo_shift_range (lr : line_range) (start amount : Z)
  : line_range :=
  let lr_start' :=
    if (start <=? lr_start lr)%Z then Z.max 0 (lr_start lr + amount)
    else lr_start lr in
  let lr_end' :=
    if negb (lr_end lr =? -1)%Z && (start <=? lr_end lr)%Z
    then Z.max lr_start' (lr_end lr + amount)
    else lr_end lr in
  {| lr_start := lr_start'; lr_end := lr_end' |}.

Definition demo_shift_attrs (sa : list string_attr) (start amount : Z)
  : list string_attr :=
  map (λ a, mk_string_attr (demo_shift_range (sa_range a) start amount)
              (sa_type a) (sa_value a)) sa.

Definition demo_find_range (sa : list string_attr) (ty : string_attr_type_t)
  : line_range :=
  match filter (λ a, sa_type a = ty) sa with
  | a :: _ => sa_range a
  | [] => {| lr_start := -1; lr_end := -1 |}
  end.

Definition demo_is_valid (lr : line_range) : bool :=
  negb (lr_start lr =? -1)%Z.

(** [levels_file] with its clock adjusted, and the sub-source that shows
    it. *)
Definition adjusted_file : logfile :=
  {| lf_filename := "D"; lf_unique_path := "D";
     lf_format_name := "syslog_log";
     lf_loglines := [warning_line; warning_continuation; error_head; line_at 9];
     lf_longest_line := 80; lf_time_adjusted := true |}.

Definition adjusted_source : logfile_sub_source :=
  {| lss_force_rebuild := false;
     lss_files :=
       [{| ld_file_index := 0;
           ld_file := Some adjusted_file;
           ld_lines_indexed := 4;
           ld_filter_state := fresh_filter_state adjusted_file |}];
     lss_index := [0; 1; 2; 3]%Z;
     lss_filtered_index := [0; 1; 2; 3]%Z;
     lss_longest_line := 80;
     lss_basename_width := 1;
     lss_filename_width := 1;
     lss_min_log_level := LEVEL_UNKNOWN;
     lss_marked_only := false;
     lss_min_log_time := None;
     lss_max_log_time := None |}.

(** The token state that [text_value_for_line] leaves for a row over
    [line] of the file [lf]: the format annotates the timestamp over the
    first 19 columns, and the attributes are cleared when the line has a
    sub-offset (lines 214-216 of the source). *)
Definition demo_token (lf : logfile) (line : logline) : token_state :=
  {| lss_flags :=
       {| F_FILENAME := false; F_BASENAME := false; F_TIME_OFFSET := false |};
     lss_token_flags := {| RF_FULL := false |};
     lss_token_file := lf;
     lss_token_line := line;
     lss_token_attrs :=
       if (get_sub_offset line =? 0)%Z
       then [mk_string_attr {| lr_start := 0; lr_end := 19 |}
               L_TIMESTAMP SAV_none]
       else [];
     lss_token_values := [];
     lss_token_value := "1970-01-01 00:00:01 something happened";
     lss_token_shift_start := 0;
     lss_token_shift_size := 0 |}.

(** [text_attrs_for_line] with the stand-ins. *)
Definition demo_attrs_for_line (lss : logfile_sub_source)
    (tok : token_state) (row : vis_line_t) : result (list string_attr) :=
  text_attrs_for_line demo_level_attrs demo_role_attrs demo_ident_attrs
    1 2 3 4 5 6 demo_shift_attrs demo_find_range demo_is_valid
    (λ lv _, lv_origin lv) unit tt (λ la _, (la, false)) (λ _, A_STEADY)
    lss tok ∅ ∅ row.

(** The attributes of row 0 of [levels_source], a head line at t = 1,
    before the timestamp is styled, and the attributes of row 1, its
    continuation. *)
Definition head_attrs_before : list string_attr :=
  Eval vm_compute in
    match
      attrs_before_time_styles demo_level_attrs demo_role_attrs
        demo_ident_attrs 1 2 3 4 5 6 demo_shift_attrs demo_is_valid
        (λ lv _, lv_origin lv) unit tt (λ la _, (la, false)) (λ _, A_STEADY)
        levels_source (demo_token levels_file warning_line) ∅ ∅ 0
    with
    | Ok value_out => value_out
    | _ => []
    end.

Definition continuation_attrs : list string_attr :=
  Eval vm_compute in
    match
      demo_attrs_for_line levels_source
        (demo_token levels_file warning_continuation) 1
    with
    | Ok value_out => value_out
    | _ => []
    end.

(** The attributes of row 0 of [adjusted_source], the same head line in
    the file whose clock is adjusted. *)
Definition adjusted_head_attrs : list string_attr :=
  Eval vm_compute in
    match
      demo_attrs_for_line adjusted_source
        (demo_token adjusted_file warning_line) 0
    with
    | Ok value_out => value_out
    | _ => []
    end.

(** * Lookups, undo and history: more of the embedding *)

(** ** Rolling a filter back (textview_curses.cc) *)

(** [SIZE_MAX]: what a [size_t] that holds 0 becomes when it is
    decremented. *)
Definition size_t_max : nat := Z.to_nat (2 ^ 64 - 1).

(** [n -= 1] on a [size_t]. *)
Definition size_t_dec (n : nat) : nat :=
  match n with
  | O => size_t_max
  | S n' => n'
  end.

(** One round of the loop of [text_filter::revert_to_last]. *)
Definition revert_to_last_round (p : nat) (lfs : logfile_filter_state)
  : result logfile_filter_state :=
  matched ← at_index (tfs_message_matched lfs) p;
  hits' ← (if matched : bool then
             h ← at_index (tfs_filter_hits lfs) p;
             set_index (tfs_filter_hits lfs) p (size_t_dec h)
           else Ok (tfs_filter_hits lfs));
  cnt ← at_index (tfs_filter_count lfs) p;
  count' ← set_index (tfs_filter_count lfs) p (size_t_dec cnt);
  let line_number := size_t_dec cnt in
  old ← at_index (tfs_mask lfs) line_number;
  mask' ← set_index (tfs_mask lfs) line_number
            (Z.land old (uint32 (Z.lnot (uint32 (Z.shiftl 1 (Z.of_nat p))))));
  Ok {| tfs_logfile := tfs_logfile lfs;
        tfs_filter_count := count';
        tfs_filter_hits := hits';
        tfs_message_matched := tfs_message_matched lfs;
        tfs_lines_for_message := tfs_lines_for_message lfs;
        tfs_last_message_matched := tfs_last_message_matched lfs;
        tfs_last_lines_for_message := tfs_last_lines_for_message lfs;
        tfs_mask := mask' |}.

Fixpoint revert_to_last_loop (p : nat) (rounds : nat)
    (lfs : logfile_filter_state) : result logfile_filter_state :=
  match rounds with
  | O => Ok lfs
  | S rounds' =>
      lfs' ← revert_to_last_round p lfs;
      revert_to_last_loop p rounds' lfs'
  end.

(** [text_filter::revert_to_last] *)
Definition revert_to_last (f : text_filter) (lfs : logfile_filter_state)
    (rollback_size : nat) : result logfile_filter_state :=
  let p := lf_index f in
  lm0 ← at_index (tfs_lines_for_message lfs) p;
  _ ← require (bool_decide (lm0 = 0));
  last_mm ← at_index (tfs_last_message_matched lfs) p;
  mm1 ← set_index (tfs_message_matched lfs) p last_mm;
  last_lm ← at_index (tfs_last_lines_for_message lfs) p;
  lm1 ← set_index (tfs_lines_for_message lfs) p last_lm;
  lfs2 ← revert_to_last_loop p last_lm
           {| tfs_logfile := tfs_logfile lfs;
              tfs_filter_count := tfs_filter_count lfs;
              tfs_filter_hits := tfs_filter_hits lfs;
              tfs_message_matched := mm1;
              tfs_lines_for_message := lm1;
              tfs_last_message_matched := tfs_last_message_matched lfs;
              tfs_last_lines_for_message := tfs_last_lines_for_message lfs;
              tfs_mask := tfs_mask lfs |};
  lm2 ← at_index (tfs_lines_for_message lfs2) p;
  lm3 ← (if bool_decide (0 < lm2) then
           _ ← require (bool_decide (rollback_size ≤ lm2));
           set_index (tfs_lines_for_message lfs2) p (lm2 - rollback_size)
         else Ok (tfs_lines_for_message lfs2));
  lm4 ← at_index lm3 p;
  mm3 ← (if bool_decide (lm4 = 0) then
           set_index (tfs_message_matched lfs2) p false
         else Ok (tfs_message_matched lfs2));
  Ok {| tfs_logfile := tfs_logfile lfs2;
        tfs_filter_count := tfs_filter_count lfs2;
        tfs_filter_hits := tfs_filter_hits lfs2;
        tfs_message_matched := mm3;
        tfs_lines_for_message := lm3;
        tfs_last_message_matched := tfs_last_message_matched lfs2;
        tfs_last_lines_for_message := tfs_last_lines_for_message lfs2;
        tfs_mask := tfs_mask lfs2 |}.

(** [empty_filter]: its [matches] returns false on every line. *)
Definition empty_filter (index : nat) : text_filter :=
  {| lf_index := index; matches := λ _ _ _, false |}.

(** What a filter in slot [p] leaves alone in going from [a] to [b]: the
    file, the length of the mask, the counters and accumulators of every
    other filter, and the bit of every other filter in every mask. *)
Definition other_filters_kept (p : nat) (a b : logfile_filter_state) : Prop :=
  tfs_logfile b = tfs_logfile a
  ∧ length (tfs_mask b) = length (tfs_mask a)
  ∧ (∀ q, q ≠ p →
       tfs_filter_count b !! q = tfs_filter_count a !! q
       ∧ tfs_filter_hits b !! q = tfs_filter_hits a !! q
       ∧ tfs_message_matched b !! q = tfs_message_matched a !! q
       ∧ tfs_lines_for_message b !! q = tfs_lines_for_message a !! q
       ∧ tfs_last_message_matched b !! q = tfs_last_message_matched a !! q
       ∧ tfs_last_lines_for_message b !! q
         = tfs_last_lines_for_message a !! q)
  ∧ (∀ i m, tfs_mask a !! i = Some m →
       ∃ m', tfs_mask b !! i = Some m'
             ∧ ∀ q, q ≠ p → q < MAX_FILTERS →
                    filter_bit q m' = filter_bit q m).

(** Two masks agree on the bit of every filter, line by line. *)
Definition mask_bits_same (a b : list Z) : Prop :=
  length b = length a
  ∧ ∀ i m, a !! i = Some m →
      ∃ m', b !! i = Some m'
            ∧ ∀ q, q < MAX_FILTERS → filter_bit q m' = filter_bit q m.

(** Three lines are accumulated for the filter in slot 0 of
    [error_message_file], and the filter has matched one of them. *)
Definition open_message_state : logfile_filter_state :=
  {| tfs_logfile := error_message_file;
     tfs_filter_count := replicate MAX_FILTERS 0;
     tfs_filter_hits := replicate MAX_FILTERS 0;
     tfs_message_matched := <[0 := true]> (replicate MAX_FILTERS false);
     tfs_lines_for_message := <[0 := 3]> (replicate MAX_FILTERS 0);
     tfs_last_message_matched := replicate MAX_FILTERS false;
     tfs_last_lines_for_message := replicate MAX_FILTERS 0;
     tfs_mask := replicate 3 0%Z |}.

(** [open_message_state] once [end_of_message] has closed the message. *)
Definition closed_message_state : logfile_filter_state :=
  Eval vm_compute in
    match end_of_message err_filter open_message_state with
    | Ok lfs => lfs
    | _ => open_message_state
    end.

(** ** The width of a ContentLine *)

(** Modelled from the spec: [content_line_t] is declared in a header outside
    the excerpt.  Section 3 makes a ContentLine a 32-bit identifier, so
    [+=] on it is taken modulo 2^32. *)
Definition content_line_add (a b : content_line_t) : content_line_t :=
  uint32 (a + b).

(** The slots fit the 32-bit ContentLine: with [MAX_LINES_PER_FILE] lines
    to a slot there is room for 256 of them.  Within this bound [con_line]
    stays below 2^32 and is the 32-bit identifier itself. *)
Definition slots_fit (files : list logfile_data) : Prop :=
  (Z.of_nat (length files) * MAX_LINES_PER_FILE ≤ 2 ^ 32)%Z.

(** Every entry is a 32-bit value. *)
Definition content_lines_fit (index : list content_line_t) : Prop :=
  Forall (λ cl, (0 ≤ cl < 2 ^ 32)%Z) index.

(** ** Looking a file up by name *)

(** [s.c_str()] as [strcmp] reads it: the characters before the first NUL. *)
Fixpoint c_str (s : string) : string :=
  match s with
  | EmptyString => EmptyString
  | String c s' =>
      if bool_decide (c = Ascii.zero) then EmptyString
      else String c (c_str s')
  end.

(** [strcmp(a, b) == 0] *)
Definition strcmp_eq (a b : string) : bool :=
  bool_decide (c_str a = c_str b).

(** The loop of [logfile_sub_source::find(const char *fn, content_line_t
    &line_base)]: it runs while [retval] is null, and [line_base] is a
    32-bit ContentLine. *)
Fixpoint find_fn_loop (files : list logfile_data) (fn : string)
    (line_base : content_line_t) : option logfile * content_line_t :=
  match files with
  | [] => (None, line_base)
  | ld :: rest =>
      match get_file ld with
      | None => find_fn_loop rest fn line_base
      | Some lf =>
          if strcmp_eq (lf_filename lf) fn then (Some lf, line_base)
          else find_fn_loop rest fn
                 (content_line_add line_base MAX_LINES_PER_FILE)
      end
  end.

(** [logfile_sub_source::find(const char *fn, content_line_t &line_base)]:
    the file found, null when there is none, and [line_base]. *)
Definition find_fn (lss : logfile_sub_source) (fn : string)
  : option logfile * content_line_t :=
  find_fn_loop (lss_files lss) fn 0%Z.

(** The slots of [files] that still have their file. *)
Definition attached (files : list logfile_data) : list logfile_data :=
  filter (λ ld, is_Some (get_file ld)) files.

(** ** Walking the location history *)

(** [*(llh_history.rbegin() + k)]: the entry [k] steps older than the
    newest one.  Outside the ring the run ends. *)
Definition ring_rat (ring : list content_line_t) (k : nat)
  : result content_line_t :=
  _ ← require (bool_decide (k < length ring));
  at_index ring (length ring - 1 - k).

Definition set_history_position (h : log_location_history) (pos : nat)
  : log_location_history :=
  {| llh_history := llh_history h;
     llh_max_size := llh_max_size h;
     lh_history_position := pos |}.

Section LocationHistory.

(** [find_from_content] of the log source, declared in a header outside the
    excerpt: the row that shows a ContentLine, if any does. *)
Variable find_from_content : content_line_t → option vis_line_t.

(** The [while] loop of [log_location_history::loc_history_back]. *)
Fixpoint loc_history_back_loop (fuel : nat) (h : log_location_history)
    (current_top : vis_line_t)
  : result (log_location_history * option vis_line_t) :=
  match fuel with
  | O => OutOfFuel
  | S fuel' =>
      if bool_decide (lh_history_position h < length (llh_history h)) then
        newest ← ring_rat (llh_history h) 0;
        let vis_for_pos := find_from_content newest in
        if bool_decide (lh_history_position h = 0)
           && bool_decide (vis_for_pos ≠ Some current_top)
        then Ok (h, vis_for_pos)
        else if bool_decide (length (llh_history h)
                             ≤ lh_history_position h + 1)
        then Ok (h, None)
        else
          let h' := set_history_position h (lh_history_position h + 1) in
          cl ← ring_rat (llh_history h') (lh_history_position h');
          match find_from_content cl with
          | Some vis_for_pos => Ok (h', Some vis_for_pos)
          | None => loc_history_back_loop fuel' h' current_top
          end
      else Ok (h, None)
  end.

(** [log_location_history::loc_history_back] *)
Definition loc_history_back (h : log_location_history)
    (current_top : vis_line_t)
  : result (log_location_history * option vis_line_t) :=
  loc_history_back_loop (S (length (llh_history h))) h current_top.

(** The [while] loop of [log_location_history::loc_history_forward], on the
    value of [lh_history_position]. *)
Fixpoint loc_history_forward_loop (ring : list content_line_t) (pos : nat)
  : result (nat * option vis_line_t) :=
  match pos with
  | O => Ok (0, None)
  | S pos' =>
      cl ← ring_rat ring pos';
      match find_from_content cl with
      | Some vis_for_pos => Ok (pos', Some vis_for_pos)
      | None => loc_history_forward_loop ring pos'
      end
  end.

(** [log_location_history::loc_history_forward]; it does not look at
    [current_top]. *)
Definition loc_history_forward (h : log_location_history)
    (current_top : vis_line_t)
  : result (log_location_history * option vis_line_t) :=
  '(pos, vis_for_pos) ←
    loc_history_forward_loop (llh_history h) (lh_history_position h);
  Ok (set_history_position h pos, vis_for_pos).

End LocationHistory.

(** The entry [k] steps older than the newest one. *)
Definition entry_back (h : log_location_history) (k : nat)
  : option content_line_t :=
  if bool_decide (k < length (llh_history h))
  then llh_history h !! (length (llh_history h) - 1 - k)
  else None.

(** No entry strictly between [lo] and [hi] steps back is shown by a row. *)
Definition none_shown (find_from_content : content_line_t → option vis_line_t)
    (h : log_location_history) (lo hi : nat) : Prop :=
  ∀ k cl, lo < k < hi → entry_back h k = Some cl →
          find_from_content cl = None.

(** A history of three visited lines, the cursor two steps back, and a view
    that shows the ContentLines 10 and 30 in rows 1 and 3. *)
Definition three_visits : log_location_history :=
  {| llh_history := [10; 20; 30]%Z; llh_max_size := 100;
     lh_history_position := 2 |}.

Definition rows_of_10_and_30 (cl : content_line_t) : option vis_line_t :=
  if (cl =? 10)%Z then Some 1%Z
  else if (cl =? 30)%Z then Some 3%Z
  else None.

(** ** Finding a row by time *)

(** Modelled from the spec: [filtered_logline_cmp] is declared in a header
    outside the excerpt.  It compares an entry of FilteredIndex, a position
    of GlobalIndex (section 3), with a time: the entry is below the time
    when the timestamp of its line is.  The [struct timeval] is taken as
    the model takes every timestamp, seconds and milliseconds. *)
Definition filtered_logline_cmp (lss : logfile_sub_source) (lhs : Z)
    (rhs : timestamp) : result bool :=
  cl ← at_index (lss_index lss) (Z.to_nat lhs);
  found ← find_line (lss_files lss) cl;
  ll ← deref found;
  Ok (timestamp_lt (get_timeval ll) rhs).

(** [std::lower_bound(first, first + len, value, comp)] by bisection, as
    the standard libraries implement it; [comp x] is [comp(x, value)]. *)
Fixpoint lower_bound_by {A : Type} (comp : A → result bool) (v : list A)
    (first len fuel : nat) : result nat :=
  match fuel with
  | O => OutOfFuel
  | S fuel' =>
      if bool_decide (0 < len) then
        let half := len / 2 in
        let middle := first + half in
        x ← at_index v middle;
        below ← comp x;
        if below : bool
        then lower_bound_by comp v (middle + 1) (len - half - 1) fuel'
        else lower_bound_by comp v first half fuel'
      else Ok first
  end.

(** The conversion of an iterator difference to the [int] of a
    [vis_line_t]. *)
Definition int_of_ptrdiff (d : Z) : Z :=
  ((d + 2 ^ 31) mod 2 ^ 32 - 2 ^ 31)%Z.

(** [logfile_sub_source::find_from_time] *)
Definition find_from_time (lss : logfile_sub_source) (start : timestamp)
  : result vis_line_t :=
  let filtered := lss_filtered_index lss in
  lb ← lower_bound_by (λ row, filtered_logline_cmp lss row start) filtered
         0 (length filtered) (S (length filtered));
  if bool_decide (lb ≠ length filtered)
  then Ok (int_of_ptrdiff (Z.of_nat lb))
  else Ok (-1)%Z.

(** The timestamp of the line under each row of the view, top row first;
    [None] when some row does not resolve to a line. *)
Definition row_times (lss : logfile_sub_source) : option (list timestamp) :=
  mapM (λ row,
          match lss_index lss !! Z.to_nat row with
          | Some cl =>
              match find_line (lss_files lss) cl with
              | Ok (Some ll) => Some (get_timeval ll)
              | _ => None
              end
          | None => None
          end)
       (lss_filtered_index lss).

(** No later timestamp is strictly below an earlier one. *)
Definition times_in_order (times : list timestamp) : Prop :=
  ∀ i j ti tj, i ≤ j → times !! i = Some ti → times !! j = Some tj →
               timestamp_lt tj ti = false.

(** ** What a call of rebuild_index sees and leaves *)

(** The slot [i] after "Find new lines in all files" has looked at it: an
    attached file is re-observed unless the view is paused. *)
Definition observe (env : collaborators) (i : nat) (ld : logfile_data)
  : logfile_data :=
  match get_file ld with
  | Some lf =>
      if is_paused env then ld
      else
        let '(_, lf', fs') := lf_rebuild_index env i lf (ld_filter_state ld) in
        set_observed ld lf' fs'
  | None => ld
  end.

Definition observed_files (env : collaborators) (files : list logfile_data)
  : list logfile_data :=
  imap (observe env) files.

(** The slot that a ContentLine names. *)
Definition slot_of (cl : content_line_t) : nat :=
  Z.to_nat (cl / MAX_LINES_PER_FILE).

(** Each file is indexed once and in file order: the entries of GlobalIndex
    that name slot [i] are the lines [0], [1], ... of the file, as many as
    [ld_lines_indexed] counts. *)
Definition in_file_order (files : list logfile_data)
    (index : list content_line_t) : Prop :=
  ∀ i ld, files !! i = Some ld →
    filter (λ cl, slot_of cl = i) index
    = map (con_line i) (seq 0 (ld_lines_indexed ld)).

(** The files that still have a line to index, and the number of lines
    still to index. *)
Definition pending_files (files : list logfile_data) : nat :=
  sum_list
    (map (λ ld, if bool_decide (is_Some (head_of ld)) then 1 else 0) files).

Definition pending_lines (files : list logfile_data) : nat :=
  sum_list
    (map (λ ld, match get_file ld with
                | Some lf => logfile_size lf - ld_lines_indexed ld
                | None => 0
                end)
         files).

(** Nothing new arrives: the view runs, and a file that is re-observed
    reports [RR_NO_NEW_LINES] and stays as it is. *)
Definition quiet (env : collaborators) : Prop :=
  is_paused env = false
  ∧ ∀ i lf fs, lf_rebuild_index env i lf fs = (RR_NO_NEW_LINES, lf, fs).

(** [n] calls of [rebuild_index] in a row. *)
Fixpoint rebuild_index_times
    (std_sort : (content_line_t → content_line_t → bool) →
                list content_line_t → list content_line_t)
    (env : collaborators) (n : nat) (lss : logfile_sub_source)
  : result logfile_sub_source :=
  match n with
  | O => Ok lss
  | S n' =>
      '(lss', _) ← rebuild_index std_sort env lss;
      rebuild_index_times std_sort env n' lss'
  end.

(** Every attached file is indexed to its last line. *)
Definition all_indexed (files : list logfile_data) : Prop :=
  ∀ ld lf, ld ∈ files → get_file ld = Some lf →
           ld_lines_indexed ld = logfile_size lf.

(** GlobalIndex [index], resolved in [files], is in non-decreasing
    timestamp order. *)
Definition index_sorted_in (files : list logfile_data)
    (index : list content_line_t) : Prop :=
  ∀ i j cl_i cl_j ll_i ll_j,
    i < j →
    index !! i = Some cl_i →
    index !! j = Some cl_j →
    find_line files cl_i = Ok (Some ll_i) →
    find_line files cl_j = Ok (Some ll_j) →
    logline_lt ll_j ll_i = false.

(** The lines of every attached file are in non-decreasing timestamp
    order. *)
Definition files_in_order (files : list logfile_data) : Prop :=
  ∀ ld lf i j li lj,
    ld ∈ files → get_file ld = Some lf → i ≤ j →
    lf_loglines lf !! i = Some li → lf_loglines lf !! j = Some lj →
    logline_lt lj li = false.

(** No file's first line still to index is older than a line that
    GlobalIndex already holds. *)
Definition heads_not_older (files : list logfile_data)
    (index : list content_line_t) : Prop :=
  ∀ h cl ll,
    h ∈ file_heads files → cl ∈ index →
    find_line files cl = Ok (Some ll) →
    logline_lt h ll = false.

(** ** Which lines the filter loop keeps *)

(** The test that the filter loop of [rebuild_index] and
    [text_filters_changed] makes on one entry of GlobalIndex. *)
Definition line_kept (lss : logfile_sub_source) (files : list logfile_data)
    (filter_in_mask filter_out_mask : Z) (cl : content_line_t)
  : result bool :=
  '(ld, line_number) ← find_data files cl;
  lf ← deref (get_file ld);
  ex ← excluded (ld_filter_state ld) filter_in_mask filter_out_mask
         line_number;
  if ex : bool then Ok false
  else ll ← at_index (lf_loglines lf) line_number;
       Ok (check_extra_filters lss ll).

(** The positions of [entries], counted from [k], that pass the test. *)
Fixpoint kept_positions (lss : logfile_sub_source)
    (files : list logfile_data) (filter_in_mask filter_out_mask : Z)
    (entries : list content_line_t) (k : nat) : list nat :=
  match entries with
  | [] => []
  | cl :: rest =>
      let tail :=
        kept_positions lss files filter_in_mask filter_out_mask rest (S k) in
      match line_kept lss files filter_in_mask filter_out_mask cl with
      | Ok true => k :: tail
      | _ => tail
      end
  end.

(** The files after [text_filters_changed] has replayed them to their
    observers. *)
Definition reobserved_files (env : collaborators)
    (files : list logfile_data) : list logfile_data :=
  imap (λ i ld,
          match get_file ld with
          | None => ld
          | Some lf =>
              let '(lf', fs') := reobserve_from env i lf (ld_filter_state ld) in
              set_observed ld lf' fs'
          end)
       files.

(** No extra filter is set: no minimum level, no marked-only toggle, no
    time bound. *)
Definition no_extra_filters (lss : logfile_sub_source) : Prop :=
  lss_marked_only lss = false
  ∧ lss_min_log_level lss = LEVEL_UNKNOWN
  ∧ lss_min_log_time lss = None
  ∧ lss_max_log_time lss = None.

(** FilteredIndex is what a pass over all of GlobalIndex would compute:
    the positions whose line passes the filter test, in increasing
    order. *)
Definition filtered_is_full_pass (env : collaborators)
    (lss : logfile_sub_source) : Prop :=
  lss_filtered_index lss
  = map (λ j, uint32 (Z.of_nat j))
      (kept_positions lss (lss_files lss) (enabled_mask env).1
         (enabled_mask env).2 (lss_index lss) 0).

(** ** The rows where the file changes *)

(** Row [row] resolves to a line, and it is the top row or the row above it
    resolves to a line of another slot. *)
Definition file_boundary (lss : logfile_sub_source) (row : nat) : Prop :=
  ∃ cl,
    lss_at lss (Z.of_nat row) = Ok cl
    ∧ (row = 0
       ∨ ∃ prev, lss_at lss (Z.of_nat (row - 1)) = Ok prev
                 ∧ slot_of prev ≠ slot_of cl).

(** What [last_file] holds when the row loop of [text_update_marks] reaches
    row [k]. *)
Definition last_file_at (lss : logfile_sub_source) (k : nat)
    (last : option nat) : Prop :=
  (k = 0 ∧ last = None)
  ∨ (0 < k ∧ ∃ prev, lss_at lss (Z.of_nat (k - 1)) = Ok prev
                     ∧ last = Some (slot_of prev)).

(** ** Rendering a row of an SQL result *)

(** The column loop of [pretty_sql_callback]: [columns] holds
    [sqlite3_column_text(stmt, lpc)] for each column, null as [None];
    [append(res)] reads [res] as a C string. *)
Fixpoint pretty_sql_columns (columns : list (option string))
    (ec_accumulator : string) : string :=
  match columns with
  | [] => ec_accumulator
  | res :: rest =>
      let acc :=
        if bool_decide (ec_accumulator ≠ EmptyString)
        then ec_accumulator +:+ ", " else ec_accumulator in
      match res with
      | None => pretty_sql_columns rest acc
      | Some text => pretty_sql_columns rest (acc +:+ c_str text)
      end
  end.

(** [pretty_sql_callback]: [busy] is [sqlite3_stmt_busy(stmt)]; the result
    is the return value and [ec.ec_accumulator]. *)
Definition pretty_sql_callback (busy : bool) (columns : list (option string))
    (ec_accumulator : string) : Z * string :=
  if negb busy then (0%Z, ec_accumulator)
  else (0%Z, pretty_sql_columns columns ec_accumulator).

(** What a column adds to an accumulator that is not empty. *)
Definition column_text (res : option string) : string :=
  ", " +:+ from_option c_str EmptyString res.

(** *** A filter that excludes every line *)

(** Filter 0 is an enabled OUT filter that hits every line: replaying a
    file to its observers sets bit 0 in the mask of each line. *)
Definition exclude_all : collaborators :=
  {| is_paused := false;
     lf_rebuild_index := λ _ lf fs, (RR_NO_NEW_LINES, lf, fs);
     reobserve_from := λ _ lf fs,
       (lf,
        {| tfs_logfile := tfs_logfile fs;
           tfs_filter_count := tfs_filter_count fs;
           tfs_filter_hits := tfs_filter_hits fs;
           tfs_message_matched := tfs_message_matched fs;
           tfs_lines_for_message := tfs_lines_for_message fs;
           tfs_last_message_matched := tfs_last_message_matched fs;
           tfs_last_lines_for_message := tfs_last_lines_for_message fs;
           tfs_mask := replicate (logfile_size lf) 1%Z |});
     big_array_reserve := λ _, false;
     enabled_mask := (0%Z, 1%Z) |}.

(** [two_files_twice] after [text_filters_changed] under [exclude_all]. *)
Definition two_files_excluded : logfile_sub_source :=
  Eval vm_compute in
    match text_filters_changed exclude_all two_files_twice with
    | Ok lss => lss
    | _ => two_files_twice
    end.

(** * Properties *)

(** ** Running monadic code *)

Lemma at_index_Some {A : Type} (v : list A) (i : nat) (x : A) :
  v !! i = Some x → at_index v i = Ok x.
Proof. unfold at_index. by intros ->. Qed.

Lemma at_index_Ok {A : Type} (v : list A) (i : nat) (x : A) :
  at_index v i = Ok x → v !! i = Some x.
Proof. unfold at_index. destruct (v !! i); congruence. Qed.

Lemma set_index_lt {A : Type} (v : list A) (i : nat) (x : A) :
  i < length v → set_index v i x = Ok (<[i:=x]> v).
Proof. unfold set_index. intros H. by rewrite decide_True. Qed.

Lemma require_true (c : bool) : c = true → require c = Ok tt.
Proof. by intros ->. Qed.

Lemma require_Ok (c : bool) (u : unit) : require c = Ok u → c = true.
Proof. destruct c; [done | discriminate]. Qed.

Lemma deref_Ok {A : Type} (p : option A) (x : A) :
  deref p = Ok x → p = Some x.
Proof. destruct p; simpl; congruence. Qed.

Lemma bind_Ok {A B : Type} (m : result A) (f : A → result B) (b : B) :
  m ≫= f = Ok b → ∃ a, m = Ok a ∧ f a = Ok b.
Proof. destruct m; simpl; [eauto | discriminate..]. Qed.

Lemma bind_ret_Ok {A B : Type} (a : A) (f : A → result B) : Ok a ≫= f = f a.
Proof. done. Qed.

(** ** Filter state *)

Lemma filter_bit_or_mask (p : nat) (m : Z) (b : bool) :
  p < MAX_FILTERS →
  filter_bit p
    (uint32 (Z.lor m (uint32 (Z.shiftl (if b then 1 else 0) (Z.of_nat p)))))
  = filter_bit p m || b.
Proof.
  unfold MAX_FILTERS, filter_bit, uint32. intros Hp.
  rewrite Z.mod_pow2_bits_low by lia.
  rewrite Z.lor_spec.
  rewrite Z.mod_pow2_bits_low by lia.
  rewrite Z.shiftl_spec by lia.
  rewrite Z.sub_diag. by destruct b.
Qed.

Section EndOfMessage.

Context (p : nat) (mask : Z).

Lemma end_of_message_round_spec lfs cnt matched old :
  tfs_filter_count lfs !! p = Some cnt →
  tfs_message_matched lfs !! p = Some matched →
  p < length (tfs_filter_hits lfs) →
  cnt ≤ logfile_size (tfs_logfile lfs) →
  tfs_mask lfs !! cnt = Some old →
  ∃ hits',
    end_of_message_round p mask lfs
    = Ok {| tfs_logfile := tfs_logfile lfs;
            tfs_filter_count := <[p := cnt + 1]> (tfs_filter_count lfs);
            tfs_filter_hits := hits';
            tfs_message_matched := tfs_message_matched lfs;
            tfs_lines_for_message := tfs_lines_for_message lfs;
            tfs_last_message_matched := tfs_last_message_matched lfs;
            tfs_last_lines_for_message := tfs_last_lines_for_message lfs;
            tfs_mask := <[cnt := uint32 (Z.lor old mask)]> (tfs_mask lfs) |}
    ∧ length hits' = length (tfs_filter_hits lfs).
Proof.
  intros Hcnt Hmm Hhits Hsize Hold. unfold end_of_message_round.
  rewrite (at_index_Some _ _ _ Hcnt). simpl.
  rewrite require_true by (by apply bool_decide_eq_true). simpl.
  rewrite (at_index_Some _ _ _ Hold). simpl.
  rewrite set_index_lt by (by eapply lookup_lt_Some). simpl.
  rewrite set_index_lt by (by eapply lookup_lt_Some). simpl.
  rewrite (at_index_Some _ _ _ Hmm). simpl.
  destruct matched.
  - destruct (lookup_lt_is_Some_2 _ _ Hhits) as [h Hh].
    rewrite (at_index_Some _ _ _ Hh). simpl.
    rewrite set_index_lt by done. simpl.
    eexists. split; [done|]. by rewrite length_insert.
  - simpl. eauto.
Qed.

Lemma end_of_message_loop_spec rounds : ∀ lfs cnt matched,
  tfs_filter_count lfs !! p = Some cnt →
  tfs_message_matched lfs !! p = Some matched →
  p < length (tfs_filter_hits lfs) →
  cnt + rounds ≤ logfile_size (tfs_logfile lfs) →
  cnt + rounds ≤ length (tfs_mask lfs) →
  ∃ lfs',
    end_of_message_loop p mask rounds lfs = Ok lfs'
    ∧ tfs_logfile lfs' = tfs_logfile lfs
    ∧ tfs_filter_count lfs' = <[p := cnt + rounds]> (tfs_filter_count lfs)
    ∧ length (tfs_filter_hits lfs') = length (tfs_filter_hits lfs)
    ∧ tfs_message_matched lfs' = tfs_message_matched lfs
    ∧ tfs_lines_for_message lfs' = tfs_lines_for_message lfs
    ∧ tfs_last_message_matched lfs' = tfs_last_message_matched lfs
    ∧ tfs_last_lines_for_message lfs' = tfs_last_lines_for_message lfs
    ∧ length (tfs_mask lfs') = length (tfs_mask lfs)
    ∧ ∀ i, tfs_mask lfs' !! i
           = if decide (cnt ≤ i < cnt + rounds)
             then (λ m, uint32 (Z.lor m mask)) <$> tfs_mask lfs !! i
             else tfs_mask lfs !! i.
Proof.
  induction rounds as [|rounds IH]; intros lfs cnt matched Hcnt Hmm Hhits Hsize Hmask.
  - simpl. eexists. split; [done|].
    rewrite Nat.add_0_r, list_insert_id by done.
    repeat split; try done. intros i. case_decide; [lia | done].
  - destruct (lookup_lt_is_Some_2 (tfs_mask lfs) cnt ltac:(lia)) as [old Hold].
    destruct (end_of_message_round_spec lfs cnt matched old) as (hits' & Hround & Hlen);
      [done | done | done | lia | done |].
    simpl. rewrite Hround. simpl.
    match goal with
    | |- context [end_of_message_loop _ _ _ ?s] =>
        destruct (IH s (cnt + 1) matched)
          as (lfs' & Hloop & H1 & H2 & H3 & H4 & H5 & H6 & H7 & H8 & H9); simpl
    end.
    { apply list_lookup_insert_eq. by eapply lookup_lt_Some. }
    { done. }
    { lia. }
    { lia. }
    { rewrite length_insert. lia. }
    simpl in *. exists lfs'. split; [done|].
    rewrite H1, H2, H3, H4, H5, H6, H7, H8.
    rewrite list_insert_insert_eq, length_insert, Hlen.
    replace (cnt + 1 + rounds) with (cnt + S rounds) by lia.
    repeat split; try done.
    intros i. rewrite H9.
    destruct (decide (i = cnt)) as [->|Hne].
    + rewrite decide_False by lia. rewrite decide_True by lia.
      rewrite list_lookup_insert_eq by (by eapply lookup_lt_Some).
      by rewrite Hold.
    + rewrite list_lookup_insert_ne by done.
      repeat case_decide; try done; lia.
Qed.

End EndOfMessage.

Lemma end_of_message_spec f lfs (cnt pending : nat) (matched : bool) :
  filter_arrays_sized lfs →
  lf_index f < MAX_FILTERS →
  tfs_filter_count lfs !! lf_index f = Some cnt →
  tfs_lines_for_message lfs !! lf_index f = Some pending →
  tfs_message_matched lfs !! lf_index f = Some matched →
  cnt + pending ≤ logfile_size (tfs_logfile lfs) →
  cnt + pending ≤ length (tfs_mask lfs) →
  ∃ lfs',
    end_of_message f lfs = Ok lfs'
    ∧ filter_arrays_sized lfs'
    ∧ tfs_logfile lfs' = tfs_logfile lfs
    ∧ tfs_filter_count lfs' !! lf_index f = Some (cnt + pending)
    ∧ tfs_message_matched lfs' !! lf_index f = Some false
    ∧ tfs_lines_for_message lfs' !! lf_index f = Some 0
    ∧ tfs_last_message_matched lfs' !! lf_index f = Some matched
    ∧ tfs_last_lines_for_message lfs' !! lf_index f = Some pending
    ∧ length (tfs_mask lfs') = length (tfs_mask lfs)
    ∧ ∀ i, tfs_mask lfs' !! i
           = if decide (cnt ≤ i < cnt + pending)
             then (λ m, uint32 (Z.lor m
                     (uint32 (Z.shiftl (if matched then 1 else 0)
                                (Z.of_nat (lf_index f))))))
                  <$> tfs_mask lfs !! i
             else tfs_mask lfs !! i.
Proof.
  intros (S1 & S2 & S3 & S4 & S5 & S6) Hp Hcnt Hpending Hmm Hsize Hmask.
  unfold end_of_message.
  rewrite (at_index_Some _ _ _ Hmm). simpl.
  rewrite (at_index_Some _ _ _ Hpending). simpl.
  destruct (end_of_message_loop_spec (lf_index f)
              (uint32 (Z.shiftl (if matched then 1 else 0)
                         (Z.of_nat (lf_index f))))
              pending lfs cnt matched)
    as (lfs1 & Hloop & H1 & H2 & H3 & H4 & H5 & H6 & H7 & H8 & H9);
    [done | done | lia | done | done |].
  rewrite Hloop. simpl.
  rewrite H4, H5, H6, H7.
  rewrite (at_index_Some _ _ _ Hmm). simpl.
  rewrite set_index_lt by lia. simpl.
  rewrite (at_index_Some _ _ _ Hpending). simpl.
  rewrite set_index_lt by lia. simpl.
  rewrite set_index_lt by lia. simpl.
  rewrite set_index_lt by lia. simpl.
  eexists. split; [done|]. simpl.
  rewrite H2.
  split.
  { unfold filter_arrays_sized. simpl. rewrite !length_insert. lia. }
  repeat split; try done; try (apply list_lookup_insert_eq; lia).
Qed.

(** A continuation line only feeds the accumulator. *)
Lemma add_line_continued f lfs ll body (matched : bool) (pending : nat) :
  is_continued ll = true →
  tfs_message_matched lfs !! lf_index f = Some matched →
  tfs_lines_for_message lfs !! lf_index f = Some pending →
  add_line f lfs ll body
  = Ok {| tfs_logfile := tfs_logfile lfs;
          tfs_filter_count := tfs_filter_count lfs;
          tfs_filter_hits := tfs_filter_hits lfs;
          tfs_message_matched :=
            <[lf_index f := matched || matches f (tfs_logfile lfs) ll body]>
              (tfs_message_matched lfs);
          tfs_lines_for_message :=
            <[lf_index f := pending + 1]> (tfs_lines_for_message lfs);
          tfs_last_message_matched := tfs_last_message_matched lfs;
          tfs_last_lines_for_message := tfs_last_lines_for_message lfs;
          tfs_mask := tfs_mask lfs |}.
Proof.
  intros Hc Hmm Hlm. unfold add_line. rewrite Hc. simpl.
  rewrite (at_index_Some _ _ _ Hmm). simpl.
  rewrite set_index_lt by (by eapply lookup_lt_Some). simpl.
  rewrite (at_index_Some _ _ _ Hlm). simpl.
  rewrite set_index_lt by (by eapply lookup_lt_Some). done.
Qed.

Lemma add_lines_continued f conts : ∀ lfs (matched : bool) (pending : nat),
  Forall (λ lb, is_continued lb.1 = true) conts →
  tfs_message_matched lfs !! lf_index f = Some matched →
  tfs_lines_for_message lfs !! lf_index f = Some pending →
  ∃ lfs',
    add_lines f lfs conts = Ok lfs'
    ∧ tfs_logfile lfs' = tfs_logfile lfs
    ∧ tfs_filter_count lfs' = tfs_filter_count lfs
    ∧ tfs_filter_hits lfs' = tfs_filter_hits lfs
    ∧ length (tfs_message_matched lfs') = length (tfs_message_matched lfs)
    ∧ length (tfs_lines_for_message lfs') = length (tfs_lines_for_message lfs)
    ∧ tfs_last_message_matched lfs' = tfs_last_message_matched lfs
    ∧ tfs_last_lines_for_message lfs' = tfs_last_lines_for_message lfs
    ∧ tfs_mask lfs' = tfs_mask lfs
    ∧ tfs_message_matched lfs' !! lf_index f
      = Some (matched || message_matches f (tfs_logfile lfs) conts)
    ∧ tfs_lines_for_message lfs' !! lf_index f = Some (pending + length conts).
Proof.
  induction conts as [|[ll body] conts IH]; intros lfs matched pending Hall Hmm Hlm.
  - simpl. exists lfs. rewrite orb_false_r, Nat.add_0_r. by repeat split.
  - apply Forall_cons in Hall as [Hc Hall]. simpl in Hc.
    simpl. rewrite (add_line_continued f lfs ll body matched pending) by done.
    simpl.
    match goal with
    | |- context [add_lines _ ?s _] =>
        destruct (IH s (matched || matches f (tfs_logfile lfs) ll body)
                    (pending + 1) Hall)
          as (lfs' & Hrun & H1 & H2 & H3 & H4 & H5 & H6 & H7 & H8 & H9 & H10)
    end.
    { simpl. apply list_lookup_insert_eq. by eapply lookup_lt_Some. }
    { simpl. apply list_lookup_insert_eq. by eapply lookup_lt_Some. }
    simpl in *. exists lfs'. split; [done|].
    rewrite H1, H2, H3, H4, H5, H6, H7, H8, H9, H10, !length_insert.
    repeat split; try done.
    + by rewrite orb_assoc.
    + f_equal. lia.
Qed.

(** C7: a message is a head line and its continuation lines.  Take a filter
    state in which [pending] lines of the previous message are still
    accumulated and bit [p] of the lines to come is clear, as it is for
    lines that were never finalised.  Then [add_line] on the head first
    closes the previous message (its lines get the accumulated bit, the
    count of finalised lines advances by [pending] and the accumulator
    holds the head alone), and once the
    continuation lines are added and [end_of_message] has run, bit [p] of
    the mask of every line of the message is set iff the filter matched at
    least one line of the message.  The lines past the message keep their
    mask and the accumulator is empty again, so the same holds for the next
    message. *)
Theorem end_of_message_mask_is_message_match
    (f : text_filter) (lfs : logfile_filter_state)
    (head : logline) (body : string) (conts : list (logline * string))
    (cnt pending : nat) (prev : bool) :
  let p := lf_index f in
  let msg := (head, body) :: conts in
  is_continued head = false →
  Forall (λ lb, is_continued lb.1 = true) conts →
  p < MAX_FILTERS →
  filter_arrays_sized lfs →
  tfs_filter_count lfs !! p = Some cnt →
  tfs_lines_for_message lfs !! p = Some pending →
  tfs_message_matched lfs !! p = Some prev →
  cnt + pending + length msg ≤ logfile_size (tfs_logfile lfs) →
  cnt + pending + length msg ≤ length (tfs_mask lfs) →
  (∀ i m, cnt + pending ≤ i < cnt + pending + length msg →
          tfs_mask lfs !! i = Some m → filter_bit p m = false) →
  ∃ lfs1 lfs2 lfs3,
    add_line f lfs head body = Ok lfs1
    ∧ (∀ i, cnt ≤ i < cnt + pending →
            ∃ m0 m, tfs_mask lfs !! i = Some m0
                    ∧ tfs_mask lfs1 !! i = Some m
                    ∧ filter_bit p m = filter_bit p m0 || prev)
    ∧ tfs_filter_count lfs1 !! p = Some (cnt + pending)
    ∧ tfs_lines_for_message lfs1 !! p = Some 1
    ∧ tfs_message_matched lfs1 !! p
      = Some (matches f (tfs_logfile lfs) head body)
    ∧ add_lines f lfs1 conts = Ok lfs2
    ∧ end_of_message f lfs2 = Ok lfs3
    ∧ (∀ i, cnt + pending ≤ i < cnt + pending + length msg →
            ∃ m, tfs_mask lfs3 !! i = Some m
                 ∧ filter_bit p m = message_matches f (tfs_logfile lfs) msg)
    ∧ tfs_filter_count lfs3 !! p = Some (cnt + pending + length msg)
    ∧ tfs_lines_for_message lfs3 !! p = Some 0
    ∧ (∀ i, cnt + pending + length msg ≤ i →
            tfs_mask lfs3 !! i = tfs_mask lfs !! i).
Proof.
  intros p msg Hhead Hconts Hp Hsized Hcnt Hpending Hprev Hsize Hmask Hclear.
  subst p msg. simpl in Hsize, Hmask, Hclear.
  destruct (end_of_message_spec f lfs cnt pending prev)
    as (lfs0 & Heom & Hsz0 & Hlf0 & Hc0 & Hmm0 & Hlm0 & _ & _ & Hlen0 & Hmask0);
    [done | done | done | done | done | lia | lia |].
  (* the head line *)
  assert (add_line f lfs head body
          = Ok {| tfs_logfile := tfs_logfile lfs0;
                  tfs_filter_count := tfs_filter_count lfs0;
                  tfs_filter_hits := tfs_filter_hits lfs0;
                  tfs_message_matched :=
                    <[lf_index f := matches f (tfs_logfile lfs) head body]>
                      (tfs_message_matched lfs0);
                  tfs_lines_for_message :=
                    <[lf_index f := 1]> (tfs_lines_for_message lfs0);
                  tfs_last_message_matched := tfs_last_message_matched lfs0;
                  tfs_last_lines_for_message := tfs_last_lines_for_message lfs0;
                  tfs_mask := tfs_mask lfs0 |}) as Hadd.
  { unfold add_line. rewrite Hhead. simpl. rewrite Heom. simpl.
    rewrite (at_index_Some _ _ _ Hmm0). simpl.
    rewrite set_index_lt by (by eapply lookup_lt_Some). simpl.
    rewrite (at_index_Some _ _ _ Hlm0). simpl.
    rewrite set_index_lt by (by eapply lookup_lt_Some). done. }
  match type of Hadd with
  | _ = Ok ?s =>
      exists s;
      destruct (add_lines_continued f conts s
                  (matches f (tfs_logfile lfs) head body) 1 Hconts)
        as (lfs2 & Hrun & H1 & H2 & H3 & H4 & H5 & H6 & H7 & H8 & H9 & H10)
  end.
  { simpl. apply list_lookup_insert_eq. by eapply lookup_lt_Some. }
  { simpl. apply list_lookup_insert_eq. by eapply lookup_lt_Some. }
  simpl in *.
  destruct (end_of_message_spec f lfs2 (cnt + pending) (1 + length conts)
              (matches f (tfs_logfile lfs) head body
               || message_matches f (tfs_logfile lfs0) conts))
    as (lfs3 & Heom3 & _ & _ & Hc3 & _ & Hlm3 & _ & _ & _ & Hmask3).
  { destruct Hsz0 as (S1 & S2 & S3 & S4 & S5 & S6).
    unfold filter_arrays_sized.
    rewrite H2, H3, H4, H5, H6, H7, !length_insert. done. }
  { done. }
  { by rewrite H2. }
  { done. }
  { done. }
  { rewrite H1, Hlf0. lia. }
  { rewrite H8, Hlen0. lia. }
  exists lfs2, lfs3.
  split; [done|].
  split.
  { intros i Hi. rewrite Hmask0, decide_True by lia.
    destruct (lookup_lt_is_Some_2 (tfs_mask lfs) i ltac:(lia)) as [m0 Hm0].
    rewrite Hm0. simpl. eexists _, _. split; [done|]. split; [done|].
    by apply filter_bit_or_mask. }
  split; [done|].
  split; [apply list_lookup_insert_eq; by eapply lookup_lt_Some|].
  split; [apply list_lookup_insert_eq; by eapply lookup_lt_Some|].
  split; [done|]. split; [done|].
  split_and!.
  - intros i Hi. rewrite Hmask3, decide_True by lia.
    rewrite H8, Hmask0, decide_False by lia.
    destruct (lookup_lt_is_Some_2 (tfs_mask lfs) i ltac:(lia)) as [m Hm].
    rewrite Hm. simpl. eexists. split; [done|].
    rewrite filter_bit_or_mask by done.
    rewrite (Hclear i m) by (done || lia). simpl.
    by rewrite Hlf0.
  - rewrite Hc3. f_equal; lia.
  - done.
  - intros i Hi. rewrite Hmask3, decide_False by lia.
    rewrite H8, Hmask0, decide_False by lia. done.
Qed.

(** ** The k-way merge *)

Lemma logline_lt_irrefl (a : logline) : logline_lt a a = false.
Proof.
  unfold logline_lt, timestamp_lt. simpl.
  rewrite Z.ltb_irrefl, Z.eqb_refl. simpl. apply Z.ltb_irrefl.
Qed.

Lemma logline_lt_spec (a b : logline) :
  logline_lt a b = true
  ↔ (ll_time a < ll_time b
     ∨ (ll_time a = ll_time b ∧ ll_millis a < ll_millis b))%Z.
Proof.
  unfold logline_lt, timestamp_lt. simpl.
  rewrite orb_true_iff, andb_true_iff, !Z.ltb_lt, Z.eqb_eq. done.
Qed.

Lemma logline_lt_false (a b : logline) :
  logline_lt a b = false
  ↔ (ll_time b < ll_time a
     ∨ (ll_time a = ll_time b ∧ ll_millis b ≤ ll_millis a))%Z.
Proof.
  rewrite <- not_true_iff_false, logline_lt_spec. lia.
Qed.

Lemma range_heads_cons r merge :
  range_heads (r :: merge)
  = match head (kr_lines r) with
    | Some h => h :: range_heads merge
    | None => range_heads merge
    end.
Proof. unfold range_heads. simpl. by destruct (head (kr_lines r)). Qed.

Lemma kmerge_top_None merge :
  kmerge_top merge = None ↔ range_heads merge = [].
Proof.
  induction merge as [|r merge IH]; [done|].
  rewrite range_heads_cons. cbn [kmerge_top].
  destruct (head (kr_lines r)), (kmerge_top merge) as [[i0 l0]|].
  - split; [case_match; discriminate | discriminate].
  - split; discriminate.
  - split; [discriminate|]. intros H. apply IH in H. discriminate.
  - split; [|done]. intros _. by apply IH.
Qed.

Lemma kmerge_top_Some merge j h :
  kmerge_top merge = Some (j, h) →
  ∃ r, merge !! j = Some r ∧ head (kr_lines r) = Some h
       ∧ least_head h (range_heads merge).
Proof.
  unfold least_head. revert j h.
  induction merge as [|r merge IH]; intros j h; [done|].
  rewrite range_heads_cons. cbn [kmerge_top].
  destruct (head (kr_lines r)) as [hr|] eqn:Hr,
           (kmerge_top merge) as [[i0 l0]|] eqn:Htop.
  - destruct (IH i0 l0 eq_refl) as (r' & Hlook & Hhead & Hleast).
    destruct (logline_lt l0 hr) eqn:Hlt; intros [= <- <-].
    + exists r'. split; [done|]. split; [done|].
      intros h' [->|Hin]%elem_of_cons; [|by apply Hleast].
      apply logline_lt_spec in Hlt. apply logline_lt_false. lia.
    + exists r. split; [done|]. split; [done|].
      intros h' [->|Hin]%elem_of_cons; [apply logline_lt_irrefl|].
      specialize (Hleast h' Hin).
      apply logline_lt_false in Hlt, Hleast. apply logline_lt_false. lia.
  - intros [= <- <-]. exists r. split; [done|]. split; [done|].
    apply kmerge_top_None in Htop. rewrite Htop.
    intros h' ->%list_elem_of_singleton. apply logline_lt_irrefl.
  - destruct (IH i0 l0 eq_refl) as (r' & Hlook & Hhead & Hleast).
    intros [= <- <-]. eauto.
  - done.
Qed.

Lemma kmerge_get_top_None merge :
  kmerge_get_top merge = None ↔ range_heads merge = [].
Proof.
  rewrite <- kmerge_top_None. unfold kmerge_get_top.
  destruct (kmerge_top merge) as [[j h]|] eqn:Htop; simpl; [|done].
  destruct (kmerge_top_Some _ _ _ Htop) as (r & -> & _). simpl. done.
Qed.

Lemma kmerge_get_top_Some merge owner lf_iter :
  kmerge_get_top merge = Some (owner, lf_iter) →
  ∃ j r h, kmerge_top merge = Some (j, h) ∧ merge !! j = Some r
           ∧ head (kr_lines r) = Some h
           ∧ kr_owner r = owner ∧ kr_pos r = lf_iter
           ∧ least_head h (range_heads merge).
Proof.
  unfold kmerge_get_top.
  destruct (kmerge_top merge) as [[j h]|] eqn:Htop; simpl; [|done].
  destruct (kmerge_top_Some _ _ _ Htop) as (r & Hlook & Hhead & Hleast).
  rewrite Hlook. simpl. intros [= <- <-]. exists j, r, h. done.
Qed.

Lemma kmerge_remaining_insert merge j r r' :
  merge !! j = Some r →
  kmerge_remaining (<[j := r']> merge) + length (kr_lines r)
  = kmerge_remaining merge + length (kr_lines r').
Proof.
  unfold kmerge_remaining. revert j.
  induction merge as [|r0 merge IH]; intros [|j]; simpl; try done.
  - intros [= ->]. lia.
  - intros H. specialize (IH j H). lia.
Qed.

(** *** The merge tree against the files *)

Lemma head_drop_lookup {A : Type} (l : list A) (n : nat) :
  head (drop n l) = l !! n.
Proof. rewrite head_lookup, lookup_drop. f_equal. lia. Qed.

Lemma range_agrees_head files r ld :
  range_agrees files r → files !! kr_owner r = Some ld →
  head (kr_lines r) = head_of ld ∧ is_Some (head_of ld).
Proof.
  intros (ld' & lf & Hld & Hlf & Hpos & Hlines & Hlt) Hld2.
  assert (ld' = ld) as -> by congruence.
  unfold head_of. rewrite Hlf. simpl.
  rewrite Hlines, head_drop_lookup, Hpos. split; [done|].
  apply lookup_lt_is_Some. unfold logfile_size in Hlt. lia.
Qed.

Lemma merge_agrees_heads files merge h :
  merge_agrees files merge → h ∈ file_heads files → h ∈ range_heads merge.
Proof.
  intros (Hag & _ & Hall) Hin.
  apply list_elem_of_omap in Hin as (ld & Hld & Hh).
  apply list_elem_of_lookup in Hld as [o Hld].
  destruct (Hall o ld h Hld Hh) as (j & r & Hr & Ho).
  apply list_elem_of_omap. exists r. split.
  - apply list_elem_of_lookup. eauto.
  - subst o. destruct (range_agrees_head files r ld (Hag j r Hr) Hld) as [-> _].
    done.
Qed.

Lemma merge_agrees_idle files merge :
  merge_agrees files merge → range_heads merge = [] → file_heads files = [].
Proof.
  intros Hag Hnil. destruct (file_heads files) as [|h hs] eqn:Hheads; [done|].
  assert (h ∈ range_heads merge) as Hin.
  { eapply merge_agrees_heads; [done|]. rewrite Hheads. left. }
  rewrite Hnil in Hin. by apply elem_of_nil in Hin.
Qed.

Lemma merge_agrees_least files merge h :
  merge_agrees files merge → least_head h (range_heads merge) →
  least_head h (file_heads files).
Proof.
  intros Hag Hleast h' Hin. apply Hleast. by eapply merge_agrees_heads.
Qed.

Lemma tail_drop {A : Type} (l : list A) (n : nat) :
  tail (drop n l) = drop (S n) l.
Proof.
  apply list_eq. intros i. rewrite lookup_tail, !lookup_drop. f_equal. lia.
Qed.

(** Stepping the top range keeps the tree in agreement with the files once
    the owner's [ld_lines_indexed] has advanced too. *)
Lemma merge_agrees_next files merge j r h ld lf :
  merge_agrees files merge →
  kmerge_top merge = Some (j, h) →
  merge !! j = Some r →
  files !! kr_owner r = Some ld →
  get_file ld = Some lf →
  kr_pos r + 1 ≠ logfile_size lf →
  merge_agrees (<[kr_owner r := advance ld]> files) (kmerge_next merge).
Proof.
  intros (Hag & Hnodup & Hall) Htop Hr Hld Hlf Hmore.
  unfold kmerge_next. rewrite Htop, Hr.
  destruct (Hag j r Hr) as (ld' & lf' & Hld' & Hlf' & Hpos & Hlines & Hlt).
  assert (ld' = ld) as -> by congruence.
  assert (lf' = lf) as -> by congruence.
  assert (∀ j' r', merge !! j' = Some r' → kr_owner r' = kr_owner r → j' = j)
    as Hinj.
  { intros j' r' Hr' Ho. eapply NoDup_lookup; [exact Hnodup| |].
    - rewrite list_lookup_fmap, Hr'. simpl. by rewrite Ho.
    - by rewrite list_lookup_fmap, Hr. }
  split; [|split].
  - intros j' r'. destruct (decide (j' = j)) as [->|Hne].
    + rewrite list_lookup_insert_eq by (by eapply lookup_lt_Some).
      intros [= <-]. simpl.
      exists (advance ld), lf. simpl.
      rewrite list_lookup_insert_eq by (by eapply lookup_lt_Some).
      repeat split; try done.
      * lia.
      * by rewrite Hlines, tail_drop.
      * lia.
    + rewrite list_lookup_insert_ne by done. intros Hr'.
      destruct (Hag j' r' Hr') as (ld1 & lf1 & H1 & H2 & H3 & H4 & H5).
      exists ld1, lf1. repeat split; try done.
      rewrite list_lookup_insert_ne; [done|].
      intros Ho. apply Hne. symmetry in Ho. by eapply Hinj.
  - rewrite list_fmap_insert. simpl.
    rewrite list_insert_id; [done|]. by rewrite list_lookup_fmap, Hr.
  - intros o ld1 h1 Hld1 Hh1.
    destruct (decide (o = kr_owner r)) as [->|Hne].
    + exists j. eexists. split.
      * rewrite list_lookup_insert_eq by (by eapply lookup_lt_Some). done.
      * done.
    + rewrite list_lookup_insert_ne in Hld1 by done.
      destruct (Hall o ld1 h1 Hld1 Hh1) as (j' & r' & Hr' & Ho).
      exists j', r'. split; [|done].
      rewrite list_lookup_insert_ne; [done|].
      intros ->. apply Hne. rewrite <- Ho. congruence.
Qed.

Lemma kmerge_next_remaining merge j r h :
  kmerge_top merge = Some (j, h) → merge !! j = Some r →
  head (kr_lines r) = Some h →
  kmerge_remaining (kmerge_next merge) + 1 = kmerge_remaining merge.
Proof.
  intros Htop Hr Hh. unfold kmerge_next. rewrite Htop, Hr.
  pose proof (kmerge_remaining_insert merge j r
                {| kr_owner := kr_owner r; kr_pos := S (kr_pos r);
                   kr_lines := tail (kr_lines r) |} Hr) as Hins.
  simpl in Hins. destruct (kr_lines r); simpl in *; [done | lia].
Qed.

(** The loop of the program runs the merge of the specification, and the
    fuel given to it is never used up. *)
Lemma merge_loop_runs_spec fuel : ∀ merge files index,
  merge_agrees files merge →
  kmerge_remaining merge < fuel →
  ∃ files' index',
    merge_loop fuel merge files index = Ok (files', index')
    ∧ spec_merge files index files' index'.
Proof.
  induction fuel as [|fuel IH]; intros merge files index Hag Hfuel; [lia|].
  simpl. destruct (kmerge_get_top merge) as [[owner lf_iter]|] eqn:Hget.
  - apply kmerge_get_top_Some in Hget
      as (j & r & h & Htop & Hr & Hhead & <- & <- & Hleast).
    pose proof Hag as (Hranges & _ & _).
    destruct (Hranges j r Hr) as (ld & lf & Hld & Hlf & Hpos & Hlines & Hlt).
    rewrite (at_index_Some _ _ _ Hld). simpl. rewrite Hlf. simpl.
    rewrite require_true by (by apply bool_decide_eq_true). simpl.
    assert (head_of ld = Some h) as Hh.
    { destruct (range_agrees_head files r ld (Hranges j r Hr) Hld) as [<- _].
      done. }
    pose proof (merge_agrees_least files merge h Hag Hleast) as Hmin.
    case_bool_decide as Hend.
    + eexists _, _. split; [done|].
      eapply spec_merge_last; eauto. lia.
    + destruct (IH (kmerge_next merge)
                  (<[kr_owner r := set_lines_indexed ld (S (ld_lines_indexed ld))]> files)
                  (index ++ [con_line (ld_file_index ld) (ld_lines_indexed ld)]))
        as (files' & index' & Hrun & Hspec).
      { eapply merge_agrees_next; eauto. }
      { pose proof (kmerge_next_remaining merge j r h Htop Hr Hhead). lia. }
      exists files', index'. split; [done|].
      eapply spec_merge_more; eauto. lia.
  - exists files, index. split; [done|]. apply spec_merge_idle.
    eapply merge_agrees_idle; [done|]. by apply kmerge_get_top_None.
Qed.

(** *** Filling the merge tree *)

Lemma merge_add_files_ranges files : ∀ slot merge,
  files_fit files →
  merge_add_files files slot merge = Ok (merge ++ ranges_from slot files).
Proof.
  induction files as [|ld rest IH]; intros slot merge Hfit; simpl.
  - by rewrite app_nil_r.
  - assert (files_fit rest) as Hrest.
    { intros ld' lf' Hin. apply Hfit. by right. }
    destruct (get_file ld) as [lf|] eqn:Hlf; [|by apply IH].
    assert (ld_lines_indexed ld ≤ logfile_size lf) as Hle.
    { apply Hfit; [left | done]. }
    rewrite require_true by (by apply bool_decide_eq_true). simpl.
    repeat case_bool_decide; try lia.
    + by apply IH.
    + rewrite IH by done. unfold kmerge_add. by rewrite <- app_assoc.
Qed.

Lemma ranges_from_lookup files : ∀ slot r,
  r ∈ ranges_from slot files ↔
  ∃ k ld lf, files !! k = Some ld ∧ get_file ld = Some lf
             ∧ ld_lines_indexed ld < logfile_size lf
             ∧ r = {| kr_owner := slot + k;
                      kr_pos := ld_lines_indexed ld;
                      kr_lines := drop (ld_lines_indexed ld) (lf_loglines lf) |}.
Proof.
  induction files as [|ld rest IH]; intros slot r; simpl.
  - split; [by intros ?%elem_of_nil | by intros (k & ? & ? & ? & _)].
  - assert (r ∈ ranges_from (S slot) rest ↔
            ∃ k ld0 lf, (ld :: rest) !! S k = Some ld0 ∧ get_file ld0 = Some lf
              ∧ ld_lines_indexed ld0 < logfile_size lf
              ∧ r = {| kr_owner := slot + S k;
                       kr_pos := ld_lines_indexed ld0;
                       kr_lines := drop (ld_lines_indexed ld0) (lf_loglines lf) |})
      as Htail.
    { rewrite IH. simpl. split; intros (k & ld0 & lf & H1 & H2 & H3 & ->);
        exists k, ld0, lf; repeat split; try done; f_equal; lia. }
    destruct (get_file ld) as [lf|] eqn:Hlf.
    + case_bool_decide as Hlt.
      * rewrite elem_of_cons, Htail. split.
        -- intros [->|(k & ld0 & lf0 & H)].
           ++ exists 0, ld, lf. repeat split; try done. f_equal. lia.
           ++ exists (S k), ld0, lf0. done.
        -- intros ([|k] & ld0 & lf0 & H1 & H2 & H3 & ->).
           ++ left. simpl in H1. injection H1 as <-.
              assert (lf0 = lf) as -> by congruence. f_equal. lia.
           ++ right. exists k, ld0, lf0. done.
      * rewrite Htail. split.
        -- intros (k & ld0 & lf0 & H). exists (S k), ld0, lf0. done.
        -- intros ([|k] & ld0 & lf0 & H1 & H2 & H3 & ->).
           ++ simpl in H1. injection H1 as <-.
              assert (lf0 = lf) as -> by congruence. lia.
           ++ exists k, ld0, lf0. done.
    + rewrite Htail. split.
      * intros (k & ld0 & lf0 & H). exists (S k), ld0, lf0. done.
      * intros ([|k] & ld0 & lf0 & H1 & H2 & H3 & ->).
        -- simpl in H1. injection H1 as <-. congruence.
        -- exists k, ld0, lf0. done.
Qed.

Lemma ranges_from_owners files : ∀ slot,
  NoDup (kr_owner <$> ranges_from slot files).
Proof.
  induction files as [|ld rest IH]; intros slot; simpl; [constructor|].
  assert (slot ∉ kr_owner <$> ranges_from (S slot) rest) as Hfresh.
  { intros (r & Ho & Hin)%list_elem_of_fmap.
    apply ranges_from_lookup in Hin as (k & ? & ? & _ & _ & _ & ->).
    simpl in Ho. lia. }
  destruct (get_file ld); [|done].
  case_bool_decide; [|done]. simpl. by constructor.
Qed.

Lemma ranges_from_agrees files :
  merge_agrees files (ranges_from 0 files).
Proof.
  split; [|split].
  - intros j r Hr.
    assert (r ∈ ranges_from 0 files) as Hin.
    { apply list_elem_of_lookup. eauto. }
    apply ranges_from_lookup in Hin as (k & ld & lf & H1 & H2 & H3 & ->).
    exists ld, lf. simpl. done.
  - apply ranges_from_owners.
  - intros o ld h Hld Hh. unfold head_of in Hh.
    destruct (get_file ld) as [lf|] eqn:Hlf; [|done]. simpl in Hh.
    apply lookup_lt_Some in Hh.
    assert ({| kr_owner := 0 + o;
               kr_pos := ld_lines_indexed ld;
               kr_lines := drop (ld_lines_indexed ld) (lf_loglines lf) |}
            ∈ ranges_from 0 files) as Hin.
    { apply ranges_from_lookup. exists o, ld, lf. done. }
    apply list_elem_of_lookup in Hin as [j Hj].
    eexists j, _. split; [done|]. done.
Qed.

(** From any files that fit, the merge of the program is the merge of the
    specification. *)
Lemma merge_runs_spec files index :
  files_fit files →
  ∃ merge files' index',
    merge_add_files files 0 [] = Ok merge
    ∧ merge_loop (S (kmerge_remaining merge)) merge files index
      = Ok (files', index')
    ∧ spec_merge files index files' index'.
Proof.
  intros Hfit. exists (ranges_from 0 files).
  destruct (merge_loop_runs_spec (S (kmerge_remaining (ranges_from 0 files)))
              (ranges_from 0 files) files index)
    as (files' & index' & Hrun & Hspec).
  { apply ranges_from_agrees. }
  { lia. }
  exists files', index'. split; [|done].
  by rewrite merge_add_files_ranges.
Qed.

(** *** What the merge leaves alone *)

Lemma same_file_refl ld : same_file ld ld.
Proof. by repeat split. Qed.

Lemma same_files_refl files : Forall2 same_file files files.
Proof. apply Forall_Forall2_diag, Forall_forall. intros. apply same_file_refl. Qed.

Lemma same_files_trans f1 f2 f3 :
  Forall2 same_file f1 f2 → Forall2 same_file f2 f3 → Forall2 same_file f1 f3.
Proof.
  intros H12. revert f3. induction H12 as [|a b f1 f2 Hab _ IH]; intros f3 H23.
  - by inversion H23.
  - inversion H23 as [|? c ? f3' Hbc H23']; subst. constructor; [|by apply IH].
    destruct Hab as (?&?&?&?), Hbc as (?&?&?&?).
    repeat split; try congruence. lia.
Qed.

Lemma same_files_advance files o ld :
  files !! o = Some ld →
  Forall2 same_file files (<[o := advance ld]> files).
Proof.
  intros Hld. rewrite <- (list_insert_id files o ld Hld) at 1.
  apply Forall2_insert; [apply same_files_refl|].
  repeat split; simpl; lia.
Qed.

Lemma con_line_decode (o k : nat) :
  (Z.of_nat k < MAX_LINES_PER_FILE)%Z →
  (0 ≤ con_line o k)%Z
  ∧ Z.to_nat (con_line o k / MAX_LINES_PER_FILE) = o
  ∧ Z.to_nat (con_line o k mod MAX_LINES_PER_FILE) = k.
Proof.
  unfold con_line, MAX_LINES_PER_FILE. intros Hk.
  rewrite Z.add_comm, Z.div_add, Z.mod_add by lia.
  rewrite Z.div_small, Z.mod_small by lia.
  repeat split; lia.
Qed.

Lemma spec_merge_frame files index files' index' :
  spec_merge files index files' index' →
  Forall2 same_file files files' ∧ ∃ new, index' = index ++ new.
Proof.
  induction 1 as [files index _
                 |files index o ld lf h Hld _ _ _ _
                 |files index o ld lf h files' index' Hld _ _ _ _ _ IH].
  - split; [apply same_files_refl|]. exists []. by rewrite app_nil_r.
  - split; [by apply same_files_advance|]. eauto.
  - destruct IH as (Hsame & new & ->). split.
    + eapply same_files_trans; [by apply same_files_advance | done].
    + eexists. by rewrite <- app_assoc.
Qed.

Lemma merge_loop_frame fuel : ∀ merge files index files' index',
  merge_loop fuel merge files index = Ok (files', index') →
  Forall2 same_file files files' ∧ ∃ new, index' = index ++ new.
Proof.
  induction fuel as [|fuel IH]; intros merge files index files' index';
    simpl; [done|].
  destruct (kmerge_get_top merge) as [[owner lf_iter]|].
  - intros (ld & Hld%at_index_Ok & Hrest)%bind_Ok. simpl in Hrest.
    apply bind_Ok in Hrest as (lf & Hlf & Hrest).
    apply bind_Ok in Hrest as (_ & _ & Hrest).
    pose proof (same_files_advance files owner ld Hld) as Hadv.
    case_bool_decide.
    + injection Hrest as <- <-. split; [done|]. eauto.
    + apply IH in Hrest as (Hsame & new & ->). split.
      * eapply same_files_trans; done.
      * eexists. by rewrite <- app_assoc.
  - intros [= <- <-]. split; [apply same_files_refl|].
    exists []. by rewrite app_nil_r.
Qed.

(** *** Well-formed slots *)

Lemma files_ok_fit files : files_ok files → files_fit files.
Proof.
  intros Hok ld lf [i Hld]%list_elem_of_lookup Hlf.
  destruct (Hok i ld Hld) as [_ H]. by apply H.
Qed.

Lemma entry_attached_in_range files cl :
  entry_attached files cl → entry_in_range files cl.
Proof.
  intros (H0 & ld & lf & Hld & Hlf & Hlt). split; [done|].
  exists ld. split; [done|]. intros lf' _. done.
Qed.

Lemma entry_attached_same files files' cl :
  Forall2 same_file files files' →
  entry_attached files cl → entry_attached files' cl.
Proof.
  intros Hsame (H0 & ld & lf & Hld & Hlf & Hlt). split; [done|].
  destruct (Forall2_lookup_l _ _ _ _ _ Hsame Hld) as (ld' & Hld' & Hs).
  destruct Hs as (_ & Hfile & _ & Hle).
  exists ld', lf. split; [done|]. unfold get_file in *. split; [congruence|lia].
Qed.

Lemma entry_in_range_same files files' cl :
  Forall2 same_file files files' →
  entry_in_range files cl → entry_in_range files' cl.
Proof.
  intros Hsame (H0 & ld & Hld & Hlt). split; [done|].
  destruct (Forall2_lookup_l _ _ _ _ _ Hsame Hld) as (ld' & Hld' & Hs).
  destruct Hs as (_ & Hfile & _ & Hle).
  exists ld'. split; [done|]. intros lf Hlf.
  unfold get_file in *. rewrite <- Hfile in Hlf. specialize (Hlt lf Hlf). lia.
Qed.

Lemma files_ok_advance files o ld lf :
  files_ok files → files !! o = Some ld → get_file ld = Some lf →
  ld_lines_indexed ld < logfile_size lf →
  files_ok (<[o := advance ld]> files).
Proof.
  intros Hok Hld Hlf Hlt i ld'. destruct (decide (i = o)) as [->|Hne].
  - rewrite list_lookup_insert_eq by (by eapply lookup_lt_Some).
    intros [= <-]. destruct (Hok o ld Hld) as [Hidx Hfile].
    split; [done|]. intros lf' Hlf'. unfold get_file in *. simpl in *.
    destruct (Hfile lf' Hlf') as (? & ? & ?).
    assert (lf' = lf) as -> by congruence. repeat split; done || lia.
  - rewrite list_lookup_insert_ne by done. apply Hok.
Qed.

Lemma head_of_Some ld h :
  head_of ld = Some h →
  ∃ lf, get_file ld = Some lf ∧ ld_lines_indexed ld < logfile_size lf.
Proof.
  unfold head_of. destruct (get_file ld) as [lf|]; [|done]. simpl.
  intros H%lookup_lt_Some. eauto.
Qed.

Lemma appended_entry_attached files o ld lf :
  files_ok files → files !! o = Some ld → get_file ld = Some lf →
  ld_lines_indexed ld < logfile_size lf →
  entry_attached (<[o := advance ld]> files)
    (con_line (ld_file_index ld) (ld_lines_indexed ld)).
Proof.
  intros Hok Hld Hlf Hlt. destruct (Hok o ld Hld) as [Hidx Hfile].
  destruct (Hfile lf Hlf) as (_ & Hmax & _).
  destruct (con_line_decode o (ld_lines_indexed ld)) as (H0 & Hslot & Hline);
    [lia|].
  rewrite Hidx. split; [done|]. rewrite Hslot, Hline.
  exists (advance ld), lf.
  rewrite list_lookup_insert_eq by (by eapply lookup_lt_Some).
  simpl. repeat split; try done. lia.
Qed.

(** The entries the merge appends name indexed lines of attached files, and
    the slots stay well-formed. *)
Lemma spec_merge_entries files index files' index' :
  spec_merge files index files' index' →
  files_ok files →
  files_ok files'
  ∧ ∃ new, index' = index ++ new ∧ Forall (entry_attached files') new.
Proof.
  induction 1 as [files index _
                 |files index o ld lf h Hld Hlf Hh _ Hend
                 |files index o ld lf h files' index' Hld Hlf Hh _ Hmore Hrun IH];
    intros Hok.
  - split; [done|]. exists []. by rewrite app_nil_r.
  - destruct (head_of_Some ld h Hh) as (lf' & Hlf' & Hlt).
    assert (lf' = lf) as -> by congruence.
    split; [by eapply files_ok_advance|].
    eexists. split; [done|]. constructor; [|constructor].
    by eapply appended_entry_attached.
  - destruct (head_of_Some ld h Hh) as (lf' & Hlf' & Hlt).
    assert (lf' = lf) as -> by congruence.
    destruct IH as (Hok' & new & -> & Hnew); [by eapply files_ok_advance|].
    split; [done|]. eexists. split; [by rewrite <- app_assoc|].
    constructor; [|done].
    eapply entry_attached_same; [by eapply spec_merge_frame|].
    by eapply appended_entry_attached.
Qed.

(** *** Where the merge stops *)

Lemma participates_heads files :
  (∃ o, participates files o) ↔ file_heads files ≠ [].
Proof.
  split.
  - intros (o & ld & Hld & h & Hh) Hnil.
    assert (h ∈ file_heads files) as Hin.
    { apply list_elem_of_omap. exists ld. split; [|done].
      apply list_elem_of_lookup. eauto. }
    rewrite Hnil in Hin. by apply elem_of_nil in Hin.
  - destruct (file_heads files) as [|h hs] eqn:Hheads; [done|]. intros _.
    assert (h ∈ file_heads files) as Hin by (rewrite Hheads; left).
    apply list_elem_of_omap in Hin as (ld & [o Hld]%list_elem_of_lookup & Hh).
    exists o, ld. eauto.
Qed.

Lemma participates_advance files o ld lf o' :
  files !! o = Some ld → get_file ld = Some lf →
  ld_lines_indexed ld + 1 < logfile_size lf →
  participates files o' → participates (<[o := advance ld]> files) o'.
Proof.
  intros Hld Hlf Hlt (ld' & Hld' & Hh). destruct (decide (o' = o)) as [->|Hne].
  - exists (advance ld).
    rewrite list_lookup_insert_eq by (by eapply lookup_lt_Some).
    split; [done|]. unfold head_of. simpl. unfold get_file in Hlf.
    rewrite Hlf. simpl. apply lookup_lt_is_Some. unfold logfile_size in Hlt. lia.
  - exists ld'. by rewrite list_lookup_insert_ne.
Qed.

(** When some file takes part, the merge ends on the last line of one of
    them; that file is consumed, its last line is the last entry appended,
    and every other file that took part still has a head: its remaining
    lines were not appended. *)
Lemma spec_merge_stops files index files' index' :
  spec_merge files index files' index' →
  (∃ o, participates files o) →
  ∃ o ld lf,
    participates files o
    ∧ files' !! o = Some ld ∧ get_file ld = Some lf
    ∧ ld_lines_indexed ld = logfile_size lf
    ∧ last index'
      = Some (con_line (ld_file_index ld) (logfile_size lf - 1))
    ∧ ∀ o', o' ≠ o → participates files o' → participates files' o'.
Proof.
  induction 1 as [files index Hnil
                 |files index o ld lf h Hld Hlf Hh _ Hend
                 |files index o ld lf h files' index' Hld Hlf Hh _ Hmore Hrun IH];
    intros Hsome.
  - by apply participates_heads in Hsome.
  - exists o, (advance ld), lf.
    rewrite list_lookup_insert_eq by (by eapply lookup_lt_Some).
    split; [by exists ld; eauto|]. simpl.
    repeat split; try done; try lia.
    + rewrite last_snoc. do 2 f_equal. lia.
    + intros o' Hne (ld' & Hld' & Hh'). exists ld'.
      by rewrite list_lookup_insert_ne.
  - destruct (head_of_Some ld h Hh) as (lf' & Hlf' & Hlt).
    assert (lf' = lf) as -> by congruence.
    assert (ld_lines_indexed ld + 1 < logfile_size lf) as Hlt' by lia.
    destruct IH as (o1 & ld1 & lf1 & Hp1 & Hld1 & Hlf1 & Hfull & Hlast & Hothers).
    { exists o. eapply participates_advance; eauto. exists ld. eauto. }
    exists o1, ld1, lf1. repeat split; try done.
    + destruct (decide (o1 = o)) as [->|Hne]; [exists ld; eauto|].
      destruct Hp1 as (ld2 & Hld2 & Hh2).
      rewrite list_lookup_insert_ne in Hld2 by done. exists ld2. eauto.
    + intros o' Hne Hp. apply Hothers; [done|].
      eapply participates_advance; eauto.
Qed.

(** ** Polling *)

Lemma find_line_total files cl :
  files_ok files → entry_in_range files cl →
  ∃ found, find_line files cl = Ok found.
Proof.
  intros Hok (H0 & ld & Hld & Hline). unfold find_line, find_data.
  rewrite (at_index_Some _ _ _ Hld). simpl.
  destruct (get_file ld) as [lf|] eqn:Hlf; [|eauto].
  destruct (Hok _ _ Hld) as [_ Hfile]. destruct (Hfile lf Hlf) as (Hle & _ & _).
  specialize (Hline lf eq_refl).
  destruct (lookup_lt_is_Some_2 (lf_loglines lf)
              (Z.to_nat (cl mod MAX_LINES_PER_FILE))) as [ll Hll].
  { unfold logfile_size in Hle. lia. }
  rewrite (at_index_Some _ _ _ Hll). simpl. eauto.
Qed.

Lemma classify_new_lines_total files index lf lines_indexed force retval :
  files_ok files → Forall (entry_in_range files) index →
  lines_indexed < logfile_size lf →
  ∃ force' retval',
    classify_new_lines files index lf lines_indexed force retval
    = Ok (force', retval')
    ∧ retval' ≠ rr_no_change.
Proof.
  intros Hok Hindex Hlt. unfold classify_new_lines.
  assert ((if decide (retval = rr_no_change) then rr_appended_lines else retval)
          ≠ rr_no_change) as Hret by (case_decide; done).
  destruct (last index) as [cl|] eqn:Hlast; [|eauto].
  assert (entry_in_range files cl) as Hcl.
  { rewrite Forall_forall in Hindex. apply Hindex.
    rewrite last_lookup in Hlast. apply list_elem_of_lookup. eauto. }
  destruct (find_line_total files cl Hok Hcl) as [found ->]. simpl.
  destruct found as [last_ll|]; [|eauto].
  destruct (lookup_lt_is_Some_2 (lf_loglines lf) lines_indexed Hlt) as [ll Hll].
  rewrite (at_index_Some _ _ _ Hll). simpl.
  destruct (logline_lt ll last_ll); eauto.
Qed.

Lemma polled_refl files : polled files files.
Proof. apply Forall_Forall2_diag, Forall_forall. intros. done. Qed.

Lemma polled_trans f1 f2 f3 : polled f1 f2 → polled f2 f3 → polled f1 f3.
Proof.
  unfold polled. intros H12. revert f3.
  induction H12 as [|a b f1 f2 Hab _ IH]; intros f3 H23.
  - by inversion H23.
  - inversion H23 as [|? c ? f3' Hbc H23']; subst. constructor; [|by apply IH].
    destruct Hab as (?&?&?), Hbc as (?&?&?). repeat split; try congruence; tauto.
Qed.

Lemma polled_observed files i ld lf fs :
  files !! i = Some ld → is_Some (ld_file ld) →
  polled files (<[i := set_observed ld lf fs]> files).
Proof.
  intros Hld Hsome. unfold polled.
  rewrite <- (list_insert_id files i ld Hld) at 1.
  apply Forall2_insert; [apply polled_refl|]. simpl.
  repeat split; done.
Qed.

Lemma entry_in_range_polled files files' cl :
  polled files files' → entry_in_range files cl → entry_in_range files' cl.
Proof.
  intros Hp (H0 & ld & Hld & Hline). split; [done|].
  destruct (Forall2_lookup_l _ _ _ _ _ Hp Hld) as (ld' & Hld' & _ & Hli & Hsome).
  exists ld'. split; [done|]. intros lf Hlf. rewrite <- Hli.
  unfold get_file in *.
  destruct (ld_file ld) as [lf0|] eqn:Hlf0.
  - by apply (Hline lf0).
  - destruct Hsome as [_ Hsome]. destruct Hsome as [? ?]; [eauto|done].
Qed.

Lemma poll_file_spec env index i st :
  files_ok (ps_files st) →
  Forall (entry_in_range (ps_files st)) index →
  i < length (ps_files st) →
  (∀ ld, ps_files st !! i = Some ld → slot_observation_ok env i ld) →
  ∃ st',
    poll_file env index i st = Ok st'
    ∧ files_ok (ps_files st')
    ∧ polled (ps_files st) (ps_files st')
    ∧ (∀ j, j ≠ i → ps_files st' !! j = ps_files st !! j)
    ∧ (ps_retval st ≠ rr_no_change → ps_retval st' ≠ rr_no_change)
    ∧ ((∃ ld, ps_files st !! i = Some ld ∧ reports_change env i ld) →
       ps_retval st' ≠ rr_no_change).
Proof.
  intros Hok Hindex Hi Hobs.
  destruct (lookup_lt_is_Some_2 _ _ Hi) as [ld Hld].
  unfold poll_file. rewrite (at_index_Some _ _ _ Hld). simpl.
  destruct (get_file ld) as [lf|] eqn:Hlf.
  - destruct (is_paused env) eqn:Hpaused; simpl.
    + eexists. split; [done|]. simpl.
      split_and!; try done; try apply polled_refl;
        try (intros (ld' & Hld' & lf' & _ & Hp & _); congruence).
    + specialize (Hobs ld Hld lf Hlf Hpaused).
      destruct (lf_rebuild_index env i lf (ld_filter_state ld))
        as [[observed lf'] fs'] eqn:Hrun.
      destruct Hobs as (Hkeep & Hmax & Hmask & Hnew).
      set (files' := <[i := set_observed ld lf' fs']> (ps_files st)).
      assert (files_ok files') as Hok'.
      { intros j ld'. subst files'. destruct (decide (j = i)) as [->|Hne].
        - rewrite list_lookup_insert_eq by done. intros [= <-].
          destruct (Hok i ld Hld) as [Hidx _]. split; [done|].
          simpl. intros lf0 [= <-]. done.
        - rewrite list_lookup_insert_ne by done. apply Hok. }
      assert (polled (ps_files st) files') as Hpolled.
      { apply polled_observed; [done|]. unfold get_file in Hlf. eauto. }
      assert (∀ j, j ≠ i → files' !! j = ps_files st !! j) as Hother.
      { intros j Hne. subst files'. by rewrite list_lookup_insert_ne. }
      assert (Forall (entry_in_range files') index) as Hindex'.
      { eapply Forall_impl; [exact Hindex|]. intros cl.
        by apply entry_in_range_polled. }
      assert (∃ fr, (match
                 (if bool_decide (observed = RR_NO_NEW_LINES)
                     && bool_decide (ld_lines_indexed ld < logfile_size lf')
                  then RR_NEW_LINES else observed)
               with
               | RR_NO_NEW_LINES => Ok (ps_force st, ps_retval st)
               | RR_NEW_LINES =>
                   classify_new_lines files' index lf' (ld_lines_indexed ld)
                     (ps_force st) (ps_retval st)
               | _ => Ok (true, rr_full_rebuild)
               end) = Ok fr
               ∧ (ps_retval st ≠ rr_no_change → fr.2 ≠ rr_no_change)
               ∧ (observed ≠ RR_NO_NEW_LINES → fr.2 ≠ rr_no_change))
        as (fr & Hfr & Hmono & Hchange).
      { destruct observed; simpl.
        - eexists. split; [done|]. by split.
        - case_bool_decide as Hlt; simpl.
          + destruct (classify_new_lines_total files' index lf'
                        (ld_lines_indexed ld) (ps_force st) (ps_retval st))
              as (f' & r' & Hc & Hr'); [done..|].
            eexists. split; [done|]. by split.
          + eexists. split; [done|]. by split.
        - destruct (classify_new_lines_total files' index lf'
                      (ld_lines_indexed ld) (ps_force st) (ps_retval st))
            as (f' & r' & Hc & Hr'); [done | done | by apply Hnew |].
          eexists. split; [done|]. by split.
        - eexists. split; [done|]. by split. }
      fold files'. rewrite Hfr. simpl. destruct fr as [force' retval'].
      eexists. split; [done|]. simpl in *.
      split_and!; try done.
      intros (ld' & Hld' & lf0 & Hlf0 & _ & Hne).
      assert (ld' = ld) as -> by congruence.
      assert (lf0 = lf) as -> by congruence.
      rewrite Hrun in Hne. simpl in Hne. by apply Hchange.
  - case_bool_decide.
    + eexists. split; [done|]. simpl.
      split_and!; try done; try apply polled_refl.
    + eexists. split; [done|].
      split_and!; try done; try apply polled_refl;
        try (intros (ld' & Hld' & lf' & Hlf' & _); congruence).
Qed.

Lemma poll_files_spec env index slots : ∀ st,
  files_ok (ps_files st) →
  Forall (entry_in_range (ps_files st)) index →
  NoDup slots →
  (∀ i, i ∈ slots → i < length (ps_files st)) →
  (∀ i ld, i ∈ slots → ps_files st !! i = Some ld →
           slot_observation_ok env i ld) →
  ∃ st',
    poll_files env index slots st = Ok st'
    ∧ files_ok (ps_files st')
    ∧ polled (ps_files st) (ps_files st')
    ∧ (ps_retval st ≠ rr_no_change → ps_retval st' ≠ rr_no_change)
    ∧ (∀ i ld, i ∈ slots → ps_files st !! i = Some ld →
               reports_change env i ld → ps_retval st' ≠ rr_no_change).
Proof.
  induction slots as [|i slots IH]; intros st Hok Hindex Hnodup Hlen Hobs.
  - exists st. simpl. split_and!; try done; try apply polled_refl.
    intros i ld Hin. by apply elem_of_nil in Hin.
  - apply NoDup_cons in Hnodup as [Hfresh Hnodup].
    destruct (poll_file_spec env index i st)
      as (st1 & Hrun & Hok1 & Hp1 & Hother & Hmono & Hchange);
      [done | done | apply Hlen; left | intros; eapply Hobs; [left | done] |].
    destruct (IH st1) as (st' & Hrun' & Hok' & Hp' & Hmono' & Hchange').
    { done. }
    { eapply Forall_impl; [exact Hindex|]. intros cl.
      by apply entry_in_range_polled. }
    { done. }
    { intros j Hj. rewrite <- (Forall2_length _ _ _ Hp1). apply Hlen. by right. }
    { intros j ld Hj Hld. rewrite Hother in Hld by (intros ->; done).
      eapply Hobs; [by right | done]. }
    exists st'. simpl. rewrite Hrun. simpl.
    split_and!; try done.
    + eapply polled_trans; done.
    + tauto.
    + intros j ld [->|Hj]%elem_of_cons Hld Hrep.
      * apply Hmono', Hchange. eauto.
      * eapply Hchange'; [done| |done].
        rewrite Hother by (intros ->; done). done.
Qed.

(** ** The filter loop *)

(** The loop appends, in increasing order, positions taken from the range
    it walks, each cast to [uint32_t]. *)
Lemma filter_lines_appends lss files fin fout entries : ∀ k filtered out,
  filter_lines lss files fin fout entries k filtered = Ok out →
  ∃ js : list nat,
    out = filtered ++ map (λ j, uint32 (Z.of_nat j)) js
    ∧ StronglySorted lt js
    ∧ Forall (λ j, k ≤ j < k + length entries) js.
Proof.
  induction entries as [|cl entries IH]; intros k filtered out; simpl.
  - intros [= <-]. exists []. rewrite app_nil_r. repeat constructor.
  - intros ([ld line] & _ & Hrest)%bind_Ok.
    apply bind_Ok in Hrest as (lf & _ & Hrest).
    apply bind_Ok in Hrest as (ex & _ & Hrest).
    apply bind_Ok in Hrest as (keep & _ & Hrest).
    apply IH in Hrest as (js & -> & Hsorted & Hrange).
    assert (Forall (λ j, k ≤ j < k + S (length entries)) js) as Hrange'.
    { eapply Forall_impl; [exact Hrange|]. simpl. lia. }
    destruct keep.
    + exists (k :: js). rewrite <- app_assoc. split; [done|]. split.
      * constructor; [done|]. eapply Forall_impl; [exact Hrange|]. simpl. lia.
      * constructor; [lia | done].
    + exists js. done.
Qed.

Lemma filter_lines_total lss files fin fout entries : ∀ k filtered,
  files_ok files → Forall (entry_attached files) entries →
  ∃ out, filter_lines lss files fin fout entries k filtered = Ok out.
Proof.
  induction entries as [|cl entries IH]; intros k filtered Hok Hentries; simpl.
  - eauto.
  - apply Forall_cons in Hentries as [(H0 & ld & lf & Hld & Hlf & Hline) Hrest].
    unfold find_data. rewrite (at_index_Some _ _ _ Hld). simpl.
    rewrite Hlf. simpl.
    destruct (Hok _ _ Hld) as [_ Hfile].
    destruct (Hfile lf Hlf) as (Hle & _ & Hmask).
    unfold excluded.
    destruct (lookup_lt_is_Some_2 (tfs_mask (ld_filter_state ld))
                (Z.to_nat (cl mod MAX_LINES_PER_FILE))) as [m Hm]; [lia|].
    rewrite (at_index_Some _ _ _ Hm). simpl.
    destruct (lookup_lt_is_Some_2 (lf_loglines lf)
                (Z.to_nat (cl mod MAX_LINES_PER_FILE))) as [ll Hll].
    { unfold logfile_size in Hle. lia. }
    rewrite (at_index_Some _ _ _ Hll).
    match goal with
    | |- context [if ?c then Ok false else _] => destruct c
    end; simpl; by apply IH.
Qed.

(** ** rebuild_index *)

Section RebuildIndexFacts.

Context (std_sort :
  (content_line_t → content_line_t → bool) →
  list content_line_t → list content_line_t).

Lemma extend_index_effect env lss lss' :
  extend_index std_sort env false lss = Ok lss' →
  (∃ new, lss_index lss' = lss_index lss ++ new)
  ∧ appended_rows (length (lss_index lss)) (length (lss_index lss'))
      (lss_filtered_index lss) (lss_filtered_index lss').
Proof.
  unfold extend_index.
  destruct (measure_files _ _) as [[longest basename] filename].
  intros ([files' index'] & Hmerge & Hrest)%bind_Ok.
  apply bind_Ok in Hmerge as (merge & _ & Hloop).
  apply merge_loop_frame in Hloop as (_ & new & ->).
  destruct (enabled_mask env) as [fin fout].
  apply bind_Ok in Hrest as (filtered & Hfilter & [= <-]). simpl.
  split; [eauto|].
  rewrite drop_app_length in Hfilter.
  apply filter_lines_appends in Hfilter as (js & -> & Hsorted & Hrange).
  exists js. split; [done|]. split; [done|].
  by rewrite length_app.
Qed.

(** Whatever the files report, a call that returns only appends to the two
    indexes and never returns [rr_full_rebuild]. *)
Lemma rebuild_index_effect env lss lss' r :
  rebuild_index std_sort env lss = Ok (lss', r) →
  r ≠ rr_full_rebuild
  ∧ (∃ new, lss_index lss' = lss_index lss ++ new)
  ∧ appended_rows (length (lss_index lss)) (length (lss_index lss'))
      (lss_filtered_index lss) (lss_filtered_index lss').
Proof.
  unfold rebuild_index. intros (st & _ & Hrest)%bind_Ok.
  unfold never_force in Hrest. simpl in Hrest.
  rewrite !andb_false_r, andb_true_r in Hrest.
  apply bind_Ok in Hrest as (lss2 & Hext & [= <- <-]).
  split; [case (bool_decide_reflect (ps_retval st = rr_full_rebuild)); done|].
  match type of Hext with
  | (if ?c then _ else _) = _ => destruct c
  end.
  - apply extend_index_effect in Hext. done.
  - injection Hext as <-. simpl. split.
    + exists []. by rewrite app_nil_r.
    + exists []. rewrite app_nil_r. repeat constructor.
Qed.

Lemma extend_index_total env lss :
  lss_wf lss →
  ∃ lss', extend_index std_sort env false lss = Ok lss' ∧ lss_wf lss'.
Proof.
  intros [Hok Hindex]. unfold extend_index.
  destruct (measure_files _ _) as [[longest basename] filename].
  destruct (merge_runs_spec (lss_files lss) (lss_index lss))
    as (merge & files' & index' & Hadd & Hloop & Hspec);
    [by apply files_ok_fit|].
  rewrite Hadd, bind_ret_Ok. cbv beta iota. rewrite Hloop, bind_ret_Ok.
  cbv beta iota.
  destruct (spec_merge_entries _ _ _ _ Hspec Hok) as (Hok' & new & -> & Hnew).
  destruct (spec_merge_frame _ _ _ _ Hspec) as [Hsame _].
  destruct (enabled_mask env) as [fin fout].
  rewrite drop_app_length.
  destruct (filter_lines_total lss files' fin fout new
              (length (lss_index lss)) (lss_filtered_index lss) Hok' Hnew)
    as [filtered ->].
  simpl. eexists. split; [done|]. split; simpl; [done|].
  apply Forall_app. split.
  - eapply Forall_impl; [exact Hindex|]. intros cl.
    by apply entry_in_range_same.
  - eapply Forall_impl; [exact Hnew|]. intros cl.
    apply entry_attached_in_range.
Qed.

(** On a well-formed sub-source whose files re-observe themselves sanely,
    the call returns; the result is well formed again, and it is
    [rr_appended_lines] as soon as one file reports a change. *)
Lemma rebuild_index_total env lss :
  lss_wf lss →
  observation_ok env (lss_files lss) →
  ∃ lss' r,
    rebuild_index std_sort env lss = Ok (lss', r)
    ∧ lss_wf lss'
    ∧ ((∃ i ld, lss_files lss !! i = Some ld ∧ reports_change env i ld) →
       r = rr_appended_lines).
Proof.
  intros [Hok Hindex] Hobs. unfold rebuild_index.
  match goal with
  | |- context [poll_files env _ _ ?st0] =>
      destruct (poll_files_spec env (lss_index lss)
                  (seq 0 (length (lss_files lss))) st0)
        as (st & Hpoll & Hok1 & Hpolled & _ & Hchange)
  end; simpl.
  { done. }
  { done. }
  { apply NoDup_seq. }
  { intros i Hi%elem_of_seq. lia. }
  { intros i ld _ Hld. by eapply Hobs. }
  simpl in Hpoll. rewrite Hpoll. simpl.
  unfold never_force. simpl. rewrite !andb_false_r, andb_true_r.
  assert (Forall (entry_in_range (ps_files st)) (lss_index lss)) as Hindex1.
  { eapply Forall_impl; [exact Hindex|]. intros cl.
    by apply entry_in_range_polled. }
  assert (∀ lss2 : logfile_sub_source,
            ((∃ i ld, lss_files lss !! i = Some ld ∧ reports_change env i ld) →
             (if bool_decide (ps_retval st = rr_full_rebuild)
              then rr_appended_lines else ps_retval st) = rr_appended_lines))
    as Hret.
  { intros _ (i & ld & Hld & Hrep).
    assert (ps_retval st ≠ rr_no_change) as Hne.
    { eapply Hchange; [|done|done]. apply elem_of_seq.
      apply lookup_lt_Some in Hld. lia. }
    case_bool_decide; [done|]. by destruct (ps_retval st). }
  match goal with
  | |- context [if ?c then extend_index _ _ _ ?s else _] =>
      destruct c;
      [destruct (extend_index_total env s) as (lss2 & Hext & Hwf2);
         [by split|]
      |]
  end.
  - rewrite Hext. simpl. eexists _, _. split; [done|]. split; [done|].
    by apply Hret.
  - simpl. eexists _, _. split; [done|]. split; [by split|].
    by apply Hret.
Qed.

End RebuildIndexFacts.

(** ** Fuel

    The only loop that the model bounds with fuel is the merge loop, and
    [rebuild_index] gives it more fuel than the merge tree has lines: a
    call never ends for want of fuel. *)

Lemma in_fuel_bind {A B : Type} (m : result A) (f : A → result B) :
  m ≠ OutOfFuel → (∀ a, m = Ok a → f a ≠ OutOfFuel) → m ≫= f ≠ OutOfFuel.
Proof. destruct m; simpl; [auto | done | done]. Qed.

Lemma in_fuel_at_index {A : Type} (v : list A) (i : nat) :
  at_index v i ≠ OutOfFuel.
Proof. unfold at_index. by destruct (v !! i). Qed.

Lemma in_fuel_require (c : bool) : require c ≠ OutOfFuel.
Proof. by destruct c. Qed.

Lemma in_fuel_deref {A : Type} (p : option A) : deref p ≠ OutOfFuel.
Proof. by destruct p. Qed.

Lemma in_fuel_find_line files cl : find_line files cl ≠ OutOfFuel.
Proof.
  unfold find_line, find_data.
  apply in_fuel_bind; [apply in_fuel_bind; [apply in_fuel_at_index | done]|].
  intros [ld line] _. destruct (get_file ld); [|done].
  apply in_fuel_bind; [apply in_fuel_at_index | done].
Qed.

Lemma in_fuel_classify_new_lines files index lf lines_indexed force retval :
  classify_new_lines files index lf lines_indexed force retval ≠ OutOfFuel.
Proof.
  unfold classify_new_lines. destruct (last index); [|done].
  apply in_fuel_bind; [apply in_fuel_find_line|].
  intros [last_ll|] _; [|done].
  apply in_fuel_bind; [apply in_fuel_at_index|].
  intros ll _. by destruct (logline_lt ll last_ll).
Qed.

Lemma in_fuel_poll_file env index i st : poll_file env index i st ≠ OutOfFuel.
Proof.
  unfold poll_file. apply in_fuel_bind; [apply in_fuel_at_index|].
  intros ld _. destruct (get_file ld) as [lf|]; [|by case_bool_decide].
  destruct (negb (is_paused env)); [|done].
  destruct (lf_rebuild_index env i lf (ld_filter_state ld)) as [[observed lf'] fs'].
  apply in_fuel_bind; [|by intros [force' retval'] _].
  match goal with
  | |- match ?r with _ => _ end ≠ _ => destruct r
  end; try done; apply in_fuel_classify_new_lines.
Qed.

Lemma in_fuel_poll_files env index slots : ∀ st,
  poll_files env index slots st ≠ OutOfFuel.
Proof.
  induction slots as [|i slots IH]; intros st; simpl; [done|].
  apply in_fuel_bind; [apply in_fuel_poll_file | intros; apply IH].
Qed.

Lemma in_fuel_filter_lines lss files fin fout entries : ∀ k filtered,
  filter_lines lss files fin fout entries k filtered ≠ OutOfFuel.
Proof.
  induction entries as [|cl entries IH]; intros k filtered; simpl; [done|].
  apply in_fuel_bind.
  { unfold find_data. apply in_fuel_bind; [apply in_fuel_at_index | done]. }
  intros [ld line] _. apply in_fuel_bind; [apply in_fuel_deref|].
  intros lf _. apply in_fuel_bind.
  { unfold excluded. apply in_fuel_bind; [apply in_fuel_at_index | done]. }
  intros ex _. apply in_fuel_bind.
  { destruct ex; [done|]. apply in_fuel_bind; [apply in_fuel_at_index | done]. }
  intros keep _. apply IH.
Qed.

Lemma merge_add_files_Ok files : ∀ slot merge merge',
  merge_add_files files slot merge = Ok merge' →
  files_fit files ∧ merge' = merge ++ ranges_from slot files.
Proof.
  induction files as [|ld rest IH]; intros slot merge merge'; simpl.
  - intros [= <-]. split; [|by rewrite app_nil_r].
    intros ld lf Hin. by apply elem_of_nil in Hin.
  - destruct (get_file ld) as [lf|] eqn:Hlf.
    + intros (_ & Hle%require_Ok%bool_decide_eq_true & Hrest)%bind_Ok.
      assert (∀ merge0, merge_add_files rest (S slot) merge0 = Ok merge' →
                files_fit (ld :: rest)) as Hfit.
      { intros merge0 [Hfit _]%IH ld' lf' [->|Hin]%elem_of_cons Hlf'.
        - assert (lf' = lf) as -> by congruence. done.
        - by apply Hfit. }
      repeat case_bool_decide; try lia.
      * split; [by eapply Hfit|]. by apply IH in Hrest as [_ ->].
      * split; [by eapply Hfit|]. apply IH in Hrest as [_ ->].
        unfold kmerge_add. by rewrite <- app_assoc.
    + intros Hrest. pose proof Hrest as [Hfit ->]%IH. split; [|done].
      intros ld' lf' [->|Hin]%elem_of_cons Hlf'; [congruence|].
      by apply Hfit.
Qed.

Lemma in_fuel_merge_add_files files : ∀ slot merge,
  merge_add_files files slot merge ≠ OutOfFuel.
Proof.
  induction files as [|ld rest IH]; intros slot merge; simpl; [done|].
  destruct (get_file ld); [|apply IH].
  apply in_fuel_bind; [apply in_fuel_require|].
  intros _ _. case_bool_decide; apply IH.
Qed.

Lemma in_fuel_rebuild_index std_sort env lss :
  rebuild_index std_sort env lss ≠ OutOfFuel.
Proof.
  unfold rebuild_index. apply in_fuel_bind; [apply in_fuel_poll_files|].
  intros st _. unfold never_force. simpl. rewrite !andb_false_r.
  apply in_fuel_bind; [|done].
  match goal with
  | |- (if ?c then _ else _) ≠ _ => destruct c; [|done]
  end.
  unfold extend_index. destruct (measure_files _ _) as [[longest basename] filename].
  apply in_fuel_bind.
  - apply in_fuel_bind; [apply in_fuel_merge_add_files|].
    intros merge [Hfit Hmerge]%merge_add_files_Ok.
    rewrite app_nil_l in Hmerge. subst merge.
    match goal with
    | |- merge_loop ?fuel ?m ?fs ?ix ≠ _ =>
        destruct (merge_loop_runs_spec fuel m fs ix) as (files' & index' & Hrun & _)
    end.
    + apply ranges_from_agrees.
    + lia.
    + by rewrite Hrun.
  - intros [files' index'] _. destruct (enabled_mask env) as [fin fout].
    apply in_fuel_bind; [apply in_fuel_filter_lines | done].
Qed.

(** ** The invariants of the two indexes *)

Lemma appended_rows_ok (before after : nat) (filtered filtered' : list Z) :
  (Z.of_nat after ≤ 2 ^ 32)%Z →
  before ≤ after →
  StronglySorted Z.lt filtered →
  Forall (λ row, (0 ≤ row < Z.of_nat before)%Z) filtered →
  appended_rows before after filtered filtered' →
  StronglySorted Z.lt filtered'
  ∧ Forall (λ row, (0 ≤ row < Z.of_nat after)%Z) filtered'.
Proof.
  intros Hbound Hle Hsorted Hrange (js & -> & Hjs & Hin).
  assert (map (λ j, uint32 (Z.of_nat j)) js = map Z.of_nat js) as ->.
  { apply map_ext_Forall. eapply Forall_impl; [exact Hin|]. simpl.
    intros j Hj. unfold uint32. apply Z.mod_small. lia. }
  rewrite Forall_forall in Hrange. rewrite Forall_forall in Hin. split.
  - apply StronglySorted_app_2.
    + intros x1 x2 Hx1 (j & -> & Hj)%list_elem_of_fmap.
      specialize (Hrange x1 Hx1). specialize (Hin j Hj). simpl in *. lia.
    + done.
    + clear Hin. induction Hjs as [|j js Hjs IH Hall]; [constructor|].
      simpl. constructor; [done|].
      apply Forall_fmap. eapply Forall_impl; [exact Hall|]. simpl. lia.
  - apply Forall_app. split.
    + apply Forall_forall. intros x Hx. specialize (Hrange x Hx). simpl in *. lia.
    + apply Forall_fmap, Forall_forall. intros j Hj.
      specialize (Hin j Hj). simpl in *. lia.
Qed.

Lemma text_filters_changed_effect env lss lss' :
  text_filters_changed env lss = Ok lss' →
  lss_index lss' = lss_index lss
  ∧ appended_rows 0 (length (lss_index lss)) [] (lss_filtered_index lss').
Proof.
  unfold text_filters_changed. destruct (enabled_mask env) as [fin fout].
  intros (filtered & Hfilter & [= <-])%bind_Ok. simpl. split; [done|].
  apply filter_lines_appends in Hfilter as (js & -> & Hsorted & Hrange).
  exists js. done.
Qed.

Lemma lss_step_index_grows std_sort lss lss' :
  lss_step std_sort lss lss' →
  length (lss_index lss) ≤ length (lss_index lss').
Proof.
  intros [env s s' r Hrun|env s s' Hrun|s s' Hindex _].
  - apply rebuild_index_effect in Hrun as (_ & (new & ->) & _).
    rewrite length_app. lia.
  - apply text_filters_changed_effect in Hrun as [-> _]. done.
  - by rewrite Hindex.
Qed.

Lemma lss_step_filtered_index_ok std_sort lss lss' :
  (Z.of_nat (length (lss_index lss')) ≤ 2 ^ 32)%Z →
  lss_step std_sort lss lss' →
  filtered_index_ok lss → filtered_index_ok lss'.
Proof.
  intros Hbound Hstep [Hsorted Hrange].
  pose proof (lss_step_index_grows _ _ _ Hstep) as Hgrow.
  destruct Hstep as [env s s' r Hrun|env s s' Hrun|s s' Hindex Hfiltered].
  - apply rebuild_index_effect in Hrun as (_ & _ & Happ).
    by eapply appended_rows_ok.
  - apply text_filters_changed_effect in Hrun as [Hindex Happ].
    unfold filtered_index_ok. rewrite Hindex.
    eapply appended_rows_ok; [|apply Nat.le_0_l|constructor|constructor|done].
    by rewrite <- Hindex.
  - unfold filtered_index_ok. by rewrite Hindex, Hfiltered.
Qed.

(** C6: in every state the sub-source reaches through calls of
    [rebuild_index] and [text_filters_changed], FilteredIndex is strictly
    increasing and each of its entries is below the length of GlobalIndex,
    as long as GlobalIndex holds at most 2^32 entries, the positions that
    the [uint32_t] entries of FilteredIndex can tell apart. *)
Theorem filtered_index_increasing_and_in_range
    (std_sort : (content_line_t → content_line_t → bool) →
                list content_line_t → list content_line_t)
    (lss : logfile_sub_source) :
  reachable std_sort lss →
  (Z.of_nat (length (lss_index lss)) ≤ 2 ^ 32)%Z →
  filtered_index_ok lss.
Proof.
  induction 1 as [|lss lss' _ IH Hstep]; intros Hbound.
  - split; simpl; constructor.
  - eapply lss_step_filtered_index_ok; [done..|].
    apply IH. apply lss_step_index_grows in Hstep. lia.
Qed.

(** C5: when [rebuild_index] returns [rr_appended_lines], GlobalIndex is
    its value before the call followed by the new entries, so the prefix
    of the previous size is unchanged. *)
Theorem appended_keeps_global_index_prefix
    (std_sort : (content_line_t → content_line_t → bool) →
                list content_line_t → list content_line_t)
    (env : collaborators) (lss lss' : logfile_sub_source) :
  rebuild_index std_sort env lss = Ok (lss', rr_appended_lines) →
  (∃ new, lss_index lss' = lss_index lss ++ new)
  ∧ take (length (lss_index lss)) (lss_index lss') = lss_index lss.
Proof.
  intros (_ & (new & Hnew) & _)%rebuild_index_effect.
  split; [eauto|]. rewrite Hnew. apply take_app_length.
Qed.

(** C4: in the incremental path the loop of the program runs the merge of
    the specification: every round appends the ContentLine of a least head
    and advances that file.  It always returns, and when some file takes
    part it returns at the last line of one of them: that file is consumed
    and its last line is the last entry, while every other file that took
    part still has its head, left for the next pass. *)
Theorem merge_stops_when_a_file_is_consumed
    (files : list logfile_data) (index : list content_line_t) :
  files_fit files →
  ∃ merge files' index',
    merge_add_files files 0 [] = Ok merge
    ∧ merge_loop (S (kmerge_remaining merge)) merge files index
      = Ok (files', index')
    ∧ spec_merge files index files' index'
    ∧ ((∃ o, participates files o) →
       ∃ o ld lf,
         participates files o
         ∧ files' !! o = Some ld ∧ get_file ld = Some lf
         ∧ ld_lines_indexed ld = logfile_size lf
         ∧ last index'
           = Some (con_line (ld_file_index ld) (logfile_size lf - 1))
         ∧ ∀ o', o' ≠ o → participates files o' → participates files' o').
Proof.
  intros Hfit.
  destruct (merge_runs_spec files index Hfit)
    as (merge & files' & index' & Hadd & Hloop & Hspec).
  exists merge, files', index'. split_and!; try done.
  by eapply spec_merge_stops.
Qed.

(** What the constant [never_force] does to a forced rebuild: on a
    well-formed sub-source whose files re-observe themselves sanely, a call in which
    some file reports [RR_NEW_ORDER] or [RR_INVALID], or [RR_NEW_LINES] with
    a first new line older than the tail of GlobalIndex, sets
    [rr_full_rebuild] and still returns [rr_appended_lines], with
    GlobalIndex extended, not rebuilt. *)
Lemma reordered_append_returns_appended
    (std_sort : (content_line_t → content_line_t → bool) →
                list content_line_t → list content_line_t)
    (env : collaborators) (lss : logfile_sub_source) :
  lss_wf lss →
  observation_ok env (lss_files lss) →
  forces_full_rebuild env lss →
  ∃ lss', rebuild_index std_sort env lss = Ok (lss', rr_appended_lines)
          ∧ ∃ new, lss_index lss' = lss_index lss ++ new.
Proof.
  intros Hwf Hobs (i & ld & lf & observed & lf' & fs' & Hld & Hlf & Hrun
                   & Hobserved & Hcase).
  destruct (rebuild_index_total std_sort env lss Hwf Hobs)
    as (lss' & r & Hcall & _ & Hret).
  rewrite Hret in Hcall.
  - exists lss'. split; [done|].
    by apply rebuild_index_effect in Hcall as (_ & Hnew & _).
  - exists i, ld. split; [done|]. exists lf. split_and!; try done.
    rewrite Hobserved. simpl. destruct Hcase as [->|[->|[-> _]]]; done.
Qed.

(** ** Location history *)

(** C9: a row at or past [text_line_count()] leaves the history as it is:
    nothing is appended, no forward entry is dropped and the cursor stays.
    The row is an [int], so it is below 2^31. *)
Theorem loc_history_append_out_of_range
    (lss : logfile_sub_source) (h : log_location_history) (top : vis_line_t) :
  (Z.of_nat (text_line_count lss) ≤ top)%Z →
  (top < 2 ^ 31)%Z →
  loc_history_append lss h top = Ok h.
Proof.
  intros Hge Hint. unfold loc_history_append, size_t_of_int.
  rewrite Z.mod_small by lia.
  by rewrite bool_decide_eq_true_2.
Qed.

(** ** Bookmarks *)

Lemma elem_of_insert_once (v : list Z) (vl x : Z) :
  x ∈ insert_once v vl ↔ x = vl ∨ x ∈ v.
Proof.
  induction v as [|y v IH]; simpl.
  - rewrite list_elem_of_singleton. split; [by left|].
    intros [->|H]; [done | by apply elem_of_nil in H].
  - destruct (vl <? y)%Z eqn:Hlt; [by rewrite elem_of_cons|].
    destruct (vl =? y)%Z eqn:Heq.
    + apply Z.eqb_eq in Heq as ->. rewrite elem_of_cons. tauto.
    + rewrite !elem_of_cons, IH. tauto.
Qed.

Lemma bm_get_insert_once bm ty ty' (vl x : Z) :
  x ∈ bm_get (bm_insert_once bm ty vl) ty'
  ↔ (ty = ty' ∧ x = vl) ∨ x ∈ bm_get bm ty'.
Proof.
  unfold bm_insert_once, bm_get. destruct (decide (ty = ty')) as [->|Hne].
  - rewrite lookup_insert_eq. simpl. rewrite elem_of_insert_once. tauto.
  - rewrite lookup_insert_ne by done. split; [by right|].
    intros [[? _]|?]; done.
Qed.

Lemma bm_get_insert_once_ne bm ty ty' (vl : Z) :
  ty ≠ ty' → bm_get (bm_insert_once bm ty vl) ty' = bm_get bm ty'.
Proof.
  intros Hne. unfold bm_insert_once, bm_get. by rewrite lookup_insert_ne.
Qed.

Lemma bm_get_clear bm ty ty' :
  bm_get (bm_clear bm ty) ty' = if decide (ty = ty') then [] else bm_get bm ty'.
Proof.
  unfold bm_clear, bm_get. case_decide as H.
  - subst. by rewrite lookup_insert_eq.
  - by rewrite lookup_insert_ne.
Qed.

Lemma mark_line_kind files slot line files' :
  mark_line files slot line = Ok files' →
  ∀ s l, line_kind files' s l = line_kind files s l.
Proof.
  unfold mark_line.
  intros (ld & Hld%at_index_Ok & Hrest)%bind_Ok.
  apply bind_Ok in Hrest as (lf & Hlf%deref_Ok & Hrest).
  apply bind_Ok in Hrest as (ll & Hll%at_index_Ok & [= <-]).
  intros s l. unfold line_kind.
  destruct (decide (s = slot)) as [->|Hne].
  - rewrite list_lookup_insert_eq by (by eapply lookup_lt_Some).
    rewrite Hld. simpl. unfold get_file in *. simpl. rewrite Hlf. simpl.
    destruct (decide (l = line)) as [->|Hne].
    + rewrite list_lookup_insert_eq by (by eapply lookup_lt_Some).
      rewrite Hll. done.
    + by rewrite list_lookup_insert_ne.
  - by rewrite list_lookup_insert_ne.
Qed.

Lemma apply_user_marks_effect user_marks orig_cl vl slot line :
  ∀ files bm files' bm',
  apply_user_marks user_marks orig_cl vl slot line files bm = Ok (files', bm') →
  (∀ s l, line_kind files' s l = line_kind files s l)
  ∧ ∀ ty, ty ∉ user_marks.*1 → bm_get bm' ty = bm_get bm ty.
Proof.
  induction user_marks as [|[ty marked] rest IH]; intros files bm files' bm';
    simpl.
  - intros [= <- <-]. done.
  - case_bool_decide.
    + intros (files1 & Hmark & Hrest)%bind_Ok.
      apply IH in Hrest as [Hkind Hbm]. split.
      * intros s l. rewrite Hkind. case_bool_decide.
        -- by eapply mark_line_kind.
        -- by injection Hmark as <-.
      * intros ty' Hnotin. apply not_elem_of_cons in Hnotin as [Hne Hnotin].
        rewrite Hbm by done. by apply bm_get_insert_once_ne.
    + intros Hrest. apply IH in Hrest as [Hkind Hbm]. split; [done|].
      intros ty' Hnotin. apply not_elem_of_cons in Hnotin as [Hne Hnotin].
      by apply Hbm.
Qed.

Lemma mark_level_warnings bm ll vl (x : Z) :
  x ∈ bm_get (mark_level bm ll vl) BM_WARNINGS
  ↔ (x = vl ∧ is_continued ll = false ∧ get_msg_level ll = LEVEL_WARNING)
    ∨ x ∈ bm_get bm BM_WARNINGS.
Proof.
  unfold mark_level. destruct (is_continued ll); simpl.
  - split; [by right|]. intros [(_ & ? & _)|?]; done.
  - destruct (get_msg_level ll); rewrite ?bm_get_insert_once;
      unfold BM_WARNINGS, BM_ERRORS;
      intuition (discriminate || congruence).
Qed.

Lemma mark_level_errors bm ll vl (x : Z) :
  x ∈ bm_get (mark_level bm ll vl) BM_ERRORS
  ↔ (x = vl ∧ is_continued ll = false
     ∧ is_error_level (get_msg_level ll) = true)
    ∨ x ∈ bm_get bm BM_ERRORS.
Proof.
  unfold mark_level. destruct (is_continued ll); simpl.
  - split; [by right|]. intros [(_ & ? & _)|?]; done.
  - destruct (get_msg_level ll); simpl; rewrite ?bm_get_insert_once;
      unfold BM_WARNINGS, BM_ERRORS;
      intuition (discriminate || congruence).
Qed.

Section UpdateMarks.

Context (lss : logfile_sub_source)
        (user_marks : list (bookmark_type_t * list content_line_t)).
Hypothesis user_marks_not_warnings : BM_WARNINGS ∉ user_marks.*1.
Hypothesis user_marks_not_errors : BM_ERRORS ∉ user_marks.*1.

Lemma update_marks_row_effect row st st' :
  (∀ s l, line_kind (ms_files st) s l = line_kind (lss_files lss) s l) →
  update_marks_row lss user_marks row st = Ok st' →
  (∀ s l, line_kind (ms_files st') s l = line_kind (lss_files lss) s l)
  ∧ ∃ continued level,
      row_kind lss row = Some (continued, level)
      ∧ (∀ x, x ∈ bm_get (ms_bm st') BM_WARNINGS
              ↔ (x = Z.of_nat row ∧ continued = false ∧ level = LEVEL_WARNING)
                ∨ x ∈ bm_get (ms_bm st) BM_WARNINGS)
      ∧ (∀ x, x ∈ bm_get (ms_bm st') BM_ERRORS
              ↔ (x = Z.of_nat row ∧ continued = false
                 ∧ is_error_level level = true)
                ∨ x ∈ bm_get (ms_bm st) BM_ERRORS).
Proof.
  intros Hkinds. unfold update_marks_row.
  intros (orig_cl & Hat & Hrest)%bind_Ok.
  apply bind_Ok in Hrest as ([[slot lf] cl] & Hfind & Hrest).
  unfold find in Hfind.
  apply bind_Ok in Hfind as (ld0 & _ & [= <- <- <-]).
  apply bind_Ok in Hrest as ([files1 bm1] & Hmarks & Hrest).
  apply apply_user_marks_effect in Hmarks as [Hkind1 Hbm1].
  apply bind_Ok in Hrest as (ld & Hld%at_index_Ok & Hrest).
  apply bind_Ok in Hrest as (lf1 & Hlf1%deref_Ok & Hrest).
  apply bind_Ok in Hrest as (line_iter & Hline%at_index_Ok & [= <-]).
  simpl. split.
  { intros s l. by rewrite Hkind1. }
  exists (is_continued line_iter), (get_msg_level line_iter). split.
  { unfold row_kind. rewrite Hat. rewrite <- Hkinds, <- Hkind1.
    unfold line_kind. rewrite Hld. simpl. rewrite Hlf1. simpl.
    by rewrite Hline. }
  split; intros x.
  - rewrite mark_level_warnings.
    case_bool_decide;
      rewrite ?bm_get_insert_once_ne by done; by rewrite Hbm1.
  - rewrite mark_level_errors.
    case_bool_decide;
      rewrite ?bm_get_insert_once_ne by done; by rewrite Hbm1.
Qed.

Lemma update_marks_rows_effect rows : ∀ st st',
  (∀ s l, line_kind (ms_files st) s l = line_kind (lss_files lss) s l) →
  update_marks_rows lss user_marks rows st = Ok st' →
  (∀ x, x ∈ bm_get (ms_bm st') BM_WARNINGS
        ↔ (∃ row, row ∈ rows ∧ x = Z.of_nat row
                  ∧ row_kind lss row = Some (false, LEVEL_WARNING))
          ∨ x ∈ bm_get (ms_bm st) BM_WARNINGS)
  ∧ (∀ x, x ∈ bm_get (ms_bm st') BM_ERRORS
          ↔ (∃ row level, row ∈ rows ∧ x = Z.of_nat row
                          ∧ row_kind lss row = Some (false, level)
                          ∧ is_error_level level = true)
            ∨ x ∈ bm_get (ms_bm st) BM_ERRORS).
Proof.
  induction rows as [|row rows IH]; intros st st' Hkinds; simpl.
  - intros [= <-]. split; intros x; (split; [by right|]).
    + intros [(row & Hin & _)|?]; [by apply elem_of_nil in Hin | done].
    + intros [(row & level & Hin & _)|?]; [by apply elem_of_nil in Hin | done].
  - intros (st1 & Hrow & Hrest)%bind_Ok.
    apply update_marks_row_effect in Hrow
      as (Hkinds1 & continued & level & Hkind & Hw & He); [|done].
    apply IH in Hrest as [Hw' He']; [|done].
    split; intros x.
    + rewrite Hw', Hw. split.
      * intros [(r & Hin & Hx & Hk)|[(Hx & -> & ->)|Hold]].
        -- left. exists r. split; [by right | done].
        -- left. exists row. split; [by left | done].
        -- by right.
      * intros [(r & [->|Hin]%elem_of_cons & Hx & Hk)|Hold].
        -- right. left. rewrite Hkind in Hk. injection Hk as -> ->.
           by split_and!.
        -- left. eauto.
        -- right. by right.
    + rewrite He', He. split.
      * intros [(r & l & Hin & Hx & Hk & Hl)|[(Hx & -> & Hl)|Hold]].
        -- left. exists r, l. split; [by right | done].
        -- left. exists row, level. split; [by left |]. by split_and!.
        -- by right.
      * intros [(r & l & [->|Hin]%elem_of_cons & Hx & Hk & Hl)|Hold].
        -- right. left. rewrite Hkind in Hk. injection Hk as -> ->.
           by split_and!.
        -- left. exists r, l. by split_and!.
        -- right. by right.
Qed.

Lemma cleared_marks_empty bm ty :
  (ty = BM_WARNINGS ∨ ty = BM_ERRORS) →
  bm_get
    (foldl (λ b um, bm_clear b um.1)
       (bm_clear (bm_clear (bm_clear bm BM_WARNINGS) BM_ERRORS) BM_FILES)
       user_marks) ty = [].
Proof.
  intros Hty.
  assert (∀ l b, bm_get b ty = [] →
                 bm_get (foldl (λ b um, bm_clear b um.1) b
                           (l : list (string * list Z))) ty = []) as Hfold.
  { induction l as [|um l IH]; intros b Hb; simpl; [done|].
    apply IH. rewrite bm_get_clear. by case_decide. }
  apply Hfold. rewrite !bm_get_clear.
  destruct Hty as [-> | ->]; repeat case_decide; done.
Qed.

End UpdateMarks.

(** C10, as the code has it: provided no user mark is filed under the
    error or the warning type, after [text_update_marks] a row is in
    [BM_WARNINGS] iff its line
    is not a continuation and has level WARNING, and in [BM_ERRORS] iff its
    line is not a continuation and has level ERROR, CRITICAL or FATAL; so a
    row over a continuation line is in neither set. *)
Theorem text_update_marks_by_level
    (lss : logfile_sub_source)
    (user_marks : list (bookmark_type_t * list content_line_t))
    (bm bm' : gmap bookmark_type_t (list vis_line_t))
    (files' : list logfile_data) :
  BM_WARNINGS ∉ user_marks.*1 →
  BM_ERRORS ∉ user_marks.*1 →
  text_update_marks lss user_marks bm = Ok (files', bm') →
  (∀ vl : vis_line_t,
     vl ∈ bm_get bm' BM_WARNINGS
     ↔ ∃ row, row < text_line_count lss ∧ vl = Z.of_nat row
              ∧ row_kind lss row = Some (false, LEVEL_WARNING))
  ∧ (∀ vl : vis_line_t,
       vl ∈ bm_get bm' BM_ERRORS
       ↔ ∃ row level, row < text_line_count lss ∧ vl = Z.of_nat row
                      ∧ row_kind lss row = Some (false, level)
                      ∧ is_error_level level = true)
  ∧ (∀ row level,
       row_kind lss row = Some (true, level) →
       (Z.of_nat row ∉ bm_get bm' BM_WARNINGS)
       ∧ (Z.of_nat row ∉ bm_get bm' BM_ERRORS)).
Proof.
  intros Hw He. unfold text_update_marks.
  intros (st & Hrows & [= <- <-])%bind_Ok.
  apply (update_marks_rows_effect lss user_marks Hw He) in Hrows
    as [Hwarn Herr]; [|done].
  simpl in Hwarn, Herr.
  assert (∀ vl : Z,
            vl ∈ bm_get (ms_bm st) BM_WARNINGS
            ↔ ∃ row, row < text_line_count lss ∧ vl = Z.of_nat row
                     ∧ row_kind lss row = Some (false, LEVEL_WARNING))
    as Hwarn'.
  { intros vl. rewrite Hwarn, cleared_marks_empty by auto. split.
    - intros [(row & Hin%elem_of_seq & Hrest)|Hnil];
        [|by apply elem_of_nil in Hnil].
      exists row. split; [unfold text_line_count; lia | done].
    - intros (row & Hlt & Hrest). left. exists row. split; [|done].
      apply elem_of_seq. unfold text_line_count in Hlt. lia. }
  assert (∀ vl : Z,
            vl ∈ bm_get (ms_bm st) BM_ERRORS
            ↔ ∃ row level, row < text_line_count lss ∧ vl = Z.of_nat row
                           ∧ row_kind lss row = Some (false, level)
                           ∧ is_error_level level = true)
    as Herr'.
  { intros vl. rewrite Herr, cleared_marks_empty by auto. split.
    - intros [(row & level & Hin%elem_of_seq & Hrest)|Hnil];
        [|by apply elem_of_nil in Hnil].
      exists row, level. split; [unfold text_line_count; lia | done].
    - intros (row & level & Hlt & Hrest). left. exists row, level.
      split; [|done].
      apply elem_of_seq. unfold text_line_count in Hlt. lia. }
  split_and!; [done | done |].
  intros row level Hkind. split.
  - rewrite Hwarn'. intros (row' & _ & Heq & Hk).
    apply Nat2Z.inj in Heq as <-. congruence.
  - rewrite Herr'. intros (row' & level' & _ & Heq & Hk & _).
    apply Nat2Z.inj in Heq as <-. congruence.
Qed.

(** ** The role of the timestamp *)

Lemma time_styles_alt_row
    (attrs_for_role : view_role → Z)
    (find_string_attr_range :
       list string_attr → string_attr_type_t → line_range)
    (tok : token_state) (value_out : list string_attr) :
  lf_time_adjusted (lss_token_file tok) = false →
  is_continued (lss_token_line tok) = false →
  Z.rem (Z.quot (get_time (lss_token_line tok)) 300) 2 = 0%Z →
  lr_end (find_string_attr_range value_out L_TIMESTAMP) ≠ (-1)%Z →
  ∃ rest,
    time_styles attrs_for_role find_string_attr_range tok value_out
    = value_out
      ++ time_role_attr attrs_for_role find_string_attr_range value_out
           VCR_ALT_ROW :: rest.
Proof.
  intros Hadj Hcont Hparity Hrange. unfold time_styles.
  rewrite Hadj, Hcont. change (5 * 60)%Z with 300%Z. rewrite Hparity. simpl.
  rewrite (proj2 (Z.eqb_neq _ _) Hrange). simpl.
  destruct (is_time_skewed (lss_token_line tok)); [|by exists []].
  match goal with
  | |- context [if ?c then _ else _] => destruct c
  end.
  - eexists. by rewrite <- app_assoc.
  - by exists [].
Qed.

(** C8, as the code has it: when the file's clock is not adjusted, the line
    is not a continuation, the timestamp range is found among the
    attributes (its end is not -1) and [(epoch_sec / 300) mod 2 = 0],
    [text_attrs_for_line] gives the alternate-row role to the timestamp
    range. *)
Theorem alt_row_role_on_timestamp
    (vc_level_attrs : log_level_t → Z)
    (attrs_for_role : view_role → Z)
    (attrs_for_ident : string → Z)
    (A_UNDERLINE A_REVERSE : Z)
    (ACS_VLINE ACS_HLINE ACS_ULCORNER ACS_LLCORNER : Z)
    (shift_string_attrs : list string_attr → Z → Z → list string_attr)
    (find_string_attr_range :
       list string_attr → string_attr_type_t → line_range)
    (is_valid : line_range → bool)
    (origin_in_full_msg : logline_value → string → line_range)
    (log_accel : Type)
    (la_new : log_accel)
    (add_point : log_accel → Z → log_accel * bool)
    (get_direction : log_accel → direction_t)
    (lss : logfile_sub_source) (tok : token_state)
    (bm : gmap bookmark_type_t (list vis_line_t))
    (metadata : gmap Z bookmark_metadata) (row : vis_line_t)
    (before : list string_attr) :
  attrs_before_time_styles vc_level_attrs attrs_for_role attrs_for_ident
    A_UNDERLINE A_REVERSE ACS_VLINE ACS_HLINE ACS_ULCORNER ACS_LLCORNER
    shift_string_attrs is_valid origin_in_full_msg log_accel la_new add_point
    get_direction lss tok bm metadata row = Ok before →
  lf_time_adjusted (lss_token_file tok) = false →
  is_continued (lss_token_line tok) = false →
  lr_end (find_string_attr_range before L_TIMESTAMP) ≠ (-1)%Z →
  Z.rem (Z.quot (get_time (lss_token_line tok)) 300) 2 = 0%Z →
  ∃ out,
    text_attrs_for_line vc_level_attrs attrs_for_role attrs_for_ident
      A_UNDERLINE A_REVERSE ACS_VLINE ACS_HLINE ACS_ULCORNER ACS_LLCORNER
      shift_string_attrs find_string_attr_range is_valid origin_in_full_msg
      log_accel la_new add_point get_direction lss tok bm metadata row
    = Ok out
    ∧ time_role_attr attrs_for_role find_string_attr_range before VCR_ALT_ROW
      ∈ out.
Proof.
  intros Hbefore Hadj Hcont Hrange Hparity. unfold text_attrs_for_line.
  rewrite Hbefore. simpl.
  destruct (time_styles_alt_row attrs_for_role find_string_attr_range
              tok before Hadj Hcont Hparity Hrange) as [rest ->].
  eexists. split; [done|].
  apply elem_of_app. right. left.
Qed.

(** ** The scenarios, run *)

Lemma two_files_first_call std_sort :
  rebuild_index std_sort (tick RR_NEW_LINES) two_files
  = Ok (two_files_once, rr_appended_lines).
Proof. vm_compute. reflexivity. Qed.

Lemma two_files_second_call std_sort :
  rebuild_index std_sort (tick RR_NO_NEW_LINES) two_files_once
  = Ok (two_files_twice, rr_appended_lines).
Proof. vm_compute. reflexivity. Qed.

Lemma late_file_second_call std_sort :
  rebuild_index std_sort (tick_grown (file_of "B" [line_at 5]))
    late_file_indexed
  = Ok (late_file_appended, rr_appended_lines).
Proof. vm_compute. reflexivity. Qed.

(** C3, as stated, fails: after a single call B2 is not in GlobalIndex. *)
Lemma single_call_does_not_index_B2 :
  ¬ ∃ lss' r,
      rebuild_index keep_order (tick RR_NEW_LINES) two_files = Ok (lss', r)
      ∧ lss_index lss'
        = [con_line 0 0; con_line 1 0; con_line 0 1;
           con_line 1 1; con_line 0 2; con_line 1 2]
      ∧ lss_filtered_index lss' = [0; 1; 2; 3; 4; 5]%Z.
Proof.
  intros (lss' & r & Hrun & Hindex & _).
  rewrite two_files_first_call in Hrun. injection Hrun as <- <-.
  vm_compute in Hindex. discriminate.
Qed.

(** C3, as the code has it: with files A at t = 1, 3, 5 and B at
    t = 2, 4, 6 and no filter, a first call stops at the last line of A and
    leaves GlobalIndex = [A0, B0, A1, B1, A2] and FilteredIndex =
    [0, 1, 2, 3, 4]; the next call appends B2, giving
    [A0, B0, A1, B1, A2, B2] and [0, 1, 2, 3, 4, 5]. *)
Theorem two_files_merge_takes_two_calls
    (std_sort : (content_line_t → content_line_t → bool) →
                list content_line_t → list content_line_t) :
  rebuild_index std_sort (tick RR_NEW_LINES) two_files
  = Ok (two_files_once, rr_appended_lines)
  ∧ lss_index two_files_once
    = [con_line 0 0; con_line 1 0; con_line 0 1; con_line 1 1; con_line 0 2]
  ∧ lss_filtered_index two_files_once = [0; 1; 2; 3; 4]%Z
  ∧ rebuild_index std_sort (tick RR_NO_NEW_LINES) two_files_once
    = Ok (two_files_twice, rr_appended_lines)
  ∧ lss_index two_files_twice
    = [con_line 0 0; con_line 1 0; con_line 0 1;
       con_line 1 1; con_line 0 2; con_line 1 2]
  ∧ lss_filtered_index two_files_twice = [0; 1; 2; 3; 4; 5]%Z.
Proof.
  split_and!.
  - apply two_files_first_call.
  - reflexivity.
  - reflexivity.
  - apply two_files_second_call.
  - reflexivity.
  - reflexivity.
Qed.

Lemma late_file_indexed_wf : lss_wf late_file_indexed.
Proof.
  split.
  - intros [|[|i]] ld Hld; simpl in Hld; try discriminate;
      injection Hld as <-; (split; [reflexivity|]);
      intros lf Hlf; injection Hlf as <-;
      split_and!; vm_compute; (lia || discriminate).
  - constructor; [|constructor]. split; [done|].
    eexists. split; [reflexivity|].
    intros lf _. vm_compute. lia.
Qed.

Lemma late_file_observation_ok :
  observation_ok (tick_grown (file_of "B" [line_at 5]))
    (lss_files late_file_indexed).
Proof.
  intros [|[|i]] ld Hld; simpl in Hld; try discriminate;
    injection Hld as <-; intros lf Hlf _; injection Hlf as <-;
    split_and!; vm_compute; (lia || discriminate).
Qed.

Lemma late_file_forces_full_rebuild :
  forces_full_rebuild (tick_grown (file_of "B" [line_at 5])) late_file_indexed.
Proof.
  exists 1, (attach 1 (file_of "B" [])), (file_of "B" []), RR_NEW_LINES,
    (file_of "B" [line_at 5]), (fresh_filter_state (file_of "B" [line_at 5])).
  split_and!; try reflexivity.
  right. right. split; [done|].
  exists 0%Z, (line_at 5), (line_at 10). split_and!; reflexivity.
Qed.

(** C1 fails on the code: A0 at t = 10 is indexed and file B then reports
    [RR_NEW_LINES] with a first line at t = 5, older than the tail of
    GlobalIndex.  The classification asks for a full rebuild, as the claim
    says, but the call returns [rr_appended_lines] and GlobalIndex is
    extended by B0, not rebuilt. *)
Theorem reordered_append_is_not_rebuilt
    (std_sort : (content_line_t → content_line_t → bool) →
                list content_line_t → list content_line_t) :
  lss_wf late_file_indexed
  ∧ observation_ok (tick_grown (file_of "B" [line_at 5]))
      (lss_files late_file_indexed)
  ∧ forces_full_rebuild (tick_grown (file_of "B" [line_at 5]))
      late_file_indexed
  ∧ rebuild_index std_sort (tick_grown (file_of "B" [line_at 5]))
      late_file_indexed
    = Ok (late_file_appended, rr_appended_lines)
  ∧ lss_index late_file_appended
    = lss_index late_file_indexed ++ [con_line 1 0].
Proof.
  split_and!.
  - exact late_file_indexed_wf.
  - exact late_file_observation_ok.
  - exact late_file_forces_full_rebuild.
  - apply late_file_second_call.
  - reflexivity.
Qed.

(** C2 fails on the code: [late_file_indexed] is reached by one call and is
    sorted; file B then appends a line at t = 5, each file staying in time
    order, and the next call leaves GlobalIndex = [A0, B0] with timestamps
    10 and 5. *)
Theorem reordered_append_leaves_index_unsorted
    (std_sort : (content_line_t → content_line_t → bool) →
                list content_line_t → list content_line_t) :
  rebuild_index std_sort (tick RR_NO_NEW_LINES) late_file
  = Ok (late_file_indexed, rr_appended_lines)
  ∧ index_sorted late_file_indexed
  ∧ rebuild_index std_sort (tick_grown (file_of "B" [line_at 5]))
      late_file_indexed
    = Ok (late_file_appended, rr_appended_lines)
  ∧ lss_index late_file_appended = [con_line 0 0; con_line 1 0]
  ∧ ¬ index_sorted late_file_appended.
Proof.
  split_and!.
  - vm_compute. reflexivity.
  - intros [|i] [|[|j]] cl_i cl_j ll_i ll_j Hlt; simpl; try lia; discriminate.
  - apply late_file_second_call.
  - reflexivity.
  - intros Hsorted.
    specialize (Hsorted 0 1 (con_line 0 0) (con_line 1 0)
                  (line_at 10) (line_at 5)).
    discriminate Hsorted; (lia || reflexivity).
Qed.

Lemma two_files_reachable : reachable keep_order two_files_once.
Proof.
  eapply reachable_step.
  - eapply reachable_step; [apply reachable_init|].
    apply (step_other keep_order lss_init two_files); reflexivity.
  - eapply step_rebuild_index. apply two_files_first_call.
Qed.

Lemma filtered_index_increasing_and_in_range_witness :
  reachable keep_order two_files_once
  ∧ (Z.of_nat (length (lss_index two_files_once)) ≤ 2 ^ 32)%Z
  ∧ filtered_index_ok two_files_once.
Proof.
  split; [exact two_files_reachable|].
  split; [vm_compute; discriminate|].
  apply (filtered_index_increasing_and_in_range keep_order two_files_once).
  - exact two_files_reachable.
  - vm_compute. discriminate.
Defined.

Lemma appended_keeps_global_index_prefix_witness :
  rebuild_index keep_order (tick_grown (file_of "B" [line_at 5]))
    late_file_indexed
  = Ok (late_file_appended, rr_appended_lines)
  ∧ (∃ new, lss_index late_file_appended = lss_index late_file_indexed ++ new)
  ∧ take (length (lss_index late_file_indexed)) (lss_index late_file_appended)
    = lss_index late_file_indexed.
Proof.
  split; [exact (late_file_second_call keep_order)|].
  exact (appended_keeps_global_index_prefix keep_order
           (tick_grown (file_of "B" [line_at 5]))
           late_file_indexed late_file_appended
           (late_file_second_call keep_order)).
Defined.

Lemma two_files_fit : files_fit (lss_files two_files).
Proof.
  intros ld lf Hin.
  repeat (apply elem_of_cons in Hin as [-> | Hin]);
    [..|by apply elem_of_nil in Hin];
    intros [= <-]; vm_compute; lia.
Qed.

Lemma merge_stops_when_a_file_is_consumed_witness :
  files_fit (lss_files two_files)
  ∧ ∃ merge files' index',
      merge_add_files (lss_files two_files) 0 [] = Ok merge
      ∧ merge_loop (S (kmerge_remaining merge)) merge (lss_files two_files) []
        = Ok (files', index')
      ∧ spec_merge (lss_files two_files) [] files' index'
      ∧ ((∃ o, participates (lss_files two_files) o) →
         ∃ o ld lf,
           participates (lss_files two_files) o
           ∧ files' !! o = Some ld ∧ get_file ld = Some lf
           ∧ ld_lines_indexed ld = logfile_size lf
           ∧ last index'
             = Some (con_line (ld_file_index ld) (logfile_size lf - 1))
           ∧ ∀ o', o' ≠ o → participates (lss_files two_files) o' →
                   participates files' o').
Proof.
  split; [exact two_files_fit|].
  exact (merge_stops_when_a_file_is_consumed (lss_files two_files) []
           two_files_fit).
Defined.

Lemma end_of_message_mask_is_message_match_witness :
  let lfs := fresh_filter_state error_message_file in
  let conts := [(continuation 1, "  at frame 1"); (continuation 2, "ERR")] in
  is_continued error_head = false
  ∧ Forall (λ lb : logline * string, is_continued lb.1 = true) conts
  ∧ ∃ lfs1 lfs2 lfs3,
      add_line err_filter lfs error_head "request failed" = Ok lfs1
      ∧ (∀ i, 0 ≤ i < 0 →
              ∃ m0 m, tfs_mask lfs !! i = Some m0
                      ∧ tfs_mask lfs1 !! i = Some m
                      ∧ filter_bit 0 m = filter_bit 0 m0 || false)
      ∧ tfs_filter_count lfs1 !! 0 = Some 0
      ∧ tfs_lines_for_message lfs1 !! 0 = Some 1
      ∧ tfs_message_matched lfs1 !! 0 = Some false
      ∧ add_lines err_filter lfs1 conts = Ok lfs2
      ∧ end_of_message err_filter lfs2 = Ok lfs3
      ∧ (∀ i, 0 ≤ i < 3 →
              ∃ m, tfs_mask lfs3 !! i = Some m ∧ filter_bit 0 m = true)
      ∧ tfs_filter_count lfs3 !! 0 = Some 3
      ∧ tfs_lines_for_message lfs3 !! 0 = Some 0
      ∧ (∀ i, 3 ≤ i → tfs_mask lfs3 !! i = tfs_mask lfs !! i).
Proof.
  split; [reflexivity|].
  split; [repeat constructor|].
  apply (end_of_message_mask_is_message_match err_filter
           (fresh_filter_state error_message_file) error_head
           "request failed"
           [(continuation 1, "  at frame 1"); (continuation 2, "ERR")] 0 0
           false).
  - reflexivity.
  - repeat constructor.
  - unfold MAX_FILTERS. simpl. lia.
  - repeat split; reflexivity.
  - reflexivity.
  - reflexivity.
  - reflexivity.
  - vm_compute. lia.
  - vm_compute. lia.
  - intros i m Hi Hm.
    destruct i as [|[|[|i]]]; simpl in Hm; try discriminate;
      injection Hm as <-; reflexivity.
Defined.

Lemma loc_history_append_out_of_range_witness :
  let h := {| llh_history := [0%Z]; llh_max_size := 100;
              lh_history_position := 0 |} in
  (Z.of_nat (text_line_count late_file_indexed) ≤ 1)%Z
  ∧ (1 < 2 ^ 31)%Z
  ∧ loc_history_append late_file_indexed h 1 = Ok h.
Proof.
  split; [vm_compute; discriminate|].
  split; [reflexivity|].
  apply loc_history_append_out_of_range.
  - vm_compute. discriminate.
  - reflexivity.
Defined.

Lemma user_mark_types_apart :
  (BM_WARNINGS ∉ [(BM_USER, [2%Z])].*1)
  ∧ (BM_ERRORS ∉ [(BM_USER, [2%Z])].*1).
Proof. split; intros Hin%list_elem_of_singleton; discriminate. Qed.

Lemma text_update_marks_by_level_witness :
  (BM_WARNINGS ∉ [(BM_USER, [2%Z])].*1)
  ∧ (BM_ERRORS ∉ [(BM_USER, [2%Z])].*1)
  ∧ ∃ files' bm',
      text_update_marks levels_source [(BM_USER, [2%Z])] ∅ = Ok (files', bm')
      ∧ (∀ vl : vis_line_t,
           vl ∈ bm_get bm' BM_WARNINGS
           ↔ ∃ row, row < text_line_count levels_source ∧ vl = Z.of_nat row
                    ∧ row_kind levels_source row = Some (false, LEVEL_WARNING))
      ∧ (∀ vl : vis_line_t,
           vl ∈ bm_get bm' BM_ERRORS
           ↔ ∃ row level, row < text_line_count levels_source
                          ∧ vl = Z.of_nat row
                          ∧ row_kind levels_source row = Some (false, level)
                          ∧ is_error_level level = true)
      ∧ (∀ row level,
           row_kind levels_source row = Some (true, level) →
           (Z.of_nat row ∉ bm_get bm' BM_WARNINGS)
           ∧ (Z.of_nat row ∉ bm_get bm' BM_ERRORS)).
Proof.
  split; [apply user_mark_types_apart|].
  split; [apply user_mark_types_apart|].
  destruct (text_update_marks levels_source [(BM_USER, [2%Z])] ∅)
    as [[files' bm']| |] eqn:Hrun.
  - exists files', bm'. split; [reflexivity|].
    exact (text_update_marks_by_level levels_source [(BM_USER, [2%Z])] ∅ bm'
             files' (proj1 user_mark_types_apart)
             (proj2 user_mark_types_apart) Hrun).
  - vm_compute in Hrun. discriminate.
  - vm_compute in Hrun. discriminate.
Defined.

(** C10, as stated, fails: with a user mark filed under the warning type
    on the line of row 1 of [levels_source], a continuation line, the
    user-mark loop inserts row 1 in [BM_WARNINGS] before the level switch
    looks at the line. *)
Lemma user_mark_puts_continuation_in_warnings :
  ∃ files' bm',
    text_update_marks levels_source [(BM_WARNINGS, [1%Z])] ∅
    = Ok (files', bm')
    ∧ row_kind levels_source 1 = Some (true, LEVEL_WARNING)
    ∧ 1%Z ∈ bm_get bm' BM_WARNINGS.
Proof.
  destruct (text_update_marks levels_source [(BM_WARNINGS, [1%Z])] ∅)
    as [[files' bm']| |] eqn:Hrun.
  - exists files', bm'. split; [reflexivity|]. split; [reflexivity|].
    assert (bm_get bm' BM_WARNINGS = [0; 1]%Z) as ->.
    { vm_compute in Hrun. injection Hrun as _ <-. vm_compute. reflexivity. }
    apply elem_of_cons. right. apply elem_of_cons. by left.
  - vm_compute in Hrun. discriminate.
  - vm_compute in Hrun. discriminate.
Qed.

Lemma continuation_attrs_run :
  demo_attrs_for_line levels_source
    (demo_token levels_file warning_continuation) 1
  = Ok continuation_attrs.
Proof. vm_compute. reflexivity. Qed.

Lemma adjusted_head_attrs_run :
  demo_attrs_for_line adjusted_source
    (demo_token adjusted_file warning_line) 0
  = Ok adjusted_head_attrs.
Proof. vm_compute. reflexivity. Qed.

(** C8, as stated, fails, on token states as [text_value_for_line] leaves
    them.  Row 0 of [adjusted_source] is a head line at t = 1, so
    [(1 / 300) mod 2 = 0], of a file whose clock is adjusted: its timestamp
    range gets the adjusted-time role and no range gets the alternate-row
    role.  Row 1 of [levels_source] is a continuation line at t = 1 whose
    attributes were cleared, so that no timestamp range is found: no range
    gets the alternate-row role either. *)
Lemma adjusted_or_continued_row_gets_no_alt_row :
  (Z.rem (Z.quot (get_time warning_line) 300) 2 = 0%Z
   ∧ lf_time_adjusted adjusted_file = true
   ∧ ∃ out,
       demo_attrs_for_line adjusted_source
         (demo_token adjusted_file warning_line) 0 = Ok out
       ∧ mk_string_attr {| lr_start := 1; lr_end := 20 |} VC_STYLE
           (SAV_int (demo_role_attrs VCR_ADJUSTED_TIME)) ∈ out
       ∧ ∀ range,
           mk_string_attr range VC_STYLE
             (SAV_int (demo_role_attrs VCR_ALT_ROW)) ∉ out)
  ∧ (Z.rem (Z.quot (get_time warning_continuation) 300) 2 = 0%Z
     ∧ is_continued warning_continuation = true
     ∧ lss_token_attrs (demo_token levels_file warning_continuation) = []
     ∧ ∃ out,
         demo_attrs_for_line levels_source
           (demo_token levels_file warning_continuation) 1 = Ok out
         ∧ lr_end (demo_find_range out L_TIMESTAMP) = (-1)%Z
         ∧ ∀ range,
             mk_string_attr range VC_STYLE
               (SAV_int (demo_role_attrs VCR_ALT_ROW)) ∉ out).
Proof.
  split.
  - split; [reflexivity|]. split; [reflexivity|].
    exists adjusted_head_attrs. split; [apply adjusted_head_attrs_run|].
    split.
    + unfold adjusted_head_attrs. do 7 (apply elem_of_cons; right).
      apply elem_of_cons. by left.
    + intros range Hin. unfold adjusted_head_attrs in Hin.
      repeat (apply elem_of_cons in Hin as [Heq | Hin]; [discriminate Heq|]).
      by apply elem_of_nil in Hin.
  - split; [reflexivity|]. split; [reflexivity|]. split; [reflexivity|].
    exists continuation_attrs. split; [apply continuation_attrs_run|].
    split; [reflexivity|].
    intros range Hin. unfold continuation_attrs in Hin.
    repeat (apply elem_of_cons in Hin as [Heq | Hin]; [discriminate Heq|]).
    by apply elem_of_nil in Hin.
Qed.

Lemma alt_row_role_on_timestamp_witness :
  lf_time_adjusted (lss_token_file (demo_token levels_file warning_line)) = false
  ∧ is_continued (lss_token_line (demo_token levels_file warning_line)) = false
  ∧ lr_end (demo_find_range head_attrs_before L_TIMESTAMP) ≠ (-1)%Z
  ∧ Z.rem (Z.quot (get_time (lss_token_line (demo_token levels_file warning_line))) 300) 2
    = 0%Z
  ∧ ∃ out,
      demo_attrs_for_line levels_source (demo_token levels_file warning_line) 0 = Ok out
      ∧ time_role_attr demo_role_attrs demo_find_range head_attrs_before
          VCR_ALT_ROW ∈ out.
Proof.
  split; [reflexivity|].
  split; [reflexivity|].
  split; [vm_compute; discriminate|].
  split; [reflexivity|].
  apply (alt_row_role_on_timestamp demo_level_attrs demo_role_attrs
           demo_ident_attrs 1 2 3 4 5 6 demo_shift_attrs demo_find_range
           demo_is_valid (λ lv _, lv_origin lv) unit tt
           (λ la _, (la, false)) (λ _, A_STEADY)
           levels_source (demo_token levels_file warning_line) ∅ ∅ 0 head_attrs_before).
  - vm_compute. reflexivity.
  - reflexivity.
  - reflexivity.
  - vm_compute. discriminate.
  - reflexivity.
Defined.

(** * Properties of the lookups, the undo and the history *)

(** ** Rolling a filter back *)

Lemma clear_bit_spec (p q : nat) (old : Z) :
  q < MAX_FILTERS →
  filter_bit q
    (Z.land old (uint32 (Z.lnot (uint32 (Z.shiftl 1 (Z.of_nat p))))))
  = filter_bit q old && negb (bool_decide (q = p)).
Proof.
  unfold MAX_FILTERS, filter_bit, uint32. intros Hq.
  rewrite Z.land_spec. f_equal.
  rewrite Z.mod_pow2_bits_low by lia.
  rewrite Z.lnot_spec by lia. f_equal.
  rewrite Z.mod_pow2_bits_low by lia.
  rewrite Z.shiftl_1_l, Z.pow2_bits_eqb by lia.
  case_bool_decide; [apply Z.eqb_eq | apply Z.eqb_neq]; lia.
Qed.

Lemma set_then_clear_bit (p : nat) (old : Z) (b : bool) :
  p < MAX_FILTERS →
  (0 ≤ old < 2 ^ 32)%Z →
  filter_bit p old = false →
  Z.land (uint32 (Z.lor old (uint32 (Z.shiftl (if b then 1 else 0) (Z.of_nat p)))))
         (uint32 (Z.lnot (uint32 (Z.shiftl 1 (Z.of_nat p)))))
  = old.
Proof.
  intros Hp Hold Hclear. apply Z.bits_inj'. intros n Hn.
  destruct (decide (n < 32)%Z) as [Hlt|Hge].
  - replace n with (Z.of_nat (Z.to_nat n)) by lia.
    pose proof (clear_bit_spec p (Z.to_nat n)
      (uint32 (Z.lor old (uint32 (Z.shiftl (if b then 1 else 0) (Z.of_nat p))))))
      as Hc.
    unfold filter_bit in Hc. rewrite Hc by (unfold MAX_FILTERS; lia).
    pose proof (filter_bit_or_mask (Z.to_nat n) old) as Ho.
    unfold filter_bit in *.
    case_bool_decide as Hnp; simpl.
    + rewrite andb_false_r. rewrite Hnp. by rewrite Hclear.
    + rewrite andb_true_r. unfold uint32.
      rewrite Z.mod_pow2_bits_low by lia.
      rewrite Z.lor_spec.
      rewrite Z.mod_pow2_bits_low by lia.
      destruct b.
      * rewrite Z.shiftl_1_l, Z.pow2_bits_eqb by lia.
        replace (Z.of_nat p =? Z.of_nat (Z.to_nat n))%Z with false
          by (symmetry; apply Z.eqb_neq; lia).
        by rewrite orb_false_r.
      * rewrite Z.shiftl_0_l, Z.bits_0. by rewrite orb_false_r.
  - rewrite Z.land_spec. unfold uint32 at 1.
    rewrite Z.mod_pow2_bits_high by lia. simpl.
    rewrite <- (Z.mod_small old (2 ^ 32)) by done.
    by rewrite Z.mod_pow2_bits_high by lia.
Qed.

Lemma end_of_message_round_exact (p : nat) (mask : Z) lfs cnt
    (matched : bool) old h :
  tfs_filter_count lfs !! p = Some cnt →
  tfs_message_matched lfs !! p = Some matched →
  tfs_filter_hits lfs !! p = Some h →
  cnt ≤ logfile_size (tfs_logfile lfs) →
  tfs_mask lfs !! cnt = Some old →
  end_of_message_round p mask lfs
  = Ok {| tfs_logfile := tfs_logfile lfs;
          tfs_filter_count := <[p := cnt + 1]> (tfs_filter_count lfs);
          tfs_filter_hits :=
            <[p := if matched then h + 1 else h]> (tfs_filter_hits lfs);
          tfs_message_matched := tfs_message_matched lfs;
          tfs_lines_for_message := tfs_lines_for_message lfs;
          tfs_last_message_matched := tfs_last_message_matched lfs;
          tfs_last_lines_for_message := tfs_last_lines_for_message lfs;
          tfs_mask := <[cnt := uint32 (Z.lor old mask)]> (tfs_mask lfs) |}.
Proof.
  intros Hcnt Hmm Hh Hsize Hold. unfold end_of_message_round.
  rewrite (at_index_Some _ _ _ Hcnt). simpl.
  rewrite require_true by (by apply bool_decide_eq_true). simpl.
  rewrite (at_index_Some _ _ _ Hold). simpl.
  rewrite set_index_lt by (by eapply lookup_lt_Some). simpl.
  rewrite set_index_lt by (by eapply lookup_lt_Some). simpl.
  rewrite (at_index_Some _ _ _ Hmm). simpl.
  destruct matched.
  - rewrite (at_index_Some _ _ _ Hh). simpl.
    rewrite set_index_lt by (by eapply lookup_lt_Some). done.
  - simpl. by rewrite (list_insert_id _ _ _ Hh).
Qed.

Lemma end_of_message_loop_exact (p : nat) (mask : Z) rounds :
  ∀ lfs cnt (matched : bool) h,
  tfs_filter_count lfs !! p = Some cnt →
  tfs_message_matched lfs !! p = Some matched →
  tfs_filter_hits lfs !! p = Some h →
  cnt + rounds ≤ logfile_size (tfs_logfile lfs) →
  cnt + rounds ≤ length (tfs_mask lfs) →
  ∃ mask',
    end_of_message_loop p mask rounds lfs
    = Ok {| tfs_logfile := tfs_logfile lfs;
            tfs_filter_count := <[p := cnt + rounds]> (tfs_filter_count lfs);
            tfs_filter_hits :=
              <[p := if matched then h + rounds else h]> (tfs_filter_hits lfs);
            tfs_message_matched := tfs_message_matched lfs;
            tfs_lines_for_message := tfs_lines_for_message lfs;
            tfs_last_message_matched := tfs_last_message_matched lfs;
            tfs_last_lines_for_message := tfs_last_lines_for_message lfs;
            tfs_mask := mask' |}
    ∧ length mask' = length (tfs_mask lfs)
    ∧ ∀ i, mask' !! i
           = if decide (cnt ≤ i < cnt + rounds)
             then (λ m, uint32 (Z.lor m mask)) <$> tfs_mask lfs !! i
             else tfs_mask lfs !! i.
Proof.
  induction rounds as [|rounds IH]; intros lfs cnt matched h Hcnt Hmm Hh Hsize Hmask.
  - simpl. exists (tfs_mask lfs).
    rewrite Nat.add_0_r, (list_insert_id _ _ _ Hcnt).
    replace (if matched then h + 0 else h) with h by (destruct matched; lia).
    rewrite (list_insert_id _ _ _ Hh).
    split; [by destruct lfs|]. split; [done|].
    intros i. case_decide; [lia | done].
  - destruct (lookup_lt_is_Some_2 (tfs_mask lfs) cnt ltac:(lia)) as [old Hold].
    simpl.
    rewrite (end_of_message_round_exact p mask lfs cnt matched old h)
      by (done || lia).
    rewrite bind_ret_Ok.
    match goal with
    | |- context [end_of_message_loop _ _ _ ?s] =>
        destruct (IH s (cnt + 1) matched (if matched then h + 1 else h))
          as (mask' & Hloop & Hlen & Hlook); simpl
    end.
    { apply list_lookup_insert_eq. by eapply lookup_lt_Some. }
    { done. }
    { apply list_lookup_insert_eq. by eapply lookup_lt_Some. }
    { lia. }
    { rewrite length_insert. lia. }
    exists mask'. rewrite Hloop. simpl.
    rewrite !list_insert_insert_eq.
    replace (cnt + 1 + rounds) with (cnt + S rounds) by lia.
    replace (if matched then (if matched then h + 1 else h) + rounds
             else if matched then h + 1 else h)
      with (if matched then h + S rounds else h) by (destruct matched; lia).
    split; [done|].
    simpl in Hlen, Hlook.
    split; [by rewrite Hlen, length_insert|].
    intros i. rewrite Hlook.
    destruct (decide (i = cnt)) as [->|Hne].
    + rewrite decide_False by lia. rewrite decide_True by lia.
      rewrite list_lookup_insert_eq by (by eapply lookup_lt_Some).
      by rewrite Hold.
    + rewrite list_lookup_insert_ne by done.
      repeat case_decide; try done; lia.
Qed.

Lemma end_of_message_exact f lfs (cnt pending : nat) (matched : bool) h :
  filter_arrays_sized lfs →
  lf_index f < MAX_FILTERS →
  tfs_filter_count lfs !! lf_index f = Some cnt →
  tfs_lines_for_message lfs !! lf_index f = Some pending →
  tfs_message_matched lfs !! lf_index f = Some matched →
  tfs_filter_hits lfs !! lf_index f = Some h →
  cnt + pending ≤ logfile_size (tfs_logfile lfs) →
  cnt + pending ≤ length (tfs_mask lfs) →
  ∃ mask',
    end_of_message f lfs
    = Ok {| tfs_logfile := tfs_logfile lfs;
            tfs_filter_count :=
              <[lf_index f := cnt + pending]> (tfs_filter_count lfs);
            tfs_filter_hits :=
              <[lf_index f := if matched then h + pending else h]>
                (tfs_filter_hits lfs);
            tfs_message_matched :=
              <[lf_index f := false]> (tfs_message_matched lfs);
            tfs_lines_for_message :=
              <[lf_index f := 0]> (tfs_lines_for_message lfs);
            tfs_last_message_matched :=
              <[lf_index f := matched]> (tfs_last_message_matched lfs);
            tfs_last_lines_for_message :=
              <[lf_index f := pending]> (tfs_last_lines_for_message lfs);
            tfs_mask := mask' |}
    ∧ length mask' = length (tfs_mask lfs)
    ∧ ∀ i, mask' !! i
           = if decide (cnt ≤ i < cnt + pending)
             then (λ m, uint32 (Z.lor m
                     (uint32 (Z.shiftl (if matched then 1 else 0)
                                (Z.of_nat (lf_index f))))))
                  <$> tfs_mask lfs !! i
             else tfs_mask lfs !! i.
Proof.
  intros (S1 & S2 & S3 & S4 & S5 & S6) Hp Hcnt Hpending Hmm Hh Hsize Hmask.
  unfold end_of_message.
  rewrite (at_index_Some _ _ _ Hmm). simpl.
  rewrite (at_index_Some _ _ _ Hpending). simpl.
  destruct (end_of_message_loop_exact (lf_index f)
              (uint32 (Z.shiftl (if matched then 1 else 0)
                         (Z.of_nat (lf_index f))))
              pending lfs cnt matched h)
    as (mask' & Hloop & Hlen & Hlook); [done | done | done | done | done |].
  rewrite Hloop. simpl.
  rewrite (at_index_Some _ _ _ Hmm). simpl.
  rewrite set_index_lt by lia. simpl.
  rewrite (at_index_Some _ _ _ Hpending). simpl.
  rewrite set_index_lt by lia. simpl.
  rewrite set_index_lt by lia. simpl.
  rewrite set_index_lt by lia. simpl.
  exists mask'. done.
Qed.

Lemma size_t_dec_S (n : nat) : size_t_dec (S n) = n.
Proof. done. Qed.

Lemma revert_to_last_round_exact (p : nat) lfs cnt (matched : bool) old h :
  tfs_filter_count lfs !! p = Some (S cnt) →
  tfs_message_matched lfs !! p = Some matched →
  tfs_filter_hits lfs !! p = Some h →
  tfs_mask lfs !! cnt = Some old →
  revert_to_last_round p lfs
  = Ok {| tfs_logfile := tfs_logfile lfs;
          tfs_filter_count := <[p := cnt]> (tfs_filter_count lfs);
          tfs_filter_hits :=
            <[p := if matched then size_t_dec h else h]> (tfs_filter_hits lfs);
          tfs_message_matched := tfs_message_matched lfs;
          tfs_lines_for_message := tfs_lines_for_message lfs;
          tfs_last_message_matched := tfs_last_message_matched lfs;
          tfs_last_lines_for_message := tfs_last_lines_for_message lfs;
          tfs_mask :=
            <[cnt := Z.land old
                       (uint32 (Z.lnot (uint32 (Z.shiftl 1 (Z.of_nat p)))))]>
              (tfs_mask lfs) |}.
Proof.
  intros Hcnt Hmm Hh Hold. unfold revert_to_last_round.
  rewrite (at_index_Some _ _ _ Hmm), bind_ret_Ok.
  assert ((if matched
           then h0 ← at_index (tfs_filter_hits lfs) p;
                set_index (tfs_filter_hits lfs) p (size_t_dec h0)
           else Ok (tfs_filter_hits lfs))
          = Ok (<[p := if matched then size_t_dec h else h]>
                  (tfs_filter_hits lfs))) as ->.
  { destruct matched.
    - rewrite (at_index_Some _ _ _ Hh), bind_ret_Ok.
      by rewrite set_index_lt by (by eapply lookup_lt_Some).
    - by rewrite (list_insert_id _ _ _ Hh). }
  rewrite bind_ret_Ok.
  rewrite (at_index_Some _ _ _ Hcnt), bind_ret_Ok, size_t_dec_S.
  rewrite set_index_lt by (by eapply lookup_lt_Some).
  rewrite bind_ret_Ok. cbv zeta.
  rewrite (at_index_Some _ _ _ Hold), bind_ret_Ok.
  rewrite set_index_lt by (by eapply lookup_lt_Some).
  by rewrite bind_ret_Ok.
Qed.

Lemma revert_to_last_loop_exact (p : nat) rounds :
  ∀ lfs cnt (matched : bool) h,
  tfs_filter_count lfs !! p = Some (cnt + rounds) →
  tfs_message_matched lfs !! p = Some matched →
  tfs_filter_hits lfs !! p = Some h →
  (matched = true → rounds ≤ h) →
  cnt + rounds ≤ length (tfs_mask lfs) →
  ∃ mask',
    revert_to_last_loop p rounds lfs
    = Ok {| tfs_logfile := tfs_logfile lfs;
            tfs_filter_count := <[p := cnt]> (tfs_filter_count lfs);
            tfs_filter_hits :=
              <[p := if matched then h - rounds else h]> (tfs_filter_hits lfs);
            tfs_message_matched := tfs_message_matched lfs;
            tfs_lines_for_message := tfs_lines_for_message lfs;
            tfs_last_message_matched := tfs_last_message_matched lfs;
            tfs_last_lines_for_message := tfs_last_lines_for_message lfs;
            tfs_mask := mask' |}
    ∧ length mask' = length (tfs_mask lfs)
    ∧ ∀ i, mask' !! i
           = if decide (cnt ≤ i < cnt + rounds)
             then (λ m, Z.land m
                     (uint32 (Z.lnot (uint32 (Z.shiftl 1 (Z.of_nat p))))))
                  <$> tfs_mask lfs !! i
             else tfs_mask lfs !! i.
Proof.
  induction rounds as [|rounds IH]; intros lfs cnt matched h Hcnt Hmm Hh Hhits Hmask.
  - simpl. exists (tfs_mask lfs).
    rewrite Nat.add_0_r in Hcnt. rewrite (list_insert_id _ _ _ Hcnt).
    replace (if matched then h - 0 else h) with h by (destruct matched; lia).
    rewrite (list_insert_id _ _ _ Hh).
    split; [by destruct lfs|]. split; [done|].
    intros i. case_decide; [lia | done].
  - destruct (lookup_lt_is_Some_2 (tfs_mask lfs) (cnt + rounds) ltac:(lia))
      as [old Hold].
    replace (cnt + S rounds) with (S (cnt + rounds)) in Hcnt by lia.
    cbn [revert_to_last_loop].
    rewrite (revert_to_last_round_exact p lfs (cnt + rounds) matched old h)
      by done.
    rewrite bind_ret_Ok.
    match goal with
    | |- context [revert_to_last_loop _ _ ?s] =>
        destruct (IH s cnt matched (if matched then size_t_dec h else h))
          as (mask' & Hloop & Hlen & Hlook)
    end.
    { simpl. apply list_lookup_insert_eq. by eapply lookup_lt_Some. }
    { done. }
    { simpl. apply list_lookup_insert_eq. by eapply lookup_lt_Some. }
    { intros ->. specialize (Hhits eq_refl).
      destruct h as [|h]; [lia|]. rewrite size_t_dec_S. lia. }
    { simpl. rewrite length_insert. lia. }
    exists mask'. rewrite Hloop. simpl. simpl in Hlen, Hlook.
    rewrite !list_insert_insert_eq.
    replace (if matched then (if matched then size_t_dec h else h) - rounds
             else if matched then size_t_dec h else h)
      with (if matched then h - S rounds else h).
    2:{ destruct matched; [|done]. specialize (Hhits eq_refl).
        destruct h as [|h]; [lia|]. rewrite size_t_dec_S. lia. }
    split; [done|].
    split; [by rewrite Hlen, length_insert|].
    intros i. rewrite Hlook.
    destruct (decide (i = cnt + rounds)) as [->|Hne].
    + rewrite decide_False by lia. rewrite decide_True by lia.
      rewrite list_lookup_insert_eq by (by eapply lookup_lt_Some).
      by rewrite Hold.
    + rewrite list_lookup_insert_ne by done.
      repeat case_decide; try done; lia.
Qed.

(** X1: [revert_to_last] undoes [end_of_message].  Take a filter state in
    which [pending] lines are accumulated for the filter in slot [p] and bit
    [p] of their masks is still clear.  Once [end_of_message] has closed the
    message, [revert_to_last] with a rollback of [r ≤ pending] lines puts
    the state back where it was: the count of finalised lines and the count
    of hits are what they were, the masks are what they were (bit [p] is
    cleared again on the lines of the message), and the accumulator holds
    the message again, [r] lines shorter; its match flag is dropped when no
    line is left.  Only the snapshot of the last message differs. *)
Theorem revert_to_last_undoes_end_of_message
    (f : text_filter) (lfs : logfile_filter_state)
    (cnt pending h r : nat) (matched : bool) :
  let p := lf_index f in
  filter_arrays_sized lfs →
  p < MAX_FILTERS →
  tfs_filter_count lfs !! p = Some cnt →
  tfs_lines_for_message lfs !! p = Some pending →
  tfs_message_matched lfs !! p = Some matched →
  tfs_filter_hits lfs !! p = Some h →
  cnt + pending ≤ logfile_size (tfs_logfile lfs) →
  cnt + pending ≤ length (tfs_mask lfs) →
  r ≤ pending →
  (∀ i m, cnt ≤ i < cnt + pending → tfs_mask lfs !! i = Some m →
          (0 ≤ m < 2 ^ 32)%Z ∧ filter_bit p m = false) →
  ∃ lfs1,
    end_of_message f lfs = Ok lfs1
    ∧ revert_to_last f lfs1 r
      = Ok {| tfs_logfile := tfs_logfile lfs;
              tfs_filter_count := tfs_filter_count lfs;
              tfs_filter_hits := tfs_filter_hits lfs;
              tfs_message_matched :=
                <[p := if decide (pending - r = 0) then false else matched]>
                  (tfs_message_matched lfs);
              tfs_lines_for_message :=
                <[p := pending - r]> (tfs_lines_for_message lfs);
              tfs_last_message_matched :=
                <[p := matched]> (tfs_last_message_matched lfs);
              tfs_last_lines_for_message :=
                <[p := pending]> (tfs_last_lines_for_message lfs);
              tfs_mask := tfs_mask lfs |}.
Proof.
  intros p Hsized Hp Hcnt Hpending Hmm Hh Hsize Hmask Hr Hclear. subst p.
  destruct (end_of_message_exact f lfs cnt pending matched h)
    as (mask1 & Heom & Hlen1 & Hlook1); [done..|].
  destruct Hsized as (S1 & S2 & S3 & S4 & S5 & S6).
  eexists. split; [exact Heom|].
  unfold revert_to_last. cbn [tfs_lines_for_message tfs_last_message_matched
    tfs_message_matched tfs_last_lines_for_message tfs_logfile
    tfs_filter_count tfs_filter_hits tfs_mask].
  assert (<[lf_index f := 0]> (tfs_lines_for_message lfs) !! lf_index f
          = Some 0) as H0 by (apply list_lookup_insert_eq; lia).
  assert (<[lf_index f := matched]> (tfs_last_message_matched lfs)
            !! lf_index f = Some matched) as H1
    by (apply list_lookup_insert_eq; lia).
  assert (<[lf_index f := pending]> (tfs_last_lines_for_message lfs)
            !! lf_index f = Some pending) as H2
    by (apply list_lookup_insert_eq; lia).
  rewrite (at_index_Some _ _ _ H0).
  rewrite bind_ret_Ok, require_true, bind_ret_Ok by done.
  rewrite (at_index_Some _ _ _ H1).
  rewrite bind_ret_Ok, set_index_lt, bind_ret_Ok
    by (rewrite length_insert; lia).
  rewrite (at_index_Some _ _ _ H2).
  rewrite bind_ret_Ok, set_index_lt, bind_ret_Ok
    by (rewrite length_insert; lia).
  rewrite !list_insert_insert_eq.
  rewrite (list_insert_id _ _ _ Hmm), (list_insert_id _ _ _ Hpending).
  match goal with
  | |- context [revert_to_last_loop _ _ ?s] =>
      destruct (revert_to_last_loop_exact (lf_index f) pending s cnt matched
                  (if matched then h + pending else h))
        as (mask2 & Hloop & Hlen2 & Hlook2)
  end.
  { simpl. apply list_lookup_insert_eq. lia. }
  { done. }
  { simpl. apply list_lookup_insert_eq. lia. }
  { intros ->. lia. }
  { simpl. lia. }
  rewrite Hloop, bind_ret_Ok. simpl in Hlen2, Hlook2.
  cbn [tfs_lines_for_message tfs_last_message_matched
    tfs_message_matched tfs_last_lines_for_message tfs_logfile
    tfs_filter_count tfs_filter_hits tfs_mask].
  rewrite !list_insert_insert_eq.
  rewrite (list_insert_id _ _ _ Hcnt).
  replace (if matched then (if matched then h + pending else h) - pending
           else if matched then h + pending else h)
    with h by (destruct matched; lia).
  rewrite (list_insert_id _ _ _ Hh).
  assert (mask2 = tfs_mask lfs) as ->.
  { apply list_eq. intros i. rewrite Hlook2, Hlook1.
    case_decide as Hi; [|done].
    destruct (tfs_mask lfs !! i) as [m|] eqn:Hm; [|done]. simpl.
    destruct (Hclear i m Hi Hm) as [Hrange Hbit].
    by rewrite set_then_clear_bit. }
  rewrite (at_index_Some _ _ _ Hpending), bind_ret_Ok.
  case_bool_decide as Hpos.
  - rewrite require_true, bind_ret_Ok by (by apply bool_decide_eq_true).
    rewrite (set_index_lt (tfs_lines_for_message lfs)), bind_ret_Ok by lia.
    rewrite (at_index_Some _ _ (pending - r))
      by (apply list_lookup_insert_eq; lia).
    rewrite bind_ret_Ok.
    case_bool_decide as Hzero.
    + rewrite set_index_lt, bind_ret_Ok by lia.
      by rewrite decide_True by done.
    + rewrite bind_ret_Ok, decide_False by done.
      by rewrite (list_insert_id _ _ _ Hmm).
  - assert (pending = 0) as -> by lia.
    rewrite bind_ret_Ok, (at_index_Some _ _ _ Hpending), bind_ret_Ok.
    rewrite bool_decide_eq_true_2 by done.
    rewrite set_index_lt, bind_ret_Ok by lia.
    rewrite decide_True by lia.
    replace (0 - r) with 0 by lia.
    by rewrite (list_insert_id _ _ _ Hpending).
Qed.

(** *** What a filter leaves alone *)

Lemma set_index_Ok_ne {A : Type} (v v' : list A) (i q : nat) (x : A) :
  set_index v i x = Ok v' → q ≠ i → v' !! q = v !! q.
Proof.
  unfold set_index. case_decide; [|done]. intros [= <-] Hq.
  by apply list_lookup_insert_ne.
Qed.

Lemma set_index_Ok_length {A : Type} (v v' : list A) (i : nat) (x : A) :
  set_index v i x = Ok v' → length v' = length v.
Proof.
  unfold set_index. case_decide; [|done]. intros [= <-].
  apply length_insert.
Qed.

Lemma set_index_Ok_lookup {A : Type} (v v' : list A) (i j : nat) (x y : A) :
  set_index v i x = Ok v' → v !! j = Some y →
  v' !! j = Some (if decide (j = i) then x else y).
Proof.
  unfold set_index. case_decide; [|done]. intros [= <-] Hy.
  case_decide as Hj.
  - subst j. by apply list_lookup_insert_eq.
  - by rewrite list_lookup_insert_ne.
Qed.

Lemma other_filters_kept_refl p lfs : other_filters_kept p lfs lfs.
Proof. repeat split; eauto. Qed.

Lemma other_filters_kept_trans p a b c :
  other_filters_kept p a b → other_filters_kept p b c →
  other_filters_kept p a c.
Proof.
  intros (A1 & A2 & A3 & A4) (B1 & B2 & B3 & B4).
  split; [congruence|]. split; [congruence|]. split.
  - intros q Hq. destruct (A3 q Hq) as (? & ? & ? & ? & ? & ?).
    destruct (B3 q Hq) as (? & ? & ? & ? & ? & ?).
    split_and!; congruence.
  - intros i m Hm. destruct (A4 i m Hm) as (m1 & Hm1 & Hbits1).
    destruct (B4 i m1 Hm1) as (m2 & Hm2 & Hbits2).
    exists m2. split; [done|]. intros q Hq Hlt.
    rewrite Hbits2, Hbits1; done.
Qed.

Lemma or_bit_other (p q : nat) (m : Z) (b : bool) :
  q ≠ p → q < MAX_FILTERS →
  filter_bit q
    (uint32 (Z.lor m (uint32 (Z.shiftl (if b then 1 else 0) (Z.of_nat p)))))
  = filter_bit q m.
Proof.
  unfold MAX_FILTERS, filter_bit, uint32. intros Hq Hlt.
  rewrite Z.mod_pow2_bits_low by lia.
  rewrite Z.lor_spec.
  rewrite Z.mod_pow2_bits_low by lia.
  destruct b.
  - rewrite Z.shiftl_1_l, Z.pow2_bits_eqb by lia.
    replace (Z.of_nat p =? Z.of_nat q)%Z with false
      by (symmetry; apply Z.eqb_neq; lia).
    apply orb_false_r.
  - rewrite Z.shiftl_0_l, Z.bits_0. apply orb_false_r.
Qed.

Lemma end_of_message_round_kept (p : nat) (b : bool) lfs lfs' :
  end_of_message_round p
    (uint32 (Z.shiftl (if b then 1 else 0) (Z.of_nat p))) lfs = Ok lfs' →
  other_filters_kept p lfs lfs'.
Proof.
  unfold end_of_message_round. intros H.
  apply bind_Ok in H as (cnt & Hcnt & H); cbv beta in H.
  apply bind_Ok in H as (u & _ & H); cbv beta zeta in H.
  apply bind_Ok in H as (old & Hold & H); cbv beta in H.
  apply bind_Ok in H as (mask' & Hmask & H); cbv beta in H.
  apply bind_Ok in H as (count' & Hcount & H); cbv beta in H.
  apply bind_Ok in H as (matched & Hmm & H); cbv beta in H.
  apply bind_Ok in H as (hits' & Hhits & H); cbv beta in H.
  injection H as <-. unfold other_filters_kept. cbn.
  split; [done|].
  split; [by eapply set_index_Ok_length|].
  split.
  - intros q Hq. split_and!; try done.
    + by eapply set_index_Ok_ne.
    + destruct matched; [|by injection Hhits as <-].
      apply bind_Ok in Hhits as (h & _ & Hhits).
      by eapply set_index_Ok_ne.
  - intros i m Hm.
    rewrite (set_index_Ok_lookup _ _ _ _ _ _ Hmask Hm).
    eexists. split; [done|]. intros q Hq Hlt.
    case_decide as Hi; [|done].
    apply at_index_Ok in Hold. rewrite <- Hi in Hold.
    assert (old = m) as -> by congruence.
    by apply or_bit_other.
Qed.

Lemma end_of_message_loop_kept (p : nat) (b : bool) rounds : ∀ lfs lfs',
  end_of_message_loop p
    (uint32 (Z.shiftl (if b then 1 else 0) (Z.of_nat p))) rounds lfs
  = Ok lfs' →
  other_filters_kept p lfs lfs'.
Proof.
  induction rounds as [|rounds IH]; intros lfs lfs' H.
  - injection H as <-. apply other_filters_kept_refl.
  - cbn [end_of_message_loop] in H.
    apply bind_Ok in H as (lfs1 & Hround & H).
    eapply other_filters_kept_trans.
    + by eapply end_of_message_round_kept.
    + by apply IH.
Qed.

Lemma end_of_message_kept f lfs lfs' :
  end_of_message f lfs = Ok lfs' → other_filters_kept (lf_index f) lfs lfs'.
Proof.
  unfold end_of_message. intros H. cbv zeta in H.
  apply bind_Ok in H as (matched & _ & H); cbv beta in H.
  apply bind_Ok in H as (rounds & _ & H); cbv beta in H.
  apply bind_Ok in H as (lfs1 & Hloop & H); cbv beta in H.
  apply bind_Ok in H as (mm & _ & H); cbv beta in H.
  apply bind_Ok in H as (last_mm & Hlast_mm & H); cbv beta in H.
  apply bind_Ok in H as (lm & _ & H); cbv beta in H.
  apply bind_Ok in H as (last_lm & Hlast_lm & H); cbv beta in H.
  apply bind_Ok in H as (mm' & Hmm' & H); cbv beta in H.
  apply bind_Ok in H as (lm' & Hlm' & H); cbv beta in H.
  injection H as <-.
  eapply other_filters_kept_trans; [by eapply end_of_message_loop_kept|].
  unfold other_filters_kept. cbn.
  split; [done|]. split; [done|]. split; [|eauto].
  intros q Hq. split_and!; try done; by eapply set_index_Ok_ne.
Qed.

Lemma add_line_kept f lfs ll body lfs' :
  add_line f lfs ll body = Ok lfs' →
  other_filters_kept (lf_index f) lfs lfs'.
Proof.
  unfold add_line. intros H. cbv zeta in H.
  apply bind_Ok in H as (lfs1 & Hfirst & H); cbv beta in H.
  apply bind_Ok in H as (mm & _ & H); cbv beta in H.
  apply bind_Ok in H as (mm' & Hmm' & H); cbv beta in H.
  apply bind_Ok in H as (lm & _ & H); cbv beta in H.
  apply bind_Ok in H as (lm' & Hlm' & H); cbv beta in H.
  injection H as <-.
  eapply (other_filters_kept_trans _ _ lfs1).
  - destruct (negb (is_continued ll)).
    + by apply end_of_message_kept.
    + injection Hfirst as <-. apply other_filters_kept_refl.
  - unfold other_filters_kept. cbn.
    split; [done|]. split; [done|]. split; [|eauto].
    intros q Hq. split_and!; try done; by eapply set_index_Ok_ne.
Qed.

Lemma revert_to_last_round_kept (p : nat) lfs lfs' :
  revert_to_last_round p lfs = Ok lfs' → other_filters_kept p lfs lfs'.
Proof.
  unfold revert_to_last_round. intros H.
  apply bind_Ok in H as (matched & _ & H); cbv beta in H.
  apply bind_Ok in H as (hits' & Hhits & H); cbv beta in H.
  apply bind_Ok in H as (cnt & _ & H); cbv beta in H.
  apply bind_Ok in H as (count' & Hcount & H); cbv beta zeta in H.
  apply bind_Ok in H as (old & Hold & H); cbv beta in H.
  apply bind_Ok in H as (mask' & Hmask & H); cbv beta in H.
  injection H as <-. unfold other_filters_kept. cbn.
  split; [done|].
  split; [by eapply set_index_Ok_length|].
  split.
  - intros q Hq. split_and!; try done.
    + by eapply set_index_Ok_ne.
    + destruct matched; [|by injection Hhits as <-].
      apply bind_Ok in Hhits as (h & _ & Hhits).
      by eapply set_index_Ok_ne.
  - intros i m Hm.
    rewrite (set_index_Ok_lookup _ _ _ _ _ _ Hmask Hm).
    eexists. split; [done|]. intros q Hq Hlt.
    case_decide as Hi; [|done].
    apply at_index_Ok in Hold. rewrite <- Hi in Hold.
    assert (old = m) as -> by congruence.
    rewrite clear_bit_spec by done.
    rewrite bool_decide_eq_false_2 by done. apply andb_true_r.
Qed.

Lemma revert_to_last_loop_kept (p : nat) rounds : ∀ lfs lfs',
  revert_to_last_loop p rounds lfs = Ok lfs' →
  other_filters_kept p lfs lfs'.
Proof.
  induction rounds as [|rounds IH]; intros lfs lfs' H.
  - injection H as <-. apply other_filters_kept_refl.
  - cbn [revert_to_last_loop] in H.
    apply bind_Ok in H as (lfs1 & Hround & H).
    eapply other_filters_kept_trans.
    + by eapply revert_to_last_round_kept.
    + by apply IH.
Qed.

Lemma revert_to_last_kept f lfs r lfs' :
  revert_to_last f lfs r = Ok lfs' →
  other_filters_kept (lf_index f) lfs lfs'.
Proof.
  unfold revert_to_last. intros H. cbv zeta in H.
  apply bind_Ok in H as (lm0 & _ & H); cbv beta in H.
  apply bind_Ok in H as (u & _ & H); cbv beta in H.
  apply bind_Ok in H as (last_mm & _ & H); cbv beta in H.
  apply bind_Ok in H as (mm1 & Hmm1 & H); cbv beta in H.
  apply bind_Ok in H as (last_lm & _ & H); cbv beta in H.
  apply bind_Ok in H as (lm1 & Hlm1 & H); cbv beta in H.
  apply bind_Ok in H as (lfs2 & Hloop & H); cbv beta in H.
  apply bind_Ok in H as (lm2 & _ & H); cbv beta in H.
  apply bind_Ok in H as (lm3 & Hlm3 & H); cbv beta in H.
  apply bind_Ok in H as (lm4 & _ & H); cbv beta in H.
  apply bind_Ok in H as (mm3 & Hmm3 & H); cbv beta in H.
  injection H as <-.
  apply revert_to_last_loop_kept in Hloop.
  eapply other_filters_kept_trans; [|eapply other_filters_kept_trans];
    [|exact Hloop|].
  - unfold other_filters_kept. cbn.
    split; [done|]. split; [done|]. split; [|eauto].
    intros q Hq. split_and!; try done; by eapply set_index_Ok_ne.
  - unfold other_filters_kept. cbn.
    split; [done|]. split; [done|]. split; [|eauto].
    intros q Hq. split_and!; try done.
    + destruct (bool_decide (lm4 = 0));
        [by eapply set_index_Ok_ne | by injection Hmm3 as <-].
    + destruct (bool_decide (0 < lm2)); [|by injection Hlm3 as <-].
      apply bind_Ok in Hlm3 as (u' & _ & Hlm3).
      by eapply set_index_Ok_ne.
Qed.

(** X2: a filter only ever touches its own slot.  Whatever
    [end_of_message], [add_line] or [revert_to_last] of the filter in slot
    [p] does to a filter state, the counters, the accumulators and the
    snapshots of every other filter stay as they are, the mask keeps its
    length, and bit [q] of the mask of every line is unchanged for every
    other filter [q]. *)
Theorem filter_touches_only_its_own_slot
    (f : text_filter) (lfs lfs' : logfile_filter_state) :
  end_of_message f lfs = Ok lfs'
  ∨ (∃ ll body, add_line f lfs ll body = Ok lfs')
  ∨ (∃ r, revert_to_last f lfs r = Ok lfs') →
  other_filters_kept (lf_index f) lfs lfs'.
Proof.
  intros [H|[(ll & body & H)|(r & H)]].
  - by apply end_of_message_kept.
  - by eapply add_line_kept.
  - by eapply revert_to_last_kept.
Qed.

(** X3: [revert_to_last] is only for a filter whose accumulator is empty.
    Right after [add_line] has accepted a line, whatever the line, a call
    of [revert_to_last] fails its [require] and the run ends. *)
Theorem revert_to_last_needs_a_closed_message
    (f : text_filter) (lfs lfs1 : logfile_filter_state)
    (ll : logline) (body : string) (r : nat) :
  add_line f lfs ll body = Ok lfs1 →
  revert_to_last f lfs1 r = Abort.
Proof.
  unfold add_line. intros H. cbv zeta in H.
  apply bind_Ok in H as (lfs0 & _ & H); cbv beta in H.
  apply bind_Ok in H as (mm & _ & H); cbv beta in H.
  apply bind_Ok in H as (mm' & _ & H); cbv beta in H.
  apply bind_Ok in H as (lm & Hlm & H); cbv beta in H.
  apply bind_Ok in H as (lm' & Hlm' & H); cbv beta in H.
  injection H as <-.
  apply at_index_Ok in Hlm.
  pose proof (set_index_Ok_lookup _ _ _ _ _ _ Hlm' Hlm) as Hnew.
  rewrite decide_True in Hnew by done.
  unfold revert_to_last. cbn.
  rewrite (at_index_Some _ _ _ Hnew), bind_ret_Ok.
  rewrite bool_decide_eq_false_2 by lia. done.
Qed.

(** *** The empty filter *)

Lemma or_bit_false (p q : nat) (m : Z) :
  q < MAX_FILTERS →
  filter_bit q (uint32 (Z.lor m (uint32 (Z.shiftl 0 (Z.of_nat p)))))
  = filter_bit q m.
Proof.
  unfold MAX_FILTERS, filter_bit, uint32. intros Hlt.
  rewrite Z.mod_pow2_bits_low by lia.
  rewrite Z.lor_spec.
  rewrite Z.mod_pow2_bits_low by lia.
  rewrite Z.shiftl_0_l, Z.bits_0. apply orb_false_r.
Qed.

Lemma mask_bits_same_refl a : mask_bits_same a a.
Proof. split; eauto. Qed.

Lemma mask_bits_same_trans a b c :
  mask_bits_same a b → mask_bits_same b c → mask_bits_same a c.
Proof.
  intros [A1 A2] [B1 B2]. split; [congruence|].
  intros i m Hm. destruct (A2 i m Hm) as (m1 & Hm1 & Hb1).
  destruct (B2 i m1 Hm1) as (m2 & Hm2 & Hb2).
  exists m2. split; [done|]. intros q Hq. by rewrite Hb2, Hb1.
Qed.

Lemma end_of_message_unmatched f lfs (cnt pending h : nat) :
  filter_arrays_sized lfs →
  lf_index f < MAX_FILTERS →
  tfs_filter_count lfs !! lf_index f = Some cnt →
  tfs_lines_for_message lfs !! lf_index f = Some pending →
  tfs_message_matched lfs !! lf_index f = Some false →
  tfs_filter_hits lfs !! lf_index f = Some h →
  cnt + pending ≤ logfile_size (tfs_logfile lfs) →
  cnt + pending ≤ length (tfs_mask lfs) →
  ∃ lfs',
    end_of_message f lfs = Ok lfs'
    ∧ filter_arrays_sized lfs'
    ∧ tfs_logfile lfs' = tfs_logfile lfs
    ∧ tfs_filter_count lfs' !! lf_index f = Some (cnt + pending)
    ∧ tfs_lines_for_message lfs' !! lf_index f = Some 0
    ∧ tfs_message_matched lfs' !! lf_index f = Some false
    ∧ tfs_filter_hits lfs' = tfs_filter_hits lfs
    ∧ mask_bits_same (tfs_mask lfs) (tfs_mask lfs').
Proof.
  intros Hsized Hp Hcnt Hpending Hmm Hh Hsize Hmask.
  destruct (end_of_message_exact f lfs cnt pending false h)
    as (mask' & Heom & Hlen & Hlook); [done..|].
  destruct Hsized as (S1 & S2 & S3 & S4 & S5 & S6).
  eexists. split; [exact Heom|]. cbn.
  split.
  { unfold filter_arrays_sized. cbn. rewrite !length_insert. done. }
  split; [done|].
  split; [apply list_lookup_insert_eq; lia|].
  split; [apply list_lookup_insert_eq; lia|].
  split; [apply list_lookup_insert_eq; lia|].
  split; [by apply list_insert_id|].
  split; [done|].
  intros i m Hm. rewrite Hlook, Hm.
  case_decide; cbn.
  - eexists. split; [done|]. intros q Hq. by apply or_bit_false.
  - eauto.
Qed.

Lemma add_lines_empty_filter (p : nat) (lines : list (logline * string)) :
  ∀ lfs (cnt pending h : nat),
  filter_arrays_sized lfs →
  p < MAX_FILTERS →
  tfs_filter_count lfs !! p = Some cnt →
  tfs_lines_for_message lfs !! p = Some pending →
  tfs_message_matched lfs !! p = Some false →
  tfs_filter_hits lfs !! p = Some h →
  cnt + pending + length lines ≤ logfile_size (tfs_logfile lfs) →
  cnt + pending + length lines ≤ length (tfs_mask lfs) →
  ∃ lfs' cnt' pending',
    add_lines (empty_filter p) lfs lines = Ok lfs'
    ∧ filter_arrays_sized lfs'
    ∧ tfs_logfile lfs' = tfs_logfile lfs
    ∧ tfs_filter_count lfs' !! p = Some cnt'
    ∧ tfs_lines_for_message lfs' !! p = Some pending'
    ∧ cnt' + pending' = cnt + pending + length lines
    ∧ tfs_message_matched lfs' !! p = Some false
    ∧ tfs_filter_hits lfs' = tfs_filter_hits lfs
    ∧ mask_bits_same (tfs_mask lfs) (tfs_mask lfs').
Proof.
  induction lines as [|[ll body] lines IH];
    intros lfs cnt pending h Hsized Hp Hcnt Hpending Hmm Hh Hsize Hmask.
  - exists lfs, cnt, pending. cbn.
    split_and!; first [done | lia | apply mask_bits_same_refl].
  - cbn [add_lines length] in *.
    assert (∃ lfs1 cnt1 pending1,
              add_line (empty_filter p) lfs ll body = Ok lfs1
              ∧ filter_arrays_sized lfs1
              ∧ tfs_logfile lfs1 = tfs_logfile lfs
              ∧ tfs_filter_count lfs1 !! p = Some cnt1
              ∧ tfs_lines_for_message lfs1 !! p = Some pending1
              ∧ cnt1 + pending1 = cnt + pending + 1
              ∧ tfs_message_matched lfs1 !! p = Some false
              ∧ tfs_filter_hits lfs1 = tfs_filter_hits lfs
              ∧ mask_bits_same (tfs_mask lfs) (tfs_mask lfs1))
      as (lfs1 & cnt1 & pending1 & Hadd & Hsz1 & Hlf1 & Hc1 & Hl1 & Hsum
          & Hm1 & Hh1 & Hbits1).
    { destruct (is_continued ll) eqn:Hcont.
      - rewrite (add_line_continued (empty_filter p) lfs ll body false pending)
          by done.
        eexists _, cnt, (pending + 1). split; [done|]. cbn.
        destruct Hsized as (S1 & S2 & S3 & S4 & S5 & S6).
        split.
        { unfold filter_arrays_sized. cbn. rewrite !length_insert. done. }
        split; [done|]. split; [done|].
        split; [apply list_lookup_insert_eq; lia|].
        split; [lia|].
        split; [apply list_lookup_insert_eq; lia|].
        split; [done|]. apply mask_bits_same_refl.
      - destruct (end_of_message_unmatched (empty_filter p) lfs cnt pending h)
          as (lfs0 & Heom & Hsz0 & Hlf0 & Hc0 & Hl0 & Hm0 & Hh0 & Hbits0);
          [done | done | done | done | done | done | lia | lia |].
        cbn [lf_index empty_filter] in *.
        unfold add_line. rewrite Hcont. cbn [negb lf_index empty_filter matches].
        rewrite Heom, bind_ret_Ok.
        rewrite (at_index_Some _ _ _ Hm0), bind_ret_Ok.
        destruct Hsz0 as (S1 & S2 & S3 & S4 & S5 & S6).
        rewrite set_index_lt, bind_ret_Ok by lia.
        rewrite (at_index_Some _ _ _ Hl0), bind_ret_Ok.
        rewrite set_index_lt, bind_ret_Ok by lia.
        eexists _, (cnt + pending), 1. split; [done|]. cbn.
        split.
        { unfold filter_arrays_sized. cbn. rewrite !length_insert. done. }
        split; [done|]. split; [done|].
        split; [apply list_lookup_insert_eq; lia|].
        split; [lia|].
        split; [apply list_lookup_insert_eq; lia|].
        done. }
    rewrite Hadd, bind_ret_Ok.
    destruct (IH lfs1 cnt1 pending1 h)
      as (lfs' & cnt' & pending' & Hrun & Hsz' & Hlf' & Hc' & Hl' & Hsum'
          & Hm' & Hh' & Hbits'); try done.
    { by rewrite Hh1. }
    { rewrite Hlf1. lia. }
    { destruct Hbits1 as [-> _]. lia. }
    exists lfs', cnt', pending'. split_and!; try done.
    + congruence.
    + lia.
    + congruence.
    + by eapply mask_bits_same_trans.
Qed.

(** X4: the empty filter never matches.  Feed any run of lines, head lines
    and continuation lines alike, to [add_line] of an [empty_filter] and
    close the last message with [end_of_message]: every line is counted as
    finalised, the count of hits stays what it was, and no bit of any mask
    changes. *)
Theorem empty_filter_never_hits
    (p : nat) (lines : list (logline * string)) (lfs : logfile_filter_state)
    (cnt pending h : nat) :
  filter_arrays_sized lfs →
  p < MAX_FILTERS →
  tfs_filter_count lfs !! p = Some cnt →
  tfs_lines_for_message lfs !! p = Some pending →
  tfs_message_matched lfs !! p = Some false →
  tfs_filter_hits lfs !! p = Some h →
  cnt + pending + length lines ≤ logfile_size (tfs_logfile lfs) →
  cnt + pending + length lines ≤ length (tfs_mask lfs) →
  ∃ lfs1 lfs2,
    add_lines (empty_filter p) lfs lines = Ok lfs1
    ∧ end_of_message (empty_filter p) lfs1 = Ok lfs2
    ∧ tfs_filter_count lfs2 !! p = Some (cnt + pending + length lines)
    ∧ tfs_filter_hits lfs2 = tfs_filter_hits lfs
    ∧ mask_bits_same (tfs_mask lfs) (tfs_mask lfs2).
Proof.
  intros Hsized Hp Hcnt Hpending Hmm Hh Hsize Hmask.
  destruct (add_lines_empty_filter p lines lfs cnt pending h)
    as (lfs1 & cnt1 & pending1 & Hrun & Hsz1 & Hlf1 & Hc1 & Hl1 & Hsum
        & Hm1 & Hh1 & Hbits1); [done..|].
  destruct (end_of_message_unmatched (empty_filter p) lfs1 cnt1 pending1 h)
    as (lfs2 & Heom & _ & _ & Hc2 & _ & _ & Hh2 & Hbits2); try done.
  { by rewrite Hh1. }
  { rewrite Hlf1. lia. }
  { destruct Hbits1 as [-> _]. lia. }
  exists lfs1, lfs2. split_and!; try done.
  - cbn [lf_index empty_filter] in Hc2. rewrite Hc2. f_equal. lia.
  - congruence.
  - by eapply mask_bits_same_trans.
Qed.

(** *** The filter scenarios, run *)

Lemma revert_to_last_undoes_end_of_message_witness :
  ∃ lfs1,
    end_of_message err_filter open_message_state = Ok lfs1
    ∧ revert_to_last err_filter lfs1 1
      = Ok {| tfs_logfile := error_message_file;
              tfs_filter_count := tfs_filter_count open_message_state;
              tfs_filter_hits := tfs_filter_hits open_message_state;
              tfs_message_matched :=
                <[0 := if decide (3 - 1 = 0) then false else true]>
                  (tfs_message_matched open_message_state);
              tfs_lines_for_message :=
                <[0 := 3 - 1]> (tfs_lines_for_message open_message_state);
              tfs_last_message_matched :=
                <[0 := true]> (tfs_last_message_matched open_message_state);
              tfs_last_lines_for_message :=
                <[0 := 3]> (tfs_last_lines_for_message open_message_state);
              tfs_mask := tfs_mask open_message_state |}.
Proof.
  apply (revert_to_last_undoes_end_of_message err_filter open_message_state
           0 3 0 1 true).
  - repeat split; reflexivity.
  - unfold MAX_FILTERS. simpl. lia.
  - reflexivity.
  - reflexivity.
  - reflexivity.
  - reflexivity.
  - vm_compute. lia.
  - vm_compute. lia.
  - lia.
  - intros i m Hi Hm.
    destruct i as [|[|[|i]]]; simpl in Hm; try discriminate;
      injection Hm as <-; (split; [lia | reflexivity]).
Defined.

Lemma filter_touches_only_its_own_slot_witness :
  other_filters_kept 0 open_message_state closed_message_state.
Proof.
  apply (filter_touches_only_its_own_slot err_filter open_message_state
           closed_message_state).
  left. vm_compute. reflexivity.
Defined.

Lemma revert_to_last_needs_a_closed_message_witness :
  revert_to_last err_filter
    {| tfs_logfile := error_message_file;
       tfs_filter_count := replicate MAX_FILTERS 0;
       tfs_filter_hits := replicate MAX_FILTERS 0;
       tfs_message_matched := replicate MAX_FILTERS false;
       tfs_lines_for_message := <[0 := 1]> (replicate MAX_FILTERS 0);
       tfs_last_message_matched := replicate MAX_FILTERS false;
       tfs_last_lines_for_message := replicate MAX_FILTERS 0;
       tfs_mask := replicate 3 0%Z |} 0
  = Abort.
Proof.
  apply (revert_to_last_needs_a_closed_message err_filter
           (fresh_filter_state error_message_file) _ error_head
           "request failed" 0).
  vm_compute. reflexivity.
Defined.

Lemma empty_filter_never_hits_witness :
  let lfs := fresh_filter_state error_message_file in
  let lines := [(error_head, "request failed");
                (continuation 1, "  at frame 1");
                (continuation 2, "ERR")] in
  ∃ lfs1 lfs2,
    add_lines (empty_filter 5) lfs lines = Ok lfs1
    ∧ end_of_message (empty_filter 5) lfs1 = Ok lfs2
    ∧ tfs_filter_count lfs2 !! 5 = Some (0 + 0 + 3)
    ∧ tfs_filter_hits lfs2 = tfs_filter_hits lfs
    ∧ mask_bits_same (tfs_mask lfs) (tfs_mask lfs2).
Proof.
  apply (empty_filter_never_hits 5
           [(error_head, "request failed");
            (continuation 1, "  at frame 1");
            (continuation 2, "ERR")]
           (fresh_filter_state error_message_file) 0 0 0).
  - repeat split; reflexivity.
  - unfold MAX_FILTERS. lia.
  - reflexivity.
  - reflexivity.
  - reflexivity.
  - reflexivity.
  - vm_compute. lia.
  - vm_compute. lia.
Defined.

(** ** The width of a ContentLine *)

Lemma uint32_range (z : Z) : (0 ≤ uint32 z < 2 ^ 32)%Z.
Proof. unfold uint32. apply Z.mod_pos_bound. lia. Qed.

Lemma uint32_zero_range : (0 ≤ 0 < 2 ^ 32)%Z.
Proof. split; [done | reflexivity]. Qed.

Lemma uint32_small (z : Z) : (0 ≤ z < 2 ^ 32)%Z → uint32 z = z.
Proof. unfold uint32. apply Z.mod_small. Qed.

Lemma content_line_add_assoc (a b c : Z) :
  uint32 (uint32 (a + b) + c) = uint32 (a + (b + c)).
Proof. unfold uint32. rewrite Zplus_mod_idemp_l. f_equal. lia. Qed.

Lemma entries_fit (files : list logfile_data) (index : list content_line_t) :
  slots_fit files →
  Forall (entry_in_range files) index →
  content_lines_fit index.
Proof.
  unfold slots_fit, content_lines_fit. intros Hfit Hall.
  eapply Forall_impl; [exact Hall|].
  intros cl (Hpos & ld & Hld%lookup_lt_Some & _).
  split; [done|].
  assert (cl / MAX_LINES_PER_FILE < Z.of_nat (length files))%Z as Hslot.
  { assert (0 ≤ cl / MAX_LINES_PER_FILE)%Z
      by (apply Z.div_pos; [done | reflexivity]).
    lia. }
  pose proof (Z.div_mod cl MAX_LINES_PER_FILE ltac:(discriminate)) as Hdiv.
  pose proof (Z.mod_pos_bound cl MAX_LINES_PER_FILE ltac:(reflexivity))
    as Hmod.
  nia.
Qed.

(** ** Looking a file up by name *)

Lemma find_fn_loop_found files fn : ∀ base lf base',
  (0 ≤ base < 2 ^ 32)%Z →
  find_fn_loop files fn base = (Some lf, base') →
  ∃ i ld,
    files !! i = Some ld
    ∧ get_file ld = Some lf
    ∧ strcmp_eq (lf_filename lf) fn = true
    ∧ (∀ j ld' lf', j < i → files !! j = Some ld' →
         get_file ld' = Some lf' → strcmp_eq (lf_filename lf') fn = false)
    ∧ base' = uint32 (base + MAX_LINES_PER_FILE
                             * Z.of_nat (length (attached (take i files)))).
Proof.
  induction files as [|ld files IH]; intros base lf base' Hbase H; [done|].
  cbn [find_fn_loop] in H.
  destruct (get_file ld) as [lf0|] eqn:Hlf0.
  - destruct (strcmp_eq (lf_filename lf0) fn) eqn:Hcmp.
    + injection H as <- <-. exists 0, ld. split_and!; try done.
      * intros j ld' lf' Hj. lia.
      * cbn. rewrite uint32_small; lia.
    + destruct (IH _ _ _ (uint32_range _) H)
        as (i & ld1 & Hi & Hlf & Hname & Hbefore & Hbase').
      exists (S i), ld1. split_and!; try done.
      * intros [|j] ld' lf' Hj Hlook Hlf'.
        -- cbn in Hlook. injection Hlook as <-. congruence.
        -- eapply (Hbefore j); [lia | done | done].
      * cbn [take]. unfold attached in *. rewrite filter_cons_True
          by (rewrite Hlf0; eauto).
        cbn [length]. rewrite Hbase', content_line_add_assoc.
        f_equal. lia.
  - destruct (IH _ _ _ Hbase H)
      as (i & ld1 & Hi & Hlf & Hname & Hbefore & Hbase').
    exists (S i), ld1. split_and!; try done.
    + intros [|j] ld' lf' Hj Hlook Hlf'.
      * cbn in Hlook. injection Hlook as <-. congruence.
      * eapply (Hbefore j); [lia | done | done].
    + cbn [take]. unfold attached in *. rewrite filter_cons_False; [done|].
      rewrite Hlf0. by intros [? ?].
Qed.

Lemma find_fn_loop_missing files fn : ∀ base base',
  (0 ≤ base < 2 ^ 32)%Z →
  find_fn_loop files fn base = (None, base') →
  (∀ j ld lf, files !! j = Some ld → get_file ld = Some lf →
     strcmp_eq (lf_filename lf) fn = false)
  ∧ base' = uint32 (base + MAX_LINES_PER_FILE
                           * Z.of_nat (length (attached files))).
Proof.
  induction files as [|ld files IH]; intros base base' Hbase H.
  - injection H as <-. split; [done|]. cbn.
    rewrite uint32_small; lia.
  - cbn [find_fn_loop] in H.
    destruct (get_file ld) as [lf0|] eqn:Hlf0.
    + destruct (strcmp_eq (lf_filename lf0) fn) eqn:Hcmp; [done|].
      destruct (IH _ _ (uint32_range _) H) as [Hnone Hbase']. split.
      * intros [|j] ld' lf' Hlook Hlf'.
        -- cbn in Hlook. injection Hlook as <-. congruence.
        -- by eapply (Hnone j).
      * unfold attached in *. rewrite filter_cons_True
          by (rewrite Hlf0; eauto).
        cbn [length]. rewrite Hbase', content_line_add_assoc.
        f_equal. lia.
    + destruct (IH _ _ Hbase H) as [Hnone Hbase']. split.
      * intros [|j] ld' lf' Hlook Hlf'.
        -- cbn in Hlook. injection Hlook as <-. congruence.
        -- by eapply (Hnone j).
      * unfold attached in *. rewrite filter_cons_False; [done|].
        rewrite Hlf0. by intros [? ?].
Qed.

(** X5: what [find(fn, line_base)] returns.  When it finds a file, the file
    sits in the first slot whose attached file has the name [fn], and
    [line_base] is [MAX_LINES_PER_FILE] times the number of attached files
    before that slot, as a 32-bit ContentLine: a slot whose file is gone is
    skipped and does not count, and from 256 counted files on the value
    wraps around.  When it finds none, no attached file has the name and
    [line_base] is [MAX_LINES_PER_FILE] times the number of attached files,
    as a 32-bit ContentLine. *)
Theorem find_fn_first_match_and_base
    (lss : logfile_sub_source) (fn : string) :
  match find_fn lss fn with
  | (Some lf, line_base) =>
      ∃ i ld,
        lss_files lss !! i = Some ld
        ∧ get_file ld = Some lf
        ∧ strcmp_eq (lf_filename lf) fn = true
        ∧ (∀ j ld' lf', j < i → lss_files lss !! j = Some ld' →
             get_file ld' = Some lf' →
             strcmp_eq (lf_filename lf') fn = false)
        ∧ line_base
          = uint32
              (MAX_LINES_PER_FILE
               * Z.of_nat (length (attached (take i (lss_files lss)))))
  | (None, line_base) =>
      (∀ j ld lf, lss_files lss !! j = Some ld → get_file ld = Some lf →
         strcmp_eq (lf_filename lf) fn = false)
      ∧ line_base
        = uint32
            (MAX_LINES_PER_FILE
             * Z.of_nat (length (attached (lss_files lss))))
  end.
Proof.
  unfold find_fn.
  destruct (find_fn_loop (lss_files lss) fn 0) as [[lf|] base] eqn:H.
  - destruct (find_fn_loop_found _ _ _ _ _ uint32_zero_range H)
      as (i & ld & Hi & Hlf & Hname & Hbefore & Hbase).
    exists i, ld. split_and!; done.
  - destruct (find_fn_loop_missing _ _ _ _ uint32_zero_range H) as [Hnone Hbase].
    split; done.
Qed.

Lemma attached_all files :
  Forall (λ ld, is_Some (get_file ld)) files → attached files = files.
Proof.
  induction 1 as [|ld files Hld Hall IH]; [done|].
  unfold attached in *. rewrite filter_cons_True by done. by rewrite IH.
Qed.

(** X6: [line_base] is the ContentLine of the first line of the file found,
    as long as no file is gone and the slots fit the 32-bit ContentLine.
    On a sub-source of at most 256 slots, numbered by position and all
    still with their file, if [find(fn, line_base)] finds a file then
    [line_base + n] is a 32-bit value and decodes to the slot of that file
    and line [n], for every line number [n < MAX_LINES_PER_FILE]. *)
Theorem find_fn_base_decodes_to_the_file
    (lss : logfile_sub_source) (fn : string) (lf : logfile)
    (line_base : content_line_t) (n : nat) :
  files_ok (lss_files lss) →
  slots_fit (lss_files lss) →
  Forall (λ ld, is_Some (get_file ld)) (lss_files lss) →
  find_fn lss fn = (Some lf, line_base) →
  (Z.of_nat n < MAX_LINES_PER_FILE)%Z →
  ∃ ld,
    find_data (lss_files lss) (line_base + Z.of_nat n)%Z = Ok (ld, n)
    ∧ get_file ld = Some lf
    ∧ (line_base + Z.of_nat n)%Z = con_line (ld_file_index ld) n
    ∧ (0 ≤ line_base + Z.of_nat n < 2 ^ 32)%Z.
Proof.
  intros Hok Hfit Hall Hfind Hn. unfold find_fn in Hfind.
  destruct (find_fn_loop_found _ _ _ _ _ uint32_zero_range Hfind)
    as (i & ld & Hi & Hlf & _ & _ & Hbase).
  rewrite attached_all in Hbase by (by apply Forall_take).
  pose proof (lookup_lt_Some _ _ _ Hi) as Hlt.
  rewrite length_take_le in Hbase by lia.
  unfold slots_fit in Hfit.
  assert (MAX_LINES_PER_FILE = 2 ^ 24)%Z as HMAX by reflexivity.
  rewrite uint32_small in Hbase by nia.
  destruct (Hok i ld Hi) as [Hidx _].
  assert ((line_base + Z.of_nat n)%Z = con_line i n) as Hcl
    by (unfold con_line; lia).
  destruct (con_line_decode i n Hn) as (_ & Hslot & Hline).
  exists ld. split_and!; [|done|by rewrite Hidx|nia|nia].
  unfold find_data. rewrite Hcl, Hslot, Hline.
  by rewrite (at_index_Some _ _ _ Hi).
Qed.

(** ** Walking the location history *)

Lemma ring_rat_entry h k cl :
  entry_back h k = Some cl → ring_rat (llh_history h) k = Ok cl.
Proof.
  unfold entry_back, ring_rat. case_bool_decide; [|done]. intros Hcl.
  cbn. by apply at_index_Some.
Qed.

Lemma entry_back_is_Some h k :
  k < length (llh_history h) → is_Some (entry_back h k).
Proof.
  intros Hk. unfold entry_back. rewrite bool_decide_eq_true_2 by done.
  apply lookup_lt_is_Some_2. lia.
Qed.

Section LocationHistoryFacts.

Context (find_from_content : content_line_t → option vis_line_t).

Lemma loc_history_forward_loop_spec ring maxsz pos0 : ∀ pos,
  pos ≤ length ring →
  let h := {| llh_history := ring; llh_max_size := maxsz;
              lh_history_position := pos0 |} in
  ∃ pos' r,
    loc_history_forward_loop find_from_content ring pos = Ok (pos', r)
    ∧ match r with
      | Some v =>
          pos' < pos
          ∧ (∃ cl, entry_back h pos' = Some cl
                   ∧ find_from_content cl = Some v)
          ∧ ∀ k cl, pos' < k < pos → entry_back h k = Some cl →
                    find_from_content cl = None
      | None =>
          pos' = 0
          ∧ ∀ k cl, k < pos → entry_back h k = Some cl →
                    find_from_content cl = None
      end.
Proof.
  intros pos Hpos h. induction pos as [|pos IH].
  - exists 0, None. cbn. split; [done|]. split; [done|]. intros; lia.
  - destruct (entry_back_is_Some h pos ltac:(cbn; lia)) as [cl Hcl].
    cbn [loc_history_forward_loop].
    pose proof (ring_rat_entry h pos cl Hcl) as Hrat.
    unfold h in Hrat. cbn [llh_history] in Hrat.
    rewrite Hrat, bind_ret_Ok.
    destruct (find_from_content cl) as [v|] eqn:Hv.
    + exists pos, (Some v). split; [done|]. split; [lia|].
      split; [eauto|]. intros; lia.
    + destruct IH as (pos' & r & Hloop & Hr); [lia|].
      exists pos', r. split; [done|]. destruct r as [v|].
      * destruct Hr as (Hlt & Hfound & Hnone).
        split; [lia|]. split; [done|].
        intros k cl' Hk Hcl'. destruct (decide (k = pos)) as [->|Hne].
        -- congruence.
        -- apply (Hnone k); [lia | done].
      * destruct Hr as (-> & Hnone). split; [done|].
        intros k cl' Hk Hcl'. destruct (decide (k = pos)) as [->|Hne].
        -- congruence.
        -- apply (Hnone k); [lia | done].
Qed.

Lemma loc_history_back_loop_spec ring maxsz top : ∀ fuel pos,
  0 < pos ∨ (∃ cl, last ring = Some cl ∧ find_from_content cl = Some top) →
  pos < length ring →
  length ring - pos ≤ fuel →
  let h := {| llh_history := ring; llh_max_size := maxsz;
              lh_history_position := pos |} in
  ∃ pos' r,
    loc_history_back_loop find_from_content fuel h top
    = Ok (set_history_position h pos', r)
    ∧ match r with
      | Some v =>
          pos < pos'
          ∧ (∃ cl, entry_back h pos' = Some cl
                   ∧ find_from_content cl = Some v)
          ∧ none_shown find_from_content h pos pos'
      | None =>
          pos' = length ring - 1
          ∧ none_shown find_from_content h pos (length ring)
      end.
Proof.
  induction fuel as [|fuel IH]; intros pos Hstart Hpos Hfuel h; [lia|].
  cbn [loc_history_back_loop]. subst h.
  cbn [llh_history lh_history_position set_history_position].
  rewrite bool_decide_eq_true_2 by done.
  destruct (last ring) as [newest|] eqn:Hlast.
  2:{ apply last_None in Hlast. subst ring. cbn in Hpos. lia. }
  assert (ring_rat ring 0 = Ok newest) as ->.
  { unfold ring_rat. rewrite bool_decide_eq_true_2 by lia. cbn.
    apply at_index_Some. rewrite last_lookup in Hlast.
    rewrite <- Hlast. f_equal. lia. }
  rewrite bind_ret_Ok. cbv zeta.
  assert (bool_decide (pos = 0)
          && bool_decide (find_from_content newest ≠ Some top) = false)
    as ->.
  { destruct Hstart as [Hp|(cl & Hcl & Hshown)].
    - rewrite bool_decide_eq_false_2 by lia. done.
    - assert (cl = newest) as -> by congruence.
      rewrite (bool_decide_eq_false_2 (_ ≠ _)) by (intros Hne; done).
      apply andb_false_r. }
  case_bool_decide as Hend.
  - exists pos, None. split; [done|]. split; [lia|].
    intros k cl Hk. lia.
  - set (h := {| llh_history := ring; llh_max_size := maxsz;
                 lh_history_position := pos |}).
    destruct (entry_back_is_Some h (pos + 1) ltac:(cbn; lia)) as [cl Hcl].
    pose proof (ring_rat_entry h (pos + 1) cl Hcl) as Hrat.
    unfold h in Hrat. cbn [llh_history] in Hrat.
    rewrite Hrat, bind_ret_Ok.
    destruct (find_from_content cl) as [v|] eqn:Hv.
    + exists (pos + 1), (Some v). split; [done|]. split; [lia|].
      split; [eauto|]. intros k cl' Hk. lia.
    + destruct (IH (pos + 1)) as (pos' & r & Hloop & Hr);
        [left; lia | lia | lia |].
      cbn [set_history_position llh_history llh_max_size] in Hloop.
      exists pos', r. split; [done|].
      destruct r as [v|].
      * destruct Hr as (Hlt & Hfound & Hnone).
        split; [lia|]. split; [done|].
        intros k cl' Hk Hcl'. destruct (decide (k = pos + 1)) as [->|Hne].
        -- unfold entry_back in *. cbn in *. congruence.
        -- apply (Hnone k); [lia | done].
      * destruct Hr as (-> & Hnone). split; [done|].
        intros k cl' Hk Hcl'. destruct (decide (k = pos + 1)) as [->|Hne].
        -- unfold entry_back in *. cbn in *. congruence.
        -- apply (Hnone k); [lia | done].
Qed.

End LocationHistoryFacts.

Lemma set_history_position_same h :
  set_history_position h (lh_history_position h) = h.
Proof. by destruct h. Qed.

Lemma entry_back_set_position h pos k :
  entry_back (set_history_position h pos) k = entry_back h k.
Proof. done. Qed.

(** X7: [loc_history_forward] moves the cursor to the nearest newer entry
    that a row of the view still shows and returns that row; the entries it
    steps over are shown by no row.  When no newer entry is shown it returns
    nothing and leaves the cursor on the newest entry. *)
Theorem loc_history_forward_skips_to_nearest_shown
    (find_from_content : content_line_t → option vis_line_t)
    (h : log_location_history) (current_top : vis_line_t) :
  lh_history_position h ≤ length (llh_history h) →
  ∃ pos' r,
    loc_history_forward find_from_content h current_top
    = Ok (set_history_position h pos', r)
    ∧ match r with
      | Some v =>
          pos' < lh_history_position h
          ∧ (∃ cl, entry_back h pos' = Some cl
                   ∧ find_from_content cl = Some v)
          ∧ ∀ k cl, pos' < k < lh_history_position h →
                    entry_back h k = Some cl → find_from_content cl = None
      | None =>
          pos' = 0
          ∧ ∀ k cl, k < lh_history_position h →
                    entry_back h k = Some cl → find_from_content cl = None
      end.
Proof.
  intros Hpos. destruct h as [ring maxsz pos]. cbn in Hpos.
  destruct (loc_history_forward_loop_spec find_from_content ring maxsz pos
              pos Hpos) as (pos' & r & Hloop & Hr).
  exists pos', r. split; [|done].
  unfold loc_history_forward. cbn [llh_history lh_history_position].
  by rewrite Hloop.
Qed.

(** X8: [loc_history_back].  With the cursor past the last entry, as on an
    empty history, it returns nothing and changes nothing.  With the cursor
    on the newest entry, when that entry is not what the view shows at
    [current_top] the call returns the row of the newest entry, or nothing
    when no row shows it, and the cursor stays.  In every other case the
    cursor moves to the nearest older entry that a row still shows and the
    call returns that row, stepping over entries shown by no row; when no
    older entry is shown it returns nothing and the cursor rests on the
    oldest entry. *)
Theorem loc_history_back_skips_to_nearest_shown
    (find_from_content : content_line_t → option vis_line_t)
    (h : log_location_history) (current_top : vis_line_t) :
  ∃ pos' r,
    loc_history_back find_from_content h current_top
    = Ok (set_history_position h pos', r)
    ∧ if decide (length (llh_history h) ≤ lh_history_position h) then
        pos' = lh_history_position h ∧ r = None
      else
        ∃ newest,
          entry_back h 0 = Some newest
          ∧ if decide (lh_history_position h = 0
                       ∧ find_from_content newest ≠ Some current_top)
            then pos' = 0 ∧ r = find_from_content newest
            else match r with
                 | Some v =>
                     lh_history_position h < pos'
                     ∧ (∃ cl, entry_back h pos' = Some cl
                              ∧ find_from_content cl = Some v)
                     ∧ none_shown find_from_content h
                         (lh_history_position h) pos'
                 | None =>
                     pos' = length (llh_history h) - 1
                     ∧ none_shown find_from_content h
                         (lh_history_position h) (length (llh_history h))
                 end.
Proof.
  destruct h as [ring maxsz pos].
  cbn [llh_history lh_history_position].
  case_decide as Hout.
  - exists pos, None. split; [|done].
    unfold loc_history_back. cbn.
    by rewrite bool_decide_eq_false_2 by lia.
  - set (h := {| llh_history := ring; llh_max_size := maxsz;
                 lh_history_position := pos |}).
    destruct (entry_back_is_Some h 0 ltac:(cbn; lia)) as [newest Hnewest].
    assert (last ring = Some newest) as Hlast.
    { unfold entry_back in Hnewest. cbn in Hnewest.
      rewrite bool_decide_eq_true_2 in Hnewest by lia.
      rewrite last_lookup, <- Hnewest. f_equal. lia. }
    destruct (decide (pos = 0
                      ∧ find_from_content newest ≠ Some current_top))
      as [[Hp0 Hne]|Hfirst].
    + exists 0, (find_from_content newest). split.
      2:{ exists newest. split; [done|]. by rewrite decide_True. }
      pose proof (ring_rat_entry h 0 newest Hnewest) as Hrat.
      unfold h in Hrat. cbn [llh_history] in Hrat.
      unfold loc_history_back, h. cbn [loc_history_back_loop llh_history
        lh_history_position].
      rewrite bool_decide_eq_true_2 by lia.
      rewrite Hrat, bind_ret_Ok. cbv zeta.
      rewrite !bool_decide_eq_true_2 by done. cbn.
      unfold set_history_position. cbn. by rewrite Hp0.
    + destruct (loc_history_back_loop_spec find_from_content ring maxsz
                  current_top (S (length ring)) pos)
        as (pos' & r & Hloop & Hr); [|lia|lia|].
      { destruct (decide (pos = 0)) as [->|Hp]; [|left; lia].
        right. exists newest. split; [done|].
        destruct (decide (find_from_content newest = Some current_top));
          [done|]. by destruct Hfirst. }
      exists pos', r. split; [exact Hloop|]. exists newest.
      split; [done|]. by rewrite decide_False.
Qed.

(** X9: back and forth.  Let the cursor rest on an entry that a row still
    shows and that is not the oldest one; when it is the newest entry, let
    its row be [current_top].  Then [loc_history_back] followed by
    [loc_history_forward] brings the cursor back to that entry and returns
    its row. *)
Theorem loc_history_back_then_forward
    (find_from_content : content_line_t → option vis_line_t)
    (h : log_location_history) (current_top top' : vis_line_t)
    (cl : content_line_t) (v : vis_line_t) :
  lh_history_position h + 1 < length (llh_history h) →
  entry_back h (lh_history_position h) = Some cl →
  find_from_content cl = Some v →
  (lh_history_position h = 0 → v = current_top) →
  ∃ h1 r1,
    loc_history_back find_from_content h current_top = Ok (h1, r1)
    ∧ loc_history_forward find_from_content h1 top' = Ok (h, Some v).
Proof.
  intros Hpos Hcl Hv Htop. destruct h as [ring maxsz pos].
  cbn [llh_history lh_history_position] in *.
  set (h := {| llh_history := ring; llh_max_size := maxsz;
               lh_history_position := pos |}) in *.
  destruct (loc_history_back_loop_spec find_from_content ring maxsz
              current_top (S (length ring)) pos)
    as (pos1 & r1 & Hback & Hr1); [|lia|lia|].
  { destruct (decide (pos = 0)) as [->|Hp]; [|left; lia].
    right. exists cl. split; [|by rewrite <- Htop].
    unfold entry_back in Hcl. cbn in Hcl.
    rewrite bool_decide_eq_true_2 in Hcl by lia.
    rewrite last_lookup, <- Hcl. f_equal. lia. }
  fold h in Hback.
  assert (pos < pos1 < length ring
          ∧ none_shown find_from_content h pos pos1) as [Hpos1 Hnone].
  { destruct r1 as [v1|].
    - destruct Hr1 as (Hlt & (cl1 & Hcl1 & _) & Hnone). split; [|done].
      split; [done|]. unfold entry_back in Hcl1. cbn in Hcl1.
      by case_bool_decide.
    - destruct Hr1 as (-> & Hnone). split; [lia|].
      intros k cl' Hk. apply Hnone. lia. }
  exists (set_history_position h pos1), r1. split; [exact Hback|].
  destruct (loc_history_forward_loop_spec find_from_content ring maxsz pos
              pos1 ltac:(lia)) as (pos2 & r2 & Hfwd & Hr2).
  fold h in Hr2.
  unfold loc_history_forward.
  cbn [set_history_position llh_history lh_history_position h].
  rewrite Hfwd, bind_ret_Ok. cbn.
  destruct r2 as [v2|].
  - destruct Hr2 as (Hlt & (cl2 & Hcl2 & Hv2) & Hbetween).
    assert (pos2 = pos) as ->.
    { destruct (decide (pos2 < pos)) as [Hlo|Hhi].
      - specialize (Hbetween pos cl ltac:(lia) Hcl). congruence.
      - destruct (decide (pos < pos2)) as [Hup|]; [|lia].
        specialize (Hnone pos2 cl2 ltac:(lia) Hcl2). congruence. }
    do 2 f_equal. congruence.
  - destruct Hr2 as (_ & Hall).
    specialize (Hall pos cl ltac:(lia) Hcl). congruence.
Qed.

(** *** The history scenarios, run *)

Lemma loc_history_forward_skips_to_nearest_shown_witness :
  ∃ pos' r,
    loc_history_forward rows_of_10_and_30 three_visits 0
    = Ok (set_history_position three_visits pos', r)
    ∧ match r with
      | Some v =>
          pos' < 2
          ∧ (∃ cl, entry_back three_visits pos' = Some cl
                   ∧ rows_of_10_and_30 cl = Some v)
          ∧ ∀ k cl, pos' < k < 2 →
                    entry_back three_visits k = Some cl →
                    rows_of_10_and_30 cl = None
      | None =>
          pos' = 0
          ∧ ∀ k cl, k < 2 →
                    entry_back three_visits k = Some cl →
                    rows_of_10_and_30 cl = None
      end.
Proof.
  apply (loc_history_forward_skips_to_nearest_shown rows_of_10_and_30
           three_visits 0).
  vm_compute. lia.
Defined.

Lemma loc_history_back_then_forward_witness :
  ∃ h1 r1,
    loc_history_back rows_of_10_and_30
      (set_history_position three_visits 0) 3 = Ok (h1, r1)
    ∧ loc_history_forward rows_of_10_and_30 h1 1
      = Ok (set_history_position three_visits 0, Some 3%Z).
Proof.
  apply (loc_history_back_then_forward rows_of_10_and_30
           (set_history_position three_visits 0) 3 1 30 3).
  - vm_compute. lia.
  - reflexivity.
  - reflexivity.
  - reflexivity.
Defined.

(** ** Finding a row by time *)

Lemma timestamp_lt_spec (a b : timestamp) :
  timestamp_lt a b = true ↔ (a.1 < b.1 ∨ (a.1 = b.1 ∧ a.2 < b.2))%Z.
Proof.
  unfold timestamp_lt.
  rewrite orb_true_iff, andb_true_iff, !Z.ltb_lt, Z.eqb_eq. done.
Qed.

Lemma timestamp_lt_false (a b : timestamp) :
  timestamp_lt a b = false ↔ (b.1 < a.1 ∨ (a.1 = b.1 ∧ b.2 ≤ a.2))%Z.
Proof.
  rewrite <- not_true_iff_false, timestamp_lt_spec. lia.
Qed.

Lemma timestamp_not_lt_lt (a b c : timestamp) :
  timestamp_lt b a = false → timestamp_lt b c = true →
  timestamp_lt a c = true.
Proof.
  rewrite timestamp_lt_false, !timestamp_lt_spec. lia.
Qed.

Lemma lower_bound_by_spec {A : Type} (comp : A → result bool) (v : list A)
    (below : nat → bool) :
  (∀ k x, v !! k = Some x → comp x = Ok (below k)) →
  (∀ i j, i ≤ j → j < length v → below j = true → below i = true) →
  ∀ fuel first len,
    first + len ≤ length v →
    len < fuel →
    (∀ k, k < first → below k = true) →
    (∀ k, first + len ≤ k → k < length v → below k = false) →
    ∃ lb,
      lower_bound_by comp v first len fuel = Ok lb
      ∧ lb ≤ length v
      ∧ (∀ k, k < lb → below k = true)
      ∧ (∀ k, lb ≤ k → k < length v → below k = false).
Proof.
  intros Hcomp Hpart. induction fuel as [|fuel IH];
    intros first len Hrange Hfuel Hlow Hhigh; [lia|].
  cbn [lower_bound_by]. case_bool_decide as Hlen.
  2:{ exists first. split; [done|]. split; [lia|]. split; [done|].
      intros k Hk. apply Hhigh. lia. }
  cbv zeta.
  pose proof (Nat.Div0.div_le_upper_bound len 2 len ltac:(lia)) as Hhalf.
  assert (len / 2 < len) as Hhalf' by (apply Nat.div_lt; lia).
  destruct (lookup_lt_is_Some_2 v (first + len / 2) ltac:(lia)) as [x Hx].
  rewrite (at_index_Some _ _ _ Hx), bind_ret_Ok.
  rewrite (Hcomp _ _ Hx), bind_ret_Ok.
  destruct (below (first + len / 2)) eqn:Hmid.
  - apply IH; [lia | lia | |].
    + intros k Hk. apply (Hpart k (first + len / 2)); [lia | | done].
      by eapply lookup_lt_Some.
    + intros k Hk. apply Hhigh. lia.
  - apply IH; [lia | lia | done |].
    intros k Hk Hlt.
    destruct (below k) eqn:Hbk; [|done].
    rewrite (Hpart (first + len / 2) k) in Hmid; [done | lia | done | done].
Qed.

Lemma row_times_lookup lss times k row :
  row_times lss = Some times →
  lss_filtered_index lss !! k = Some row →
  ∃ cl ll t,
    lss_index lss !! Z.to_nat row = Some cl
    ∧ find_line (lss_files lss) cl = Ok (Some ll)
    ∧ get_timeval ll = t
    ∧ times !! k = Some t.
Proof.
  unfold row_times. intros Htimes Hrow.
  apply mapM_Some in Htimes.
  destruct (Forall2_lookup_l _ _ _ _ _ Htimes Hrow) as (t & Ht & Hres).
  destruct (lss_index lss !! Z.to_nat row) as [cl|] eqn:Hcl; [|done].
  destruct (find_line (lss_files lss) cl) as [[ll|]| |] eqn:Hll; try done.
  injection Hres as <-. exists cl, ll, (get_timeval ll). done.
Qed.

Lemma row_times_length lss times :
  row_times lss = Some times →
  length times = length (lss_filtered_index lss).
Proof.
  unfold row_times. intros Htimes. apply mapM_Some in Htimes.
  symmetry. by eapply Forall2_length.
Qed.

(** X10: [find_from_time] on a view whose rows are in time order.  When
    every row resolves to a line and the lines come in non-decreasing
    timestamp order, the call returns the first row whose line is not older
    than [start]; it returns -1 exactly when every row is older, as on an
    empty view. *)
Theorem find_from_time_first_row_not_older
    (lss : logfile_sub_source) (start : timestamp)
    (times : list timestamp) :
  row_times lss = Some times →
  times_in_order times →
  (Z.of_nat (length (lss_filtered_index lss)) < 2 ^ 31)%Z →
  ∃ r,
    find_from_time lss start = Ok r
    ∧ ((r = (-1)%Z
        ∧ ∀ k t, times !! k = Some t → timestamp_lt t start = true)
       ∨ ((0 ≤ r)%Z
          ∧ (∃ t, times !! Z.to_nat r = Some t
                  ∧ timestamp_lt t start = false)
          ∧ ∀ k t, k < Z.to_nat r → times !! k = Some t →
                   timestamp_lt t start = true)).
Proof.
  intros Htimes Horder Hsmall.
  pose proof (row_times_length _ _ Htimes) as Hlen.
  set (below := λ k, match times !! k with
                     | Some t => timestamp_lt t start
                     | None => false
                     end).
  destruct (lower_bound_by_spec
              (λ row, filtered_logline_cmp lss row start)
              (lss_filtered_index lss) below)
    with (fuel := S (length (lss_filtered_index lss))) (first := 0)
         (len := length (lss_filtered_index lss))
    as (lb & Hrun & Hlb & Hlow & Hhigh).
  - intros k row Hrow.
    destruct (row_times_lookup _ _ _ _ Htimes Hrow)
      as (cl & ll & t & Hcl & Hll & Ht & Hk).
    unfold filtered_logline_cmp, below.
    rewrite (at_index_Some _ _ _ Hcl), bind_ret_Ok.
    rewrite Hll, bind_ret_Ok. cbn. by rewrite Hk, Ht.
  - intros i j Hij Hj. unfold below.
    destruct (lookup_lt_is_Some_2 times i ltac:(lia)) as [ti Hti].
    destruct (lookup_lt_is_Some_2 times j ltac:(lia)) as [tj Htj].
    rewrite Hti, Htj. intros Hbelow.
    eapply timestamp_not_lt_lt; [|exact Hbelow].
    by eapply (Horder i j).
  - lia.
  - lia.
  - intros k Hk. lia.
  - intros k Hk Hlt. lia.
  - unfold find_from_time. cbv zeta. rewrite Hrun, bind_ret_Ok.
    case_bool_decide as Hend.
    + eexists. split; [done|]. right.
      assert (int_of_ptrdiff (Z.of_nat lb) = Z.of_nat lb) as ->.
      { unfold int_of_ptrdiff. rewrite Z.mod_small by lia. lia. }
      rewrite Nat2Z.id. split; [lia|]. split.
      * destruct (lookup_lt_is_Some_2 times lb ltac:(lia)) as [t Ht].
        exists t. split; [done|].
        specialize (Hhigh lb ltac:(lia) ltac:(lia)).
        unfold below in Hhigh. by rewrite Ht in Hhigh.
      * intros k t Hk Ht. specialize (Hlow k Hk).
        unfold below in Hlow. by rewrite Ht in Hlow.
    + eexists. split; [done|]. left. split; [done|].
      intros k t Ht.
      specialize (Hlow k ltac:(apply lookup_lt_Some in Ht; lia)).
      unfold below in Hlow. by rewrite Ht in Hlow.
Qed.

Lemma find_from_time_first_row_not_older_witness :
  ∃ r,
    find_from_time two_files_twice (4, 0)%Z = Ok r
    ∧ ((r = (-1)%Z
        ∧ ∀ k t, [(1, 0); (2, 0); (3, 0); (4, 0); (5, 0); (6, 0)]%Z !! k
                 = Some t →
                 timestamp_lt t (4, 0)%Z = true)
       ∨ ((0 ≤ r)%Z
          ∧ (∃ t, [(1, 0); (2, 0); (3, 0); (4, 0); (5, 0); (6, 0)]%Z
                    !! Z.to_nat r = Some t
                  ∧ timestamp_lt t (4, 0)%Z = false)
          ∧ ∀ k t, k < Z.to_nat r →
                   [(1, 0); (2, 0); (3, 0); (4, 0); (5, 0); (6, 0)]%Z !! k
                   = Some t →
                   timestamp_lt t (4, 0)%Z = true)).
Proof.
  apply (find_from_time_first_row_not_older two_files_twice (4, 0)%Z
           [(1, 0); (2, 0); (3, 0); (4, 0); (5, 0); (6, 0)]%Z).
  - vm_compute. reflexivity.
  - intros i j ti tj Hij Hi Hj.
    destruct i as [|[|[|[|[|[|i]]]]]]; simpl in Hi; try discriminate;
      injection Hi as <-;
      destruct j as [|[|[|[|[|[|j]]]]]]; simpl in Hj; try discriminate;
      injection Hj as <-; first [reflexivity | lia].
  - vm_compute. reflexivity.
Defined.

(** ** What a call of rebuild_index sees and leaves *)

Lemma observe_kept env i ld :
  ld_file_index (observe env i ld) = ld_file_index ld
  ∧ ld_lines_indexed (observe env i ld) = ld_lines_indexed ld
  ∧ (is_Some (get_file (observe env i ld)) ↔ is_Some (get_file ld)).
Proof.
  unfold observe. destruct (get_file ld) as [lf|] eqn:Hlf; [|by rewrite Hlf].
  destruct (is_paused env); [by rewrite Hlf|].
  destruct (lf_rebuild_index env i lf (ld_filter_state ld)) as [[o lf'] fs'].
  cbn. split_and!; try done.
Qed.

Lemma poll_file_inv env index i st st' :
  poll_file env index i st = Ok st' →
  ∃ ld,
    ps_files st !! i = Some ld
    ∧ ps_files st' = <[i := observe env i ld]> (ps_files st)
    ∧ (ps_retval st ≠ rr_no_change → ps_retval st' ≠ rr_no_change)
    ∧ (is_paused env = false → is_Some (head_of (observe env i ld)) →
       ps_retval st' ≠ rr_no_change)
    ∧ (ps_force st = true → ps_force st' = true).
Proof.
  unfold poll_file. intros H.
  apply bind_Ok in H as (ld & Hld%at_index_Ok & H). cbv beta in H.
  exists ld. split; [done|]. unfold observe, head_of.
  destruct (get_file ld) as [lf|] eqn:Hlf.
  - destruct (is_paused env) eqn:Hpaused; cbn [negb] in H.
    + injection H as <-. cbn. rewrite list_insert_id by done.
      split_and!; done.
    + destruct (lf_rebuild_index env i lf (ld_filter_state ld))
        as [[observed lf'] fs'] eqn:Hrun.
      apply bind_Ok in H as ([force' retval'] & Hclass & H).
      injection H as <-. cbn.
      split; [done|].
      assert (∀ r, classify_new_lines
                     (<[i := set_observed ld lf' fs']> (ps_files st)) index
                     lf' (ld_lines_indexed ld) (ps_force st) (ps_retval st)
                   = Ok r →
                   r.2 ≠ rr_no_change ∧ (ps_force st = true → r.1 = true))
        as Hnew.
      { intros r. unfold classify_new_lines.
        assert ((if decide (ps_retval st = rr_no_change)
                 then rr_appended_lines else ps_retval st) ≠ rr_no_change)
          as Hret
          by (destruct (decide (ps_retval st = rr_no_change)); done).
        destruct (last index) as [cl|]; [|by intros [= <-]].
        intros (found & _ & Hrest)%bind_Ok.
        destruct found as [last_ll|]; [|by injection Hrest as <-].
        apply bind_Ok in Hrest as (ll & _ & Hrest).
        destruct (logline_lt ll last_ll); by injection Hrest as <-. }
      assert (retval' = ps_retval st ∧ force' = ps_force st
              ∧ ¬ ld_lines_indexed ld < logfile_size lf'
              ∨ retval' ≠ rr_no_change
                ∧ (ps_force st = true → force' = true)) as Hcases.
      { destruct observed; cbn in Hclass.
        - injection Hclass as <- <-. by right.
        - destruct (bool_decide_reflect
                      (ld_lines_indexed ld < logfile_size lf'));
            cbn in Hclass.
          + right. by apply Hnew in Hclass.
          + injection Hclass as <- <-. by left.
        - right. by apply Hnew in Hclass.
        - injection Hclass as <- <-. by right. }
      split_and!.
      * intros Hne. destruct Hcases as [(-> & _ & _)|[? _]]; done.
      * intros _ Hhead. cbn in Hhead.
        apply lookup_lt_is_Some in Hhead.
        destruct Hcases as [(_ & _ & Hno)|[? _]]; done.
      * intros Hforce. destruct Hcases as [(_ & -> & _)|[_ ?]]; auto.
  - rewrite list_insert_id by done.
    rewrite Hlf. cbn.
    destruct (bool_decide (0 < ld_lines_indexed ld)); injection H as <-;
      cbn; split_and!; try done.
    all: by intros _ [? ?].
Qed.

Lemma poll_files_inv env index slots : ∀ st st',
  poll_files env index slots st = Ok st' →
  NoDup slots →
  (∀ j, ps_files st' !! j
        = if decide (j ∈ slots) then observe env j <$> ps_files st !! j
          else ps_files st !! j)
  ∧ (ps_retval st ≠ rr_no_change → ps_retval st' ≠ rr_no_change)
  ∧ (ps_force st = true → ps_force st' = true)
  ∧ (is_paused env = false →
     ∀ j ld, j ∈ slots → ps_files st !! j = Some ld →
             is_Some (head_of (observe env j ld)) →
             ps_retval st' ≠ rr_no_change).
Proof.
  induction slots as [|i slots IH]; intros st st' H Hnodup.
  - injection H as <-. split_and!; try done.
    intros _ j ld Hj. by apply elem_of_nil in Hj.
  - apply NoDup_cons in Hnodup as [Hfresh Hnodup].
    cbn [poll_files] in H. apply bind_Ok in H as (st1 & Hone & Hrest).
    apply poll_file_inv in Hone
      as (ld & Hld & Hfiles1 & Hmono1 & Hhead1 & Hforce1).
    destruct (IH _ _ Hrest Hnodup) as (Hfiles & Hmono & Hforce & Hhead).
    split_and!.
    + intros j. rewrite Hfiles, Hfiles1.
      destruct (decide (j = i)) as [->|Hne].
      * rewrite decide_False by done.
        rewrite decide_True by (by left).
        rewrite list_lookup_insert_eq by (by eapply lookup_lt_Some).
        by rewrite Hld.
      * rewrite list_lookup_insert_ne by done.
        destruct (decide (j ∈ slots)) as [Hin|Hout].
        -- rewrite decide_True by (by right). done.
        -- rewrite decide_False; [done|]. by intros [?|?]%elem_of_cons.
    + auto.
    + auto.
    + intros Hpaused j ld' [->|Hj]%elem_of_cons Hld' Hh.
      * assert (ld' = ld) as -> by congruence. auto.
      * eapply (Hhead Hpaused j ld'); [done| |done].
        rewrite Hfiles1, list_lookup_insert_ne; [done|].
        by intros ->.
Qed.

Lemma poll_files_observed env index files st0 st :
  ps_files st0 = files →
  poll_files env index (seq 0 (length files)) st0 = Ok st →
  ps_files st = observed_files env files.
Proof.
  intros Hst0 Hpoll.
  destruct (poll_files_inv _ _ _ _ _ Hpoll (NoDup_seq _ _))
    as (Hfiles & _).
  apply list_eq. intros j. rewrite Hfiles, Hst0.
  unfold observed_files. rewrite list_lookup_imap.
  case_decide as Hj; [done|].
  rewrite elem_of_seq in Hj.
  rewrite lookup_ge_None_2 by lia. done.
Qed.

Lemma observed_files_lookup env files i :
  observed_files env files !! i = observe env i <$> files !! i.
Proof. apply list_lookup_imap. Qed.

Lemma observed_files_quiet env files :
  quiet env → observed_files env files = files.
Proof.
  intros [Hrun Hsame]. apply list_eq. intros i.
  rewrite observed_files_lookup.
  destruct (files !! i) as [ld|]; [|done]. cbn. f_equal.
  unfold observe. destruct (get_file ld) as [lf|] eqn:Hlf; [|done].
  rewrite Hrun, Hsame. unfold get_file in Hlf.
  destruct ld. cbn in *. by rewrite Hlf.
Qed.

Section RebuildIndexRuns.

Context (std_sort :
  (content_line_t → content_line_t → bool) →
  list content_line_t → list content_line_t).

(** A call that returns has polled every slot; then either nothing was to
    be done and it leaves the indexes alone, or the merge of the
    specification ran from the observed files. *)
Lemma rebuild_index_run env lss lss' r :
  rebuild_index std_sort env lss = Ok (lss', r) →
  ∃ st,
    ps_files st = observed_files env (lss_files lss)
    ∧ r = (if bool_decide (ps_retval st = rr_full_rebuild)
           then rr_appended_lines else ps_retval st)
    ∧ (lss_force_rebuild lss = true → ps_retval st ≠ rr_no_change)
    ∧ (is_paused env = false →
       ∀ j ld, observed_files env (lss_files lss) !! j = Some ld →
               is_Some (head_of ld) → ps_retval st ≠ rr_no_change)
    ∧ ((ps_retval st = rr_no_change
        ∧ lss_files lss' = observed_files env (lss_files lss)
        ∧ lss_index lss' = lss_index lss
        ∧ lss_filtered_index lss' = lss_filtered_index lss)
       ∨ (files_fit (observed_files env (lss_files lss))
          ∧ spec_merge (observed_files env (lss_files lss)) (lss_index lss)
              (lss_files lss') (lss_index lss'))).
Proof.
  unfold rebuild_index. intros (st & Hpoll & Hrest)%bind_Ok.
  pose proof (poll_files_observed _ _ _ _ _ eq_refl Hpoll) as Hfiles.
  destruct (poll_files_inv _ _ _ _ _ Hpoll (NoDup_seq _ _))
    as (_ & Hmono & _ & Hhead).
  cbn [ps_files ps_retval ps_force] in *.
  exists st. split; [done|].
  unfold never_force in Hrest. cbn [negb] in Hrest.
  rewrite !andb_false_r, andb_true_r in Hrest.
  apply bind_Ok in Hrest as (lss2 & Hext & [= <- <-]).
  split; [done|].
  split.
  { intros Hforce. apply Hmono. by rewrite Hforce. }
  split.
  { intros Hpaused j ld Hld Hh.
    rewrite observed_files_lookup in Hld.
    destruct (lss_files lss !! j) as [ld0|] eqn:Hld0; [|done].
    injection Hld as <-.
    eapply (Hhead Hpaused j ld0); [|done|done].
    apply elem_of_seq. apply lookup_lt_Some in Hld0. lia. }
  match type of Hext with
  | (if ?c then _ else _) = _ => destruct c eqn:Hcond
  end.
  - right. unfold extend_index in Hext.
    cbn [lss_files lss_index lss_filtered_index lss_longest_line
         lss_basename_width lss_filename_width] in Hext.
    destruct (measure_files _ _) as [[longest basename] filename].
    apply bind_Ok in Hext as ([files' index'] & Hmerge & Hext).
    apply bind_Ok in Hmerge as (merge & Hadd & Hloop).
    apply merge_add_files_Ok in Hadd as [Hfit Hmerge].
    rewrite app_nil_l in Hmerge. subst merge.
    destruct (merge_loop_runs_spec
                (S (kmerge_remaining (ranges_from 0 (ps_files st))))
                (ranges_from 0 (ps_files st)) (ps_files st) (lss_index lss))
      as (files1 & index1 & Hrun & Hspec);
      [apply ranges_from_agrees | lia |].
    rewrite Hrun in Hloop. injection Hloop as <- <-.
    destruct (enabled_mask env) as [fin fout].
    apply bind_Ok in Hext as (filtered & _ & [= <-]). cbn.
    rewrite <- Hfiles. done.
  - left. injection Hext as <-. cbn.
    apply orb_false_iff in Hcond as [Hret _].
    apply negb_false_iff, bool_decide_eq_true in Hret.
    by rewrite Hfiles.
Qed.

End RebuildIndexRuns.

(** ** What the merge keeps *)

Lemma sum_list_map_insert {A : Type} (f : A → nat) (l : list A) (o : nat)
    (x y : A) :
  l !! o = Some x →
  sum_list (map f (<[o := y]> l)) + f x = sum_list (map f l) + f y.
Proof.
  revert o. induction l as [|a l IH]; intros [|o] Hx; try done.
  - simpl in Hx. injection Hx as ->. simpl. lia.
  - simpl in Hx. simpl. specialize (IH o Hx). lia.
Qed.

Lemma slot_of_con_line (o k : nat) :
  (Z.of_nat k < MAX_LINES_PER_FILE)%Z → slot_of (con_line o k) = o.
Proof. intros Hk. by destruct (con_line_decode o k Hk) as (_ & ? & _). Qed.

Lemma in_file_order_advance files index o ld lf :
  files_ok files → files !! o = Some ld → get_file ld = Some lf →
  ld_lines_indexed ld < logfile_size lf →
  in_file_order files index →
  in_file_order (<[o := advance ld]> files)
    (index ++ [con_line (ld_file_index ld) (ld_lines_indexed ld)]).
Proof.
  intros Hok Hld Hlf Hlt Hord i ld' Hld'.
  destruct (Hok o ld Hld) as [Hidx Hfile].
  destruct (Hfile lf Hlf) as (_ & Hmax & _).
  assert (slot_of (con_line (ld_file_index ld) (ld_lines_indexed ld)) = o)
    as Hslot by (rewrite Hidx; apply slot_of_con_line; lia).
  rewrite filter_app.
  destruct (decide (i = o)) as [->|Hne].
  - rewrite list_lookup_insert_eq in Hld' by (by eapply lookup_lt_Some).
    injection Hld' as <-. cbn [advance set_lines_indexed ld_lines_indexed].
    rewrite (Hord o ld Hld), filter_cons_True by done.
    rewrite filter_nil, seq_S, map_app, Hidx. done.
  - rewrite list_lookup_insert_ne in Hld' by done.
    rewrite (Hord i ld' Hld'), filter_cons_False by (rewrite Hslot; done).
    by rewrite filter_nil, app_nil_r.
Qed.

Lemma spec_merge_in_file_order files index files' index' :
  spec_merge files index files' index' →
  files_ok files → in_file_order files index →
  in_file_order files' index'.
Proof.
  induction 1 as [files index _
                 |files index o ld lf h Hld Hlf Hh _ Hend
                 |files index o ld lf h files' index' Hld Hlf Hh _ Hmore Hrun IH];
    intros Hok Hord.
  - done.
  - eapply in_file_order_advance; eauto. lia.
  - destruct (head_of_Some ld h Hh) as (lf' & Hlf' & Hlt).
    assert (lf' = lf) as -> by congruence.
    apply IH.
    + by eapply files_ok_advance.
    + by eapply in_file_order_advance.
Qed.

Lemma head_of_iff ld :
  is_Some (head_of ld) ↔
  ∃ lf, get_file ld = Some lf ∧ ld_lines_indexed ld < logfile_size lf.
Proof.
  unfold head_of. destruct (get_file ld) as [lf|]; cbn.
  - rewrite lookup_lt_is_Some. split; [eauto|].
    by intros (lf' & [= <-] & ?).
  - split; [by intros [? ?] | by intros (? & ? & _)].
Qed.

Lemma pending_advance files o ld lf :
  files !! o = Some ld → get_file ld = Some lf →
  ld_lines_indexed ld < logfile_size lf →
  pending_lines (<[o := advance ld]> files) + 1 = pending_lines files
  ∧ pending_files (<[o := advance ld]> files)
    + (if bool_decide (ld_lines_indexed ld + 1 = logfile_size lf)
       then 1 else 0)
    = pending_files files.
Proof.
  intros Hld Hlf Hlt. unfold pending_lines, pending_files. split.
  - pose proof (sum_list_map_insert
      (λ ld, match get_file ld with
             | Some lf => logfile_size lf - ld_lines_indexed ld
             | None => 0
             end) files o ld (advance ld) Hld) as Hsum.
    cbn beta in Hsum. unfold get_file in *. cbn in Hsum.
    rewrite Hlf in Hsum. lia.
  - pose proof (sum_list_map_insert
      (λ ld, if bool_decide (is_Some (head_of ld)) then 1 else 0)
      files o ld (advance ld) Hld) as Hsum.
    cbn beta in Hsum.
    rewrite (bool_decide_eq_true_2 (is_Some (head_of ld))) in Hsum
      by (apply head_of_iff; eauto).
    destruct (bool_decide_reflect
                (ld_lines_indexed ld + 1 = logfile_size lf)) as [Hend|Hend].
    + rewrite (bool_decide_eq_false_2 (is_Some (head_of (advance ld))))
        in Hsum; [lia|].
      rewrite head_of_iff. intros (lf' & Hlf' & Hlt').
      unfold get_file in *. cbn in *.
      assert (lf' = lf) as -> by congruence. lia.
    + rewrite (bool_decide_eq_true_2 (is_Some (head_of (advance ld))))
        in Hsum; [lia|].
      rewrite head_of_iff. exists lf. unfold get_file in *. cbn. split; [done|].
      lia.
Qed.

(** The merge indexes at least one line when a file has one, it uses up
    the lines of at least one file, and each line it takes is one entry
    more in GlobalIndex. *)
Lemma spec_merge_progress files index files' index' :
  spec_merge files index files' index' →
  length index' + pending_lines files' = length index + pending_lines files
  ∧ pending_files files' ≤ pending_files files
  ∧ (0 < pending_files files → pending_files files' < pending_files files).
Proof.
  induction 1 as [files index Hnil
                 |files index o ld lf h Hld Hlf Hh _ Hend
                 |files index o ld lf h files' index' Hld Hlf Hh _ Hmore Hrun IH].
  - split; [done|]. split; [done|]. intros Hpos. exfalso.
    unfold pending_files in Hpos.
    assert (∃ ld, ld ∈ files ∧ is_Some (head_of ld)) as (ld & Hin & [h Hh]).
    { clear Hnil. induction files as [|ld files IH]; cbn in Hpos; [lia|].
      case_bool_decide as Hh.
      - exists ld. split; [by left | done].
      - destruct IH as (ld' & Hin & Hh'); [lia|].
        exists ld'. split; [by right | done]. }
    assert (h ∈ file_heads files) as Hhead.
    { apply list_elem_of_omap. eauto. }
    rewrite Hnil in Hhead. by apply elem_of_nil in Hhead.
  - destruct (head_of_Some ld h Hh) as (lf' & Hlf' & Hlt).
    assert (lf' = lf) as -> by congruence.
    destruct (pending_advance files o ld lf Hld Hlf Hlt) as [Hlines Hfiles].
    rewrite bool_decide_eq_true_2 in Hfiles by done.
    rewrite length_app. cbn. lia.
  - destruct (head_of_Some ld h Hh) as (lf' & Hlf' & Hlt).
    assert (lf' = lf) as -> by congruence.
    destruct (pending_advance files o ld lf Hld Hlf Hlt) as [Hlines Hfiles].
    rewrite bool_decide_eq_false_2 in Hfiles by done.
    rewrite length_app in IH. cbn in IH.
    destruct IH as (IH1 & IH2 & IH3).
    split; [lia|]. split; [lia|]. intros Hpos. 
    assert (0 < pending_files (<[o := advance ld]> files)) as Hpos'.
    { unfold pending_files.
      pose proof (sum_list_map_insert
        (λ ld, if bool_decide (is_Some (head_of ld)) then 1 else 0)
        files o ld (advance ld) Hld) as Hsum. cbn beta in Hsum.
      rewrite (bool_decide_eq_true_2 (is_Some (head_of (advance ld))))
        in Hsum.
      - fold (pending_files (<[o := advance ld]> files)) in *.
        fold (pending_files files) in *. lia.
      - rewrite head_of_iff. exists lf. unfold get_file in *. cbn.
        split; [done | lia]. }
    specialize (IH3 Hpos'). lia.
Qed.

(** ** rebuild_index, call after call *)

Lemma observed_files_ok env files :
  files_ok files → observation_ok env files →
  files_ok (observed_files env files).
Proof.
  intros Hok Hobs i ld'. rewrite observed_files_lookup.
  destruct (files !! i) as [ld|] eqn:Hld; [|done]. intros [= <-].
  destruct (Hok i ld Hld) as [Hidx Hfile].
  specialize (Hobs i ld Hld). unfold slot_observation_ok in Hobs.
  unfold observe. destruct (get_file ld) as [lf|] eqn:Hlf.
  - destruct (is_paused env) eqn:Hpaused.
    + split; [done|]. intros lf' Hlf'. apply Hfile. congruence.
    + specialize (Hobs lf eq_refl eq_refl).
      destruct (lf_rebuild_index env i lf (ld_filter_state ld))
        as [[observed lf'] fs'].
      destruct Hobs as (H1 & H2 & H3 & _).
      split; [done|]. cbn. intros lf0 [= <-]. done.
  - split; [done|]. intros lf' Hlf'. congruence.
Qed.

Lemma observed_files_in_order env files index :
  in_file_order files index →
  in_file_order (observed_files env files) index.
Proof.
  intros Hord i ld'. rewrite observed_files_lookup.
  destruct (files !! i) as [ld|] eqn:Hld; [|done]. intros [= <-].
  destruct (observe_kept env i ld) as (_ & -> & _). by apply Hord.
Qed.

Lemma quiet_observation_ok env files :
  quiet env → files_ok files → observation_ok env files.
Proof.
  intros [_ Hsame] Hok i ld Hld lf Hlf _. rewrite Hsame.
  destruct (Hok i ld Hld) as [_ Hfile].
  destruct (Hfile lf Hlf) as (? & ? & ?). done.
Qed.

Lemma no_head_no_pending files :
  (∀ j ld, files !! j = Some ld → ¬ is_Some (head_of ld)) →
  pending_files files = 0 ∧ pending_lines files = 0.
Proof.
  unfold pending_files, pending_lines.
  induction files as [|ld files IH]; intros Hno; [done|].
  destruct IH as [IH1 IH2].
  { intros j ld' Hld'. by apply (Hno (S j)). }
  pose proof (Hno 0 ld eq_refl) as Hld.
  cbn. rewrite bool_decide_eq_false_2 by done.
  rewrite IH1, IH2. split; [done|].
  destruct (get_file ld) as [lf|] eqn:Hlf; [|done].
  rewrite head_of_iff in Hld.
  destruct (decide (ld_lines_indexed ld < logfile_size lf)); [|lia].
  destruct Hld. eauto.
Qed.

Lemma pending_files_0 files :
  pending_files files = 0 →
  ∀ j ld, files !! j = Some ld → ¬ is_Some (head_of ld).
Proof.
  unfold pending_files.
  induction files as [|ld files IH]; intros Hsum j ld' Hld'; [done|].
  cbn in Hsum. destruct j as [|j]; cbn in Hld'.
  - injection Hld' as <-. case_bool_decide; [lia | done].
  - apply (IH ltac:(lia) j ld' Hld').
Qed.

Lemma spec_merge_no_heads files index files' index' :
  spec_merge files index files' index' →
  (∀ j ld, files !! j = Some ld → ¬ is_Some (head_of ld)) →
  files' = files ∧ index' = index.
Proof.
  intros Hrun Hno.
  destruct Hrun as [files index _
                   |files index o ld lf h Hld _ Hh _ _
                   |files index o ld lf h files' index' Hld _ Hh _ _ _].
  - done.
  - destruct (Hno o ld Hld). eauto.
  - destruct (Hno o ld Hld). eauto.
Qed.

Section RebuildIndexCalls.

Context (std_sort :
  (content_line_t → content_line_t → bool) →
  list content_line_t → list content_line_t).

Lemma rebuild_index_times_all_indexed env : ∀ n lss,
  quiet env → lss_wf lss →
  pending_files (lss_files lss) ≤ n →
  ∃ lss',
    rebuild_index_times std_sort env n lss = Ok lss'
    ∧ lss_wf lss'
    ∧ pending_files (lss_files lss') = 0
    ∧ length (lss_index lss')
      = length (lss_index lss) + pending_lines (lss_files lss).
Proof.
  induction n as [|n IH]; intros lss Hquiet Hwf Hn.
  - exists lss. split; [done|]. split; [done|].
    assert (pending_files (lss_files lss) = 0) as H0 by lia.
    split; [done|].
    destruct (no_head_no_pending _ (pending_files_0 _ H0)) as [_ ->]. lia.
  - cbn [rebuild_index_times].
    destruct (rebuild_index_total std_sort env lss Hwf)
      as (lss1 & r & Hrun & Hwf1 & _).
    { apply quiet_observation_ok; [done | by destruct Hwf]. }
    rewrite Hrun, bind_ret_Ok.
    destruct (rebuild_index_run _ _ _ _ _ Hrun)
      as (st & _ & _ & _ & Hhead & Hcases).
    rewrite observed_files_quiet in Hhead, Hcases by done.
    assert (pending_files (lss_files lss1) ≤ n
            ∧ length (lss_index lss1) + pending_lines (lss_files lss1)
              = length (lss_index lss) + pending_lines (lss_files lss))
      as [Hn1 Hlen1].
    { destruct Hcases as [(Hret & -> & -> & _)|[_ Hmerge]].
      - destruct (no_head_no_pending (lss_files lss)) as [H0 _]; [|lia].
        intros j ld Hld Hh. destruct Hquiet as [Hrunning _].
        by apply (Hhead Hrunning j ld Hld Hh).
      - apply spec_merge_progress in Hmerge as (Hlen & Hle & Hlt).
        split; [lia | done]. }
    destruct (IH lss1 Hquiet Hwf1 Hn1) as (lss' & Hrest & Hwf' & H0 & Hlen').
    exists lss'. split_and!; try done. lia.
Qed.

End RebuildIndexCalls.

(** X11: each file is indexed once, in file order.  Take a sub-source of
    at most 256 slots, so that every ContentLine fits its 32 bits, and let
    the entries of GlobalIndex that name a slot be the lines 0, 1, ... of
    the slot's file, as many as [ld_lines_indexed] counts, for every slot;
    this holds when nothing is indexed yet.  Then it holds again after a
    call of [rebuild_index]: the call takes the lines of each file in file
    order, none twice and none skipped, and every entry of GlobalIndex is a
    32-bit value. *)
Theorem rebuild_index_keeps_file_order
    (std_sort : (content_line_t → content_line_t → bool) →
                list content_line_t → list content_line_t)
    (env : collaborators) (lss lss' : logfile_sub_source)
    (r : rebuild_result) :
  lss_wf lss →
  slots_fit (lss_files lss) →
  observation_ok env (lss_files lss) →
  in_file_order (lss_files lss) (lss_index lss) →
  rebuild_index std_sort env lss = Ok (lss', r) →
  in_file_order (lss_files lss') (lss_index lss')
  ∧ content_lines_fit (lss_index lss').
Proof.
  intros Hwf Hfit Hobs Hord Hrun.
  destruct (rebuild_index_run _ _ _ _ _ Hrun)
    as (st & _ & _ & _ & _ & Hcases).
  pose proof (observed_files_in_order env _ _ Hord) as Hord1.
  split.
  - destruct Hwf as [Hok _].
    destruct Hcases as [(_ & -> & -> & _)|[_ Hmerge]]; [done|].
    eapply spec_merge_in_file_order; [done| |done].
    by apply observed_files_ok.
  - destruct (rebuild_index_total std_sort env lss Hwf Hobs)
      as (lss1 & r1 & Hrun1 & [_ Hentries] & _).
    rewrite Hrun in Hrun1. injection Hrun1 as <- <-.
    apply (entries_fit (lss_files lss')); [|done].
    unfold slots_fit in *.
    assert (length (lss_files lss') = length (lss_files lss)) as ->; [|done].
    destruct Hcases as [(_ & -> & _)|[_ Hmerge]].
    + apply length_imap.
    + apply spec_merge_frame in Hmerge as [Hsame _].
      rewrite <- (Forall2_length _ _ _ Hsame). apply length_imap.
Qed.

(** X12: one call per file is enough.  When nothing new arrives,
    [rebuild_index] called as many times as there are files with lines
    still to index leaves every attached file indexed to its last line,
    and GlobalIndex has grown by exactly the number of lines that were
    still to index. *)
Theorem rebuild_index_indexes_everything
    (std_sort : (content_line_t → content_line_t → bool) →
                list content_line_t → list content_line_t)
    (env : collaborators) (lss : logfile_sub_source) :
  quiet env →
  lss_wf lss →
  ∃ lss',
    rebuild_index_times std_sort env (pending_files (lss_files lss)) lss
    = Ok lss'
    ∧ all_indexed (lss_files lss')
    ∧ length (lss_index lss')
      = length (lss_index lss) + pending_lines (lss_files lss).
Proof.
  intros Hquiet Hwf.
  destruct (rebuild_index_times_all_indexed std_sort env
              (pending_files (lss_files lss)) lss Hquiet Hwf ltac:(lia))
    as (lss' & Hrun & [Hok' _] & H0 & Hlen).
  exists lss'. split; [done|]. split; [|done].
  intros ld lf [j Hld]%list_elem_of_lookup Hlf.
  pose proof (pending_files_0 _ H0 j ld Hld) as Hno.
  rewrite head_of_iff in Hno.
  destruct (Hok' j ld Hld) as [_ Hfile].
  destruct (Hfile lf Hlf) as (Hle & _ & _).
  destruct (decide (ld_lines_indexed ld < logfile_size lf)); [|lia].
  destruct Hno. eauto.
Qed.

(** X13: [rr_no_change] means that nothing is left to do.  When the view
    is running and [rebuild_index] returns [rr_no_change], both indexes are
    what they were and no attached file has a line that is not indexed. *)
Theorem rebuild_index_no_change_leaves_nothing_pending
    (std_sort : (content_line_t → content_line_t → bool) →
                list content_line_t → list content_line_t)
    (env : collaborators) (lss lss' : logfile_sub_source) :
  is_paused env = false →
  rebuild_index std_sort env lss = Ok (lss', rr_no_change) →
  lss_index lss' = lss_index lss
  ∧ lss_filtered_index lss' = lss_filtered_index lss
  ∧ ∀ ld lf, ld ∈ lss_files lss' → get_file ld = Some lf →
             logfile_size lf ≤ ld_lines_indexed ld.
Proof.
  intros Hrunning Hrun.
  destruct (rebuild_index_run _ _ _ _ _ Hrun)
    as (st & _ & Hr & _ & Hhead & Hcases).
  assert (ps_retval st = rr_no_change) as Hret.
  { case_bool_decide; [done | congruence]. }
  assert (∀ j ld, observed_files env (lss_files lss) !! j = Some ld →
                  ¬ is_Some (head_of ld)) as Hno.
  { intros j ld Hld Hh. by apply (Hhead Hrunning j ld Hld Hh). }
  assert (lss_files lss' = observed_files env (lss_files lss)
          ∧ lss_index lss' = lss_index lss) as [Hfiles Hindex].
  { destruct Hcases as [(_ & -> & -> & _)|[_ Hmerge]]; [done|].
    by apply spec_merge_no_heads in Hmerge. }
  split; [done|]. split.
  - apply rebuild_index_effect in Hrun as (_ & _ & js & -> & _ & Hrange).
    rewrite Hindex in Hrange.
    destruct js as [|j js]; [by rewrite app_nil_r|].
    apply Forall_cons in Hrange as [Hj _]. lia.
  - intros ld lf [j Hld]%list_elem_of_lookup Hlf. rewrite Hfiles in Hld.
    pose proof (Hno j ld Hld) as Hnone. rewrite head_of_iff in Hnone.
    destruct (decide (ld_lines_indexed ld < logfile_size lf)); [|lia].
    destruct Hnone. eauto.
Qed.

Lemma poll_files_paused env index slots : ∀ st,
  is_paused env = true →
  (∀ i ld, i ∈ slots → ps_files st !! i = Some ld → get_file ld = None →
           ld_lines_indexed ld = 0) →
  (∀ i, i ∈ slots → i < length (ps_files st)) →
  ∃ st',
    poll_files env index slots st = Ok st'
    ∧ ps_files st' = ps_files st
    ∧ ps_force st' = ps_force st
    ∧ ps_retval st' = ps_retval st.
Proof.
  induction slots as [|i slots IH]; intros st Hpaused Hgone Hlen.
  - by exists st.
  - cbn [poll_files].
    destruct (lookup_lt_is_Some_2 (ps_files st) i) as [ld Hld].
    { apply Hlen. by left. }
    assert (∃ st1, poll_file env index i st = Ok st1
                   ∧ ps_files st1 = ps_files st
                   ∧ ps_force st1 = ps_force st
                   ∧ ps_retval st1 = ps_retval st)
      as (st1 & Hone & Hfiles & Hforce & Hret).
    { unfold poll_file. rewrite (at_index_Some _ _ _ Hld), bind_ret_Ok.
      destruct (get_file ld) as [lf|] eqn:Hlf.
      - rewrite Hpaused. cbn. eauto.
      - rewrite (Hgone i ld) by (done || by left).
        rewrite bool_decide_eq_false_2 by lia. eauto. }
    rewrite Hone, bind_ret_Ok.
    destruct (IH st1 Hpaused) as (st' & Hrest & Hfiles' & Hforce' & Hret').
    { intros j ld' Hj Hld'. rewrite Hfiles in Hld'.
      apply (Hgone j ld'); [by right | done]. }
    { intros j Hj. rewrite Hfiles. apply Hlen. by right. }
    exists st'. split; [done|]. split_and!; congruence.
Qed.

(** X14: a paused view indexes nothing.  While the view is paused, and
    unless something forces the call (the rebuild flag, a file that went
    away after lines of it were indexed, or the index array having to
    grow), [rebuild_index] polls no file, returns [rr_no_change] and leaves
    the sub-source exactly as it was, lines still to index included. *)
Theorem rebuild_index_paused_is_idle
    (std_sort : (content_line_t → content_line_t → bool) →
                list content_line_t → list content_line_t)
    (env : collaborators) (lss : logfile_sub_source) :
  is_paused env = true →
  lss_force_rebuild lss = false →
  (∀ n, big_array_reserve env n = false) →
  (∀ ld, ld ∈ lss_files lss → get_file ld = None →
         ld_lines_indexed ld = 0) →
  rebuild_index std_sort env lss = Ok (lss, rr_no_change).
Proof.
  intros Hpaused Hflag Hreserve Hgone. unfold rebuild_index.
  rewrite Hflag.
  match goal with
  | |- context [poll_files env ?ix ?slots ?st0] =>
      destruct (poll_files_paused env ix slots st0 Hpaused)
        as (st & Hpoll & Hfiles & Hforce & Hret)
  end.
  { intros i ld _ Hld. apply Hgone. by eapply list_elem_of_lookup_2. }
  { intros i Hi%elem_of_seq. cbn. lia. }
  rewrite Hpoll, bind_ret_Ok. cbv zeta.
  rewrite Hreserve, Hforce, Hret, Hfiles. cbn.
  destruct lss. cbn in *. by rewrite Hflag.
Qed.

(** ** When the merge keeps GlobalIndex sorted *)

Lemma logline_not_lt_trans (a b c : logline) :
  logline_lt c b = false → logline_lt b a = false → logline_lt c a = false.
Proof. rewrite !logline_lt_false. lia. Qed.

Lemma find_line_advance files o ld cl :
  files !! o = Some ld →
  find_line (<[o := advance ld]> files) cl = find_line files cl.
Proof.
  intros Hld. unfold find_line, find_data, at_index.
  destruct (decide (Z.to_nat (cl / MAX_LINES_PER_FILE) = o)) as [->|Hne].
  - rewrite list_lookup_insert_eq by (by eapply lookup_lt_Some).
    by rewrite Hld.
  - by rewrite list_lookup_insert_ne.
Qed.

Lemma find_line_head files o ld lf h :
  files_ok files → files !! o = Some ld → get_file ld = Some lf →
  head_of ld = Some h →
  find_line files (con_line (ld_file_index ld) (ld_lines_indexed ld))
  = Ok (Some h).
Proof.
  intros Hok Hld Hlf Hh.
  destruct (Hok o ld Hld) as [Hidx Hfile].
  destruct (Hfile lf Hlf) as (_ & Hmax & _).
  unfold head_of in Hh. rewrite Hlf in Hh. cbn in Hh.
  pose proof (lookup_lt_Some _ _ _ Hh) as Hlt. unfold logfile_size in Hmax.
  destruct (con_line_decode o (ld_lines_indexed ld) ltac:(lia))
    as (_ & Hslot & Hline).
  unfold find_line, find_data. rewrite Hidx, Hslot, Hline.
  rewrite (at_index_Some _ _ _ Hld), bind_ret_Ok. cbn. rewrite Hlf.
  by rewrite (at_index_Some _ _ _ Hh).
Qed.

Lemma file_heads_advance files o ld lf h' :
  files !! o = Some ld → get_file ld = Some lf →
  h' ∈ file_heads (<[o := advance ld]> files) →
  h' ∈ file_heads files
  ∨ lf_loglines lf !! S (ld_lines_indexed ld) = Some h'.
Proof.
  intros Hld Hlf (ld' & [k Hk]%list_elem_of_lookup & Hh)%list_elem_of_omap.
  destruct (decide (k = o)) as [->|Hne].
  - rewrite list_lookup_insert_eq in Hk by (by eapply lookup_lt_Some).
    injection Hk as <-. right. unfold head_of, get_file in *. cbn in Hh.
    by rewrite Hlf in Hh.
  - rewrite list_lookup_insert_ne in Hk by done. left.
    apply list_elem_of_omap. exists ld'. split; [|done].
    by eapply list_elem_of_lookup_2.
Qed.

Lemma sorted_advance files index o ld lf h :
  files_ok files → files !! o = Some ld → get_file ld = Some lf →
  head_of ld = Some h →
  least_head h (file_heads files) →
  files_in_order files →
  index_sorted_in files index →
  heads_not_older files index →
  let files1 := <[o := advance ld]> files in
  let index1 :=
    index ++ [con_line (ld_file_index ld) (ld_lines_indexed ld)] in
  files_in_order files1
  ∧ index_sorted_in files1 index1
  ∧ heads_not_older files1 index1.
Proof.
  intros Hok Hld Hlf Hh Hleast Hfiles Hsorted Hheads files1 index1.
  pose proof (find_line_head files o ld lf h Hok Hld Hlf Hh) as Hresolve.
  assert (h ∈ file_heads files) as Hin.
  { apply list_elem_of_omap. exists ld. split; [|done].
    by eapply list_elem_of_lookup_2. }
  assert (lf_loglines lf !! ld_lines_indexed ld = Some h) as Hline.
  { unfold head_of in Hh. by rewrite Hlf in Hh. }
  assert (ld ∈ files) as Hldin by (by eapply list_elem_of_lookup_2).
  split_and!.
  - intros ld' lf' i j li lj [k Hk]%list_elem_of_lookup Hlf'.
    subst files1. destruct (decide (k = o)) as [->|Hne].
    + rewrite list_lookup_insert_eq in Hk by (by eapply lookup_lt_Some).
      injection Hk as <-. unfold get_file in *. cbn in Hlf'.
      by apply (Hfiles ld lf').
    + rewrite list_lookup_insert_ne in Hk by done.
      apply (Hfiles ld' lf'); [by eapply list_elem_of_lookup_2 | done].
  - intros i j cl_i cl_j ll_i ll_j Hij Hi Hj. subst files1 index1.
    rewrite !find_line_advance by done. intros Hli Hlj.
    destruct (decide (j < length index)) as [Hjin|Hjout].
    + rewrite lookup_app_l in Hi, Hj by lia.
      by eapply (Hsorted i j).
    + pose proof (lookup_lt_Some _ _ _ Hj) as Hjlt.
      rewrite length_app in Hjlt. cbn in Hjlt.
      assert (j = length index) as -> by lia.
      rewrite lookup_app_l in Hi by lia.
      rewrite list_lookup_middle in Hj by done. injection Hj as <-.
      assert (ll_j = h) as -> by congruence.
      eapply (Hheads h cl_i ll_i); [done | | done].
      by eapply list_elem_of_lookup_2.
  - intros h' cl ll Hh' Hcl. subst files1 index1.
    rewrite find_line_advance by done. intros Hll.
    assert (logline_lt h' h = false) as Hh'h.
    { apply (file_heads_advance files o ld lf h' Hld Hlf) in Hh'
        as [Hold|Hnext].
      - by apply Hleast.
      - eapply (Hfiles ld lf (ld_lines_indexed ld)
                  (S (ld_lines_indexed ld))); eauto. }
    apply elem_of_app in Hcl as [Hcl|Hcl].
    + eapply logline_not_lt_trans; [exact Hh'h|].
      by eapply (Hheads h cl ll).
    + apply list_elem_of_singleton in Hcl as ->.
      assert (ll = h) as -> by congruence. done.
Qed.

Lemma spec_merge_sorted files index files' index' :
  spec_merge files index files' index' →
  files_ok files →
  files_in_order files →
  index_sorted_in files index →
  heads_not_older files index →
  index_sorted_in files' index'.
Proof.
  induction 1 as [files index _
                 |files index o ld lf h Hld Hlf Hh Hleast Hend
                 |files index o ld lf h files' index' Hld Hlf Hh Hleast
                    Hmore Hrun IH];
    intros Hok Hfiles Hsorted Hheads.
  - done.
  - by destruct (sorted_advance files index o ld lf h) as (_ & ? & _).
  - destruct (sorted_advance files index o ld lf h) as (? & ? & ?);
      [done..|].
    destruct (head_of_Some ld h Hh) as (lf' & Hlf' & Hlt).
    assert (lf' = lf) as -> by congruence.
    apply IH; [by eapply files_ok_advance | done..].
Qed.

(** X15: when [rebuild_index] keeps GlobalIndex sorted.  Take the files as
    the call observes them.  If GlobalIndex is in timestamp order, the
    lines of every file are in timestamp order, and no file's first line
    still to index is older than a line already in GlobalIndex, then
    GlobalIndex is in timestamp order after the call. *)
Theorem rebuild_index_keeps_sorted
    (std_sort : (content_line_t → content_line_t → bool) →
                list content_line_t → list content_line_t)
    (env : collaborators) (lss lss' : logfile_sub_source)
    (r : rebuild_result) :
  lss_wf lss →
  observation_ok env (lss_files lss) →
  index_sorted_in (observed_files env (lss_files lss)) (lss_index lss) →
  files_in_order (observed_files env (lss_files lss)) →
  heads_not_older (observed_files env (lss_files lss)) (lss_index lss) →
  rebuild_index std_sort env lss = Ok (lss', r) →
  index_sorted lss'.
Proof.
  intros [Hok _] Hobs Hsorted Hfiles Hheads Hrun.
  destruct (rebuild_index_run _ _ _ _ _ Hrun)
    as (st & _ & _ & _ & _ & Hcases).
  assert (index_sorted_in (lss_files lss') (lss_index lss')) as Hgoal.
  { destruct Hcases as [(_ & -> & -> & _)|[_ Hmerge]]; [done|].
    eapply spec_merge_sorted; [done | | done..].
    by apply observed_files_ok. }
  exact Hgoal.
Qed.

(** *** The rebuild scenarios, run *)

Lemma two_files_wf : lss_wf two_files.
Proof.
  split.
  - intros [|[|i]] ld Hld; simpl in Hld; try discriminate;
      injection Hld as <-; (split; [reflexivity|]);
      intros lf Hlf; injection Hlf as <-;
      split_and!; vm_compute; (lia || discriminate).
  - constructor.
Qed.

Lemma two_files_observation_ok :
  observation_ok (tick RR_NEW_LINES) (lss_files two_files).
Proof.
  intros [|[|i]] ld Hld; simpl in Hld; try discriminate;
    injection Hld as <-; intros lf Hlf _; injection Hlf as <-;
    split_and!; vm_compute; first [lia | discriminate | intros _; lia].
Qed.

Lemma two_files_once_wf : lss_wf two_files_once.
Proof.
  destruct (rebuild_index_total keep_order (tick RR_NEW_LINES) two_files
              two_files_wf two_files_observation_ok)
    as (lss' & r & Hrun & Hwf & _).
  rewrite two_files_first_call in Hrun. by injection Hrun as <- <-.
Qed.

Lemma two_files_once_observation_ok :
  observation_ok (tick RR_NO_NEW_LINES) (lss_files two_files_once).
Proof.
  intros [|[|i]] ld Hld; simpl in Hld; try discriminate;
    injection Hld as <-; intros lf Hlf _; injection Hlf as <-;
    split_and!; vm_compute; first [lia | discriminate | intros _; lia].
Qed.

Lemma two_files_once_file_order :
  in_file_order (lss_files two_files_once) (lss_index two_files_once).
Proof.
  intros [|[|i]] ld Hld; simpl in Hld; try discriminate;
    injection Hld as <-; vm_compute; reflexivity.
Qed.

Lemma two_files_once_sorted :
  index_sorted_in
    (observed_files (tick RR_NO_NEW_LINES) (lss_files two_files_once))
    (lss_index two_files_once).
Proof.
  intros i j cl_i cl_j ll_i ll_j Hlt Hi Hj Hfi Hfj.
  destruct i as [|[|[|[|[|i]]]]]; simpl in Hi; try discriminate Hi;
    injection Hi as <-;
    destruct j as [|[|[|[|[|j]]]]]; simpl in Hj; try discriminate Hj;
    injection Hj as <-; try lia;
    vm_compute in Hfi; injection Hfi as <-;
    vm_compute in Hfj; injection Hfj as <-; reflexivity.
Qed.

Lemma two_files_once_in_order :
  files_in_order
    (observed_files (tick RR_NO_NEW_LINES) (lss_files two_files_once)).
Proof.
  intros ld lf i j li lj Hin Hlf Hij Hi Hj.
  apply list_elem_of_lookup in Hin as [k Hk].
  destruct k as [|[|k]]; simpl in Hk; try discriminate;
    injection Hk as <-; injection Hlf as <-;
    destruct i as [|[|[|i]]]; simpl in Hi; try discriminate;
    injection Hi as <-;
    destruct j as [|[|[|j]]]; simpl in Hj; try discriminate;
    injection Hj as <-; first [reflexivity | lia].
Qed.

Lemma two_files_once_heads :
  heads_not_older
    (observed_files (tick RR_NO_NEW_LINES) (lss_files two_files_once))
    (lss_index two_files_once).
Proof.
  intros h cl ll Hh Hcl Hll.
  assert (file_heads
            (observed_files (tick RR_NO_NEW_LINES)
               (lss_files two_files_once))
          = [line_at 6]) as Hheads by (vm_compute; reflexivity).
  rewrite Hheads in Hh. apply list_elem_of_singleton in Hh as ->.
  simpl in Hcl.
  repeat (apply elem_of_cons in Hcl as [->|Hcl]);
    try (by apply elem_of_nil in Hcl);
    vm_compute in Hll; injection Hll as <-; reflexivity.
Qed.

Lemma rebuild_index_keeps_file_order_witness :
  in_file_order (lss_files two_files_twice) (lss_index two_files_twice)
  ∧ content_lines_fit (lss_index two_files_twice).
Proof.
  apply (rebuild_index_keeps_file_order keep_order (tick RR_NO_NEW_LINES)
           two_files_once two_files_twice rr_appended_lines).
  - apply two_files_once_wf.
  - vm_compute. discriminate.
  - apply two_files_once_observation_ok.
  - apply two_files_once_file_order.
  - apply two_files_second_call.
Defined.

Lemma rebuild_index_indexes_everything_witness :
  ∃ lss',
    rebuild_index_times keep_order (tick RR_NO_NEW_LINES)
      (pending_files (lss_files two_files)) two_files
    = Ok lss'
    ∧ all_indexed (lss_files lss')
    ∧ length (lss_index lss')
      = length (lss_index two_files) + pending_lines (lss_files two_files).
Proof.
  apply (rebuild_index_indexes_everything keep_order (tick RR_NO_NEW_LINES)
           two_files).
  - split; reflexivity.
  - apply two_files_wf.
Defined.

Lemma rebuild_index_no_change_leaves_nothing_pending_witness :
  lss_index two_files_twice = lss_index two_files_twice
  ∧ lss_filtered_index two_files_twice = lss_filtered_index two_files_twice
  ∧ ∀ ld lf, ld ∈ lss_files two_files_twice → get_file ld = Some lf →
             logfile_size lf ≤ ld_lines_indexed ld.
Proof.
  apply (rebuild_index_no_change_leaves_nothing_pending keep_order
           (tick RR_NO_NEW_LINES) two_files_twice two_files_twice).
  - reflexivity.
  - vm_compute. reflexivity.
Defined.

Lemma rebuild_index_paused_is_idle_witness :
  rebuild_index keep_order
    {| is_paused := true;
       lf_rebuild_index := λ _ lf fs, (RR_NEW_LINES, lf, fs);
       reobserve_from := λ _ lf fs, (lf, fs);
       big_array_reserve := λ _, false;
       enabled_mask := (0%Z, 0%Z) |}
    two_files
  = Ok (two_files, rr_no_change).
Proof.
  apply rebuild_index_paused_is_idle.
  - reflexivity.
  - reflexivity.
  - reflexivity.
  - intros ld [k Hk]%list_elem_of_lookup Hnone.
    destruct k as [|[|k]]; simpl in Hk; try discriminate;
      injection Hk as <-; discriminate.
Defined.

Lemma rebuild_index_keeps_sorted_witness : index_sorted two_files_twice.
Proof.
  apply (rebuild_index_keeps_sorted keep_order (tick RR_NO_NEW_LINES)
           two_files_once two_files_twice rr_appended_lines).
  - apply two_files_once_wf.
  - apply two_files_once_observation_ok.
  - apply two_files_once_sorted.
  - apply two_files_once_in_order.
  - apply two_files_once_heads.
  - apply two_files_second_call.
Defined.

(** ** Which lines the filter loop keeps *)

Lemma filter_lines_kept lss files fin fout entries : ∀ k filtered out,
  filter_lines lss files fin fout entries k filtered = Ok out →
  out = filtered
        ++ map (λ j, uint32 (Z.of_nat j))
             (kept_positions lss files fin fout entries k)
  ∧ Forall (λ cl, ∃ b, line_kept lss files fin fout cl = Ok b) entries.
Proof.
  induction entries as [|cl entries IH]; intros k filtered out.
  - intros [= <-]. cbn. by rewrite app_nil_r.
  - cbn [filter_lines kept_positions].
    intros ([ld line] & Hdata & Hrest)%bind_Ok.
    apply bind_Ok in Hrest as (lf & Hlf & Hrest).
    apply bind_Ok in Hrest as (ex & Hex & Hrest).
    apply bind_Ok in Hrest as (keep & Hkeep & Hrest).
    apply IH in Hrest as [-> Hall].
    assert (line_kept lss files fin fout cl = Ok keep) as Hkept.
    { unfold line_kept. rewrite Hdata, bind_ret_Ok. cbv beta iota.
      rewrite Hlf, bind_ret_Ok, Hex, bind_ret_Ok.
      destruct ex; [done|].
      apply bind_Ok in Hkeep as (ll & -> & Hkeep). done. }
    rewrite Hkept. split.
    + destruct keep; [|done]. by rewrite <- app_assoc.
    + constructor; [eauto | done].
Qed.

Lemma kept_positions_all lss files fin fout entries : ∀ k,
  Forall (λ cl, line_kept lss files fin fout cl = Ok true) entries →
  kept_positions lss files fin fout entries k = seq k (length entries).
Proof.
  induction entries as [|cl entries IH]; intros k Hall; [done|].
  apply Forall_cons in Hall as [Hcl Hall].
  cbn [kept_positions length seq]. rewrite Hcl. f_equal. by apply IH.
Qed.

Lemma kept_positions_none lss files fin fout entries : ∀ k,
  Forall (λ cl, line_kept lss files fin fout cl = Ok false) entries →
  kept_positions lss files fin fout entries k = [].
Proof.
  induction entries as [|cl entries IH]; intros k Hall; [done|].
  apply Forall_cons in Hall as [Hcl Hall].
  cbn [kept_positions]. rewrite Hcl. by apply IH.
Qed.

(** X16: [text_filters_changed] recomputes FilteredIndex from nothing: the
    result holds, in increasing order, the positions of GlobalIndex whose
    line passes the filter test against the replayed files, whatever
    FilteredIndex held before; GlobalIndex itself is not touched. *)
Theorem text_filters_changed_keeps_passing_lines
    (env : collaborators) (lss lss' : logfile_sub_source) :
  text_filters_changed env lss = Ok lss' →
  lss_index lss' = lss_index lss
  ∧ lss_files lss' = reobserved_files env (lss_files lss)
  ∧ lss_filtered_index lss'
    = map (λ j, uint32 (Z.of_nat j))
        (kept_positions lss (lss_files lss') (enabled_mask env).1
           (enabled_mask env).2 (lss_index lss) 0).
Proof.
  unfold text_filters_changed. destruct (enabled_mask env) as [fin fout].
  intros (filtered & Hfilter & [= <-])%bind_Ok. cbn.
  apply filter_lines_kept in Hfilter as [-> _]. done.
Qed.

Lemma line_kept_unfiltered lss files cl b :
  no_extra_filters lss →
  line_kept lss files 0 0 cl = Ok b → b = true.
Proof.
  intros (Hmarked & Hlevel & Hmin & Hmax). unfold line_kept.
  intros ([ld line] & _ & Hrest)%bind_Ok.
  apply bind_Ok in Hrest as (lf & _ & Hrest).
  apply bind_Ok in Hrest as (ex & Hex & Hrest).
  unfold excluded in Hex.
  apply bind_Ok in Hex as (m & _ & [= <-]).
  rewrite Z.land_0_r in Hrest. cbn in Hrest.
  apply bind_Ok in Hrest as (ll & _ & [= <-]).
  unfold check_extra_filters. rewrite Hmarked, Hlevel, Hmin, Hmax. cbn.
  by destruct (level_rank (get_msg_level ll)).
Qed.

(** X17: with no filter enabled and no extra filter set, every indexed
    line is visible: after [text_filters_changed] FilteredIndex lists every
    position of GlobalIndex. *)
Theorem text_filters_changed_without_filters_shows_all
    (env : collaborators) (lss lss' : logfile_sub_source) :
  enabled_mask env = (0%Z, 0%Z) →
  no_extra_filters lss →
  text_filters_changed env lss = Ok lss' →
  lss_filtered_index lss'
  = map (λ j, uint32 (Z.of_nat j)) (seq 0 (length (lss_index lss))).
Proof.
  intros Hmask Hextra. unfold text_filters_changed. rewrite Hmask.
  intros (filtered & Hfilter & [= <-])%bind_Ok. cbn.
  apply filter_lines_kept in Hfilter as [-> Hall]. cbn. f_equal.
  apply kept_positions_all.
  eapply Forall_impl; [exact Hall|]. cbn. intros cl [b Hb].
  by rewrite Hb, (line_kept_unfiltered _ _ _ _ Hextra Hb).
Qed.

Lemma line_kept_out lss files fin fout cl b :
  (∀ ld line m, find_data files cl = Ok (ld, line) →
                tfs_mask (ld_filter_state ld) !! line = Some m →
                Z.land m fout ≠ 0%Z) →
  line_kept lss files fin fout cl = Ok b → b = false.
Proof.
  intros Hhit. unfold line_kept.
  intros ([ld line] & Hdata & Hrest)%bind_Ok.
  apply bind_Ok in Hrest as (lf & _ & Hrest).
  apply bind_Ok in Hrest as (ex & Hex & Hrest).
  unfold excluded in Hex.
  apply bind_Ok in Hex as (m & Hm%at_index_Ok & [= <-]).
  specialize (Hhit ld line m Hdata Hm).
  apply Z.eqb_neq in Hhit. rewrite Hhit in Hrest. cbn in Hrest.
  by injection Hrest as <-.
Qed.

(** X18: a filter that excludes everything.  When every indexed line has a
    bit of an enabled OUT filter set in its mask, [text_filters_changed]
    leaves FilteredIndex empty and GlobalIndex as it was. *)
Theorem text_filters_changed_excluding_everything
    (env : collaborators) (lss lss' : logfile_sub_source) :
  (∀ cl ld line m,
     cl ∈ lss_index lss →
     find_data (reobserved_files env (lss_files lss)) cl = Ok (ld, line) →
     tfs_mask (ld_filter_state ld) !! line = Some m →
     Z.land m (enabled_mask env).2 ≠ 0%Z) →
  text_filters_changed env lss = Ok lss' →
  lss_filtered_index lss' = [] ∧ lss_index lss' = lss_index lss.
Proof.
  intros Hout. unfold text_filters_changed.
  fold (reobserved_files env (lss_files lss)).
  destruct (enabled_mask env) as [fin fout]. cbn in Hout.
  intros (filtered & Hfilter & [= <-])%bind_Ok. cbn. split; [|done].
  apply filter_lines_kept in Hfilter as [-> Hall]. cbn.
  rewrite kept_positions_none; [done|].
  apply Forall_forall. intros cl Hcl.
  rewrite Forall_forall in Hall. destruct (Hall cl Hcl) as [b Hb].
  rewrite Hb. f_equal. eapply line_kept_out; [|exact Hb].
  intros ld line m. by apply Hout.
Qed.

(** ** The incremental filter pass against a full pass *)

Lemma kept_positions_app lss files fin fout a b : ∀ k,
  kept_positions lss files fin fout (a ++ b) k
  = kept_positions lss files fin fout a k
    ++ kept_positions lss files fin fout b (k + length a).
Proof.
  induction a as [|cl a IH]; intros k.
  - cbn. by rewrite Nat.add_0_r.
  - cbn [app kept_positions length]. rewrite IH.
    replace (S k + length a) with (k + S (length a)) by lia.
    by destruct (line_kept lss files fin fout cl) as [[|]| |].
Qed.

Lemma kept_positions_ext lss1 files1 lss2 files2 fin fout entries : ∀ k,
  Forall (λ cl, line_kept lss1 files1 fin fout cl
                = line_kept lss2 files2 fin fout cl) entries →
  kept_positions lss1 files1 fin fout entries k
  = kept_positions lss2 files2 fin fout entries k.
Proof.
  induction entries as [|cl entries IH]; intros k Hall; [done|].
  apply Forall_cons in Hall as [Hcl Hall].
  cbn [kept_positions]. by rewrite Hcl, IH.
Qed.

Lemma line_kept_same_extras lss1 lss2 files fin fout cl :
  lss_marked_only lss1 = lss_marked_only lss2 →
  lss_min_log_level lss1 = lss_min_log_level lss2 →
  lss_min_log_time lss1 = lss_min_log_time lss2 →
  lss_max_log_time lss1 = lss_max_log_time lss2 →
  line_kept lss1 files fin fout cl = line_kept lss2 files fin fout cl.
Proof.
  intros H1 H2 H3 H4. unfold line_kept, check_extra_filters.
  by rewrite H1, H2, H3, H4.
Qed.

Lemma line_kept_same_files lss files files' fin fout cl :
  Forall2 same_file files files' →
  line_kept lss files' fin fout cl = line_kept lss files fin fout cl.
Proof.
  intros Hsame. unfold line_kept, find_data, at_index.
  destruct (files !! Z.to_nat (cl / MAX_LINES_PER_FILE)) as [ld|] eqn:Hld.
  - destruct (Forall2_lookup_l _ _ _ _ _ Hsame Hld)
      as (ld' & -> & _ & Hfile & Hstate & _).
    cbn. unfold get_file. by rewrite Hfile, Hstate.
  - assert (files' !! Z.to_nat (cl / MAX_LINES_PER_FILE) = None) as ->; [|done].
    apply lookup_ge_None. rewrite <- (Forall2_length _ _ _ Hsame).
    by apply lookup_ge_None.
Qed.

Section FilterPass.

Context (std_sort :
  (content_line_t → content_line_t → bool) →
  list content_line_t → list content_line_t).

Lemma rebuild_index_filtered env lss lss' r :
  rebuild_index std_sort env lss = Ok (lss', r) →
  lss_marked_only lss' = lss_marked_only lss
  ∧ lss_min_log_level lss' = lss_min_log_level lss
  ∧ lss_min_log_time lss' = lss_min_log_time lss
  ∧ lss_max_log_time lss' = lss_max_log_time lss
  ∧ lss_filtered_index lss'
    = lss_filtered_index lss
      ++ map (λ j, uint32 (Z.of_nat j))
           (kept_positions lss (lss_files lss') (enabled_mask env).1
              (enabled_mask env).2
              (drop (length (lss_index lss)) (lss_index lss'))
              (length (lss_index lss))).
Proof.
  unfold rebuild_index. intros (st & Hpoll & Hrest)%bind_Ok.
  unfold never_force in Hrest. cbn [negb] in Hrest.
  rewrite !andb_false_r, andb_true_r in Hrest.
  apply bind_Ok in Hrest as (lss2 & Hext & [= <- <-]).
  match type of Hext with
  | (if ?c then _ else _) = _ => destruct c eqn:Hcond
  end.
  - unfold extend_index in Hext.
    cbn [lss_files lss_index lss_filtered_index lss_longest_line
         lss_basename_width lss_filename_width] in Hext.
    destruct (measure_files _ _) as [[longest basename] filename].
    apply bind_Ok in Hext as ([files' index'] & _ & Hext).
    destruct (enabled_mask env) as [fin fout].
    apply bind_Ok in Hext as (filtered & Hfilter & [= <-]). cbn.
    split_and!; try done.
    apply filter_lines_kept in Hfilter as [-> _]. do 2 f_equal.
    apply kept_positions_ext, Forall_forall. intros cl _.
    by apply line_kept_same_extras.
  - injection Hext as <-. cbn. split_and!; try done.
    rewrite drop_all. cbn. by rewrite app_nil_r.
Qed.

End FilterPass.

(** X19: the incremental filter pass agrees with a full pass.  Let
    FilteredIndex be what a pass over all of GlobalIndex would compute, and
    let the re-observation of the files leave the outcome of the filter
    test on the indexed lines as it is.  Then after [rebuild_index], which
    only tests the entries it appends, FilteredIndex is again what a pass
    over all of GlobalIndex would compute. *)
Theorem rebuild_index_filters_like_a_full_pass
    (std_sort : (content_line_t → content_line_t → bool) →
                list content_line_t → list content_line_t)
    (env : collaborators) (lss lss' : logfile_sub_source)
    (r : rebuild_result) :
  (∀ cl, cl ∈ lss_index lss →
     line_kept lss (observed_files env (lss_files lss))
       (enabled_mask env).1 (enabled_mask env).2 cl
     = line_kept lss (lss_files lss)
         (enabled_mask env).1 (enabled_mask env).2 cl) →
  filtered_is_full_pass env lss →
  rebuild_index std_sort env lss = Ok (lss', r) →
  filtered_is_full_pass env lss'.
Proof.
  intros Hobs Hfull Hrun. unfold filtered_is_full_pass in *.
  destruct (rebuild_index_filtered std_sort _ _ _ _ Hrun)
    as (H1 & H2 & H3 & H4 & ->).
  destruct (rebuild_index_run std_sort _ _ _ _ Hrun)
    as (st & _ & _ & _ & _ & Hcases).
  assert (Forall2 same_file (observed_files env (lss_files lss))
            (lss_files lss')
          ∧ ∃ new, lss_index lss' = lss_index lss ++ new)
    as [Hsame [new Hnew]].
  { destruct Hcases as [(_ & -> & -> & _)|[_ Hmerge]].
    - split; [apply same_files_refl|]. exists []. by rewrite app_nil_r.
    - by apply spec_merge_frame in Hmerge. }
  rewrite Hnew, drop_app_length, kept_positions_app, map_app, Hfull.
  cbn [Nat.add]. f_equal.
  - f_equal. apply kept_positions_ext, Forall_forall. intros cl Hcl.
    rewrite <- (Hobs cl Hcl).
    rewrite (line_kept_same_files _ _ _ _ _ _ Hsame).
    by apply line_kept_same_extras.
  - f_equal. apply kept_positions_ext, Forall_forall. intros cl _.
    by apply line_kept_same_extras.
Qed.

(** ** The rows where the file changes *)

Lemma mark_level_files bm ll vl :
  bm_get (mark_level bm ll vl) BM_FILES = bm_get bm BM_FILES.
Proof.
  unfold mark_level. destruct (is_continued ll); cbn [negb]; [done|].
  destruct (get_msg_level ll); try done;
    by rewrite bm_get_insert_once_ne.
Qed.

Lemma update_marks_row_files lss user_marks row st st' :
  BM_FILES ∉ user_marks.*1 →
  update_marks_row lss user_marks row st = Ok st' →
  ∃ cl,
    lss_at lss (Z.of_nat row) = Ok cl
    ∧ ms_last_file st' = Some (slot_of cl)
    ∧ ∀ x, x ∈ bm_get (ms_bm st') BM_FILES
           ↔ (x = Z.of_nat row ∧ Some (slot_of cl) ≠ ms_last_file st)
             ∨ x ∈ bm_get (ms_bm st) BM_FILES.
Proof.
  intros Hfiles. unfold update_marks_row.
  intros (orig_cl & Hat & Hrest)%bind_Ok.
  apply bind_Ok in Hrest as ([[slot lf] cl] & Hfind & Hrest).
  unfold find in Hfind.
  apply bind_Ok in Hfind as (ld0 & Hld0%at_index_Ok & [= <- <- <-]).
  apply bind_Ok in Hrest as ([files1 bm1] & Hmarks & Hrest).
  apply apply_user_marks_effect in Hmarks as [Hkind1 Hbm1].
  apply bind_Ok in Hrest as (ld & Hld%at_index_Ok & Hrest).
  apply bind_Ok in Hrest as (lf1 & Hlf1%deref_Ok & Hrest).
  apply bind_Ok in Hrest as (line_iter & Hline%at_index_Ok & [= <-]).
  assert (is_Some (get_file ld0)) as [lf0 Hlf0].
  { specialize (Hkind1 (Z.to_nat (orig_cl / MAX_LINES_PER_FILE))
                  (Z.to_nat (orig_cl mod MAX_LINES_PER_FILE))).
    unfold line_kind in Hkind1. rewrite Hld, Hld0 in Hkind1. cbn in Hkind1.
    rewrite Hlf1 in Hkind1. cbn in Hkind1. rewrite Hline in Hkind1.
    cbn in Hkind1. destruct (get_file ld0); [eauto | done]. }
  rewrite Hlf0. cbn [ms_last_file ms_bm]. exists orig_cl.
  split; [done|]. split; [done|]. intros x.
  rewrite mark_level_files. fold (slot_of orig_cl).
  destruct (bool_decide_reflect (Some (slot_of orig_cl) ≠ ms_last_file st))
    as [Hne|Heq].
  - rewrite bm_get_insert_once, (Hbm1 _ Hfiles). split.
    + intros [[_ ->]|Hold]; [by left | by right].
    + intros [[-> _]|Hold]; [by left | by right].
  - rewrite (Hbm1 _ Hfiles). split; [by right|].
    intros [[_ Hne]|Hold]; done.
Qed.

Lemma update_marks_rows_files lss user_marks n : ∀ k st st',
  BM_FILES ∉ user_marks.*1 →
  last_file_at lss k (ms_last_file st) →
  update_marks_rows lss user_marks (seq k n) st = Ok st' →
  ∀ x, x ∈ bm_get (ms_bm st') BM_FILES
       ↔ (∃ row, k ≤ row < k + n ∧ x = Z.of_nat row ∧ file_boundary lss row)
         ∨ x ∈ bm_get (ms_bm st) BM_FILES.
Proof.
  induction n as [|n IH]; intros k st st' Hfiles Hlast; cbn [seq update_marks_rows].
  - intros [= <-] x. split; [by right|].
    intros [(row & Hrow & _)|?]; [lia | done].
  - intros (st1 & Hrow & Hrest)%bind_Ok.
    destruct (update_marks_row_files _ _ _ _ _ Hfiles Hrow)
      as (cl & Hat & Hlast1 & Hbm).
    assert (last_file_at lss (S k) (ms_last_file st1)) as Hnext.
    { right. split; [lia|]. exists cl.
      by replace (S k - 1) with k by lia. }
    intros x. rewrite (IH _ _ _ Hfiles Hnext Hrest x), Hbm.
    assert (Some (slot_of cl) ≠ ms_last_file st ↔ file_boundary lss k)
      as Hboundary.
    { unfold file_boundary. rewrite Hat.
      destruct Hlast as [[-> ->]|(Hk & prev & Hprev & ->)].
      - split; [|done]. intros _. exists cl. split; [done | by left].
      - split.
        + intros Hne. exists cl. split; [done|]. right. exists prev.
          split; [done|]. congruence.
        + intros (cl' & [= <-] & [->|(prev' & Hprev' & Hne)]); [lia|].
          rewrite Hprev in Hprev'. injection Hprev' as <-. congruence. }
    rewrite Hboundary. split.
    + intros [(row & Hr & Hx & Hb)|[[Hx Hb]|Hold]].
      * left. exists row. split; [lia | done].
      * left. exists k. split; [lia | done].
      * by right.
    + intros [(row & Hr & Hx & Hb)|Hold]; [|right; by right].
      destruct (decide (row = k)) as [->|Hne].
      * right. by left.
      * left. exists row. split; [lia | done].
Qed.

Lemma cleared_files_empty bm
    (user_marks : list (bookmark_type_t * list content_line_t)) :
  bm_get
    (foldl (λ b um, bm_clear b um.1)
       (bm_clear (bm_clear (bm_clear bm BM_WARNINGS) BM_ERRORS) BM_FILES)
       user_marks) BM_FILES = [].
Proof.
  assert (∀ l b, bm_get b BM_FILES = [] →
                 bm_get (foldl (λ b um, bm_clear b um.1) b
                           (l : list (string * list Z))) BM_FILES = [])
    as Hfold.
  { induction l as [|um l IH]; intros b Hb; simpl; [done|].
    apply IH. rewrite bm_get_clear. by case_decide. }
  apply Hfold. rewrite bm_get_clear. by rewrite decide_True.
Qed.

(** X20: the rows that [text_update_marks] files under [BM_FILES].
    Provided no user mark is filed under that type, after the call a row is
    in [BM_FILES] iff it is the top row or its line comes from another file
    slot than the line of the row above: the set holds the first row of
    every run of lines of one file, whatever it held before. *)
Theorem text_update_marks_file_boundaries
    (lss : logfile_sub_source)
    (user_marks : list (bookmark_type_t * list content_line_t))
    (bm bm' : gmap bookmark_type_t (list vis_line_t))
    (files' : list logfile_data) :
  BM_FILES ∉ user_marks.*1 →
  text_update_marks lss user_marks bm = Ok (files', bm') →
  ∀ vl : vis_line_t,
    vl ∈ bm_get bm' BM_FILES
    ↔ ∃ row, row < text_line_count lss ∧ vl = Z.of_nat row
             ∧ file_boundary lss row.
Proof.
  intros Hfiles. unfold text_update_marks.
  intros (st & Hrows & [= <- <-])%bind_Ok vl.
  rewrite (λ Hlast, update_marks_rows_files lss _ _ 0 _ _ Hfiles Hlast
                      Hrows vl) by (by left).
  cbn [ms_bm]. rewrite cleared_files_empty.
  unfold text_line_count. split.
  - intros [(row & Hr & Hrest)|Hnil]; [|by apply elem_of_nil in Hnil].
    exists row. split; [lia | done].
  - intros (row & Hr & Hrest). left. exists row. split; [lia | done].
Qed.

Lemma text_update_marks_file_boundaries_witness :
  ∃ files' bm',
    text_update_marks two_files_twice [(BM_USER, [2%Z])] ∅ = Ok (files', bm')
    ∧ ∀ vl : vis_line_t,
        vl ∈ bm_get bm' BM_FILES
        ↔ ∃ row, row < text_line_count two_files_twice ∧ vl = Z.of_nat row
                 ∧ file_boundary two_files_twice row.
Proof.
  destruct (text_update_marks two_files_twice [(BM_USER, [2%Z])] ∅)
    as [[files' bm']| |] eqn:Hrun.
  - exists files', bm'. split; [reflexivity|].
    apply (text_update_marks_file_boundaries two_files_twice
             [(BM_USER, [2%Z])] ∅ bm' files'); [|exact Hrun].
    intros Hin%list_elem_of_singleton. discriminate.
  - vm_compute in Hrun. discriminate.
  - vm_compute in Hrun. discriminate.
Defined.

(** ** Rendering a row of an SQL result *)

Lemma string_app_cons (x : Ascii.ascii) (a b : string) :
  String x a +:+ b = String x (a +:+ b).
Proof. reflexivity. Qed.

Lemma string_app_assoc (a b c : string) : (a +:+ b) +:+ c = a +:+ (b +:+ c).
Proof.
  induction a as [|x a IH]; [done|]. by rewrite !string_app_cons, IH.
Qed.

Lemma string_app_nil_r (a : string) : a +:+ EmptyString = a.
Proof. induction a as [|x a IH]; [done|]. by rewrite string_app_cons, IH. Qed.

Lemma string_app_not_nil (a b : string) :
  a ≠ EmptyString → a +:+ b ≠ EmptyString.
Proof. by destruct a. Qed.

Lemma string_concat_cons (x : string) (xs : list string) :
  String.concat EmptyString (x :: xs)
  = x +:+ String.concat EmptyString xs.
Proof.
  destruct xs as [|y xs]; [|done].
  change (x = x +:+ EmptyString). by rewrite string_app_nil_r.
Qed.

Lemma pretty_sql_columns_nonempty columns : ∀ acc,
  acc ≠ EmptyString →
  pretty_sql_columns columns acc
  = acc +:+ String.concat EmptyString (column_text <$> columns).
Proof.
  induction columns as [|res columns IH]; intros acc Hacc.
  - change (acc = acc +:+ EmptyString). by rewrite string_app_nil_r.
  - cbn [pretty_sql_columns]. rewrite bool_decide_true by done.
    rewrite fmap_cons, string_concat_cons.
    unfold column_text at 1.
    destruct res as [text|]; cbn [from_option].
    + rewrite IH by (by do 2 apply string_app_not_nil).
      by rewrite !string_app_assoc.
    + rewrite IH by (by apply string_app_not_nil).
      by rewrite string_app_nil_r, !string_app_assoc.
Qed.

Lemma string_join_cons (x : string) (xs : list string) :
  String.concat ", " (x :: xs)
  = x +:+ String.concat EmptyString ((λ s, ", " +:+ s) <$> xs).
Proof.
  revert x. induction xs as [|y xs IH]; intros x.
  - change (x = x +:+ EmptyString). by rewrite string_app_nil_r.
  - change (String.concat ", " (x :: y :: xs))
      with (x +:+ ", " +:+ String.concat ", " (y :: xs)).
    by rewrite IH, fmap_cons, string_concat_cons, !string_app_assoc.
Qed.

(** X21: a row of texts is rendered as the texts joined by a comma and a
    space.  Starting from an empty accumulator, with no column null and the
    first column not empty, [pretty_sql_callback] returns 0 and leaves in
    the accumulator the texts of the columns, each read up to its first
    NUL, joined by [", "]. *)
Theorem pretty_sql_callback_joins_columns
    (first : string) (rest : list string) :
  c_str first ≠ EmptyString →
  pretty_sql_callback true (Some <$> first :: rest) EmptyString
  = (0%Z, String.concat ", " (c_str <$> first :: rest)).
Proof.
  intros Hfirst. unfold pretty_sql_callback. cbn [negb]. f_equal.
  rewrite !fmap_cons. cbn [pretty_sql_columns].
  rewrite bool_decide_false by (intros Hne; by apply Hne).
  change (EmptyString +:+ c_str first) with (c_str first).
  rewrite pretty_sql_columns_nonempty by done.
  rewrite string_join_cons. do 2 f_equal.
  rewrite <- !list_fmap_compose. done.
Qed.

(** X22: once the accumulator is not empty, every column adds a comma and a
    space, a null column included, which adds nothing after them: the
    accumulator grows by [", "] and the text for each column in turn, and a
    null column leaves a dangling separator. *)
Theorem pretty_sql_callback_separates_every_column
    (columns : list (option string)) (ec_accumulator : string) :
  ec_accumulator ≠ EmptyString →
  pretty_sql_callback true columns ec_accumulator
  = (0%Z,
     ec_accumulator
     +:+ String.concat EmptyString (column_text <$> columns)).
Proof.
  intros Hacc. unfold pretty_sql_callback. cbn [negb].
  by rewrite pretty_sql_columns_nonempty.
Qed.

Lemma pretty_sql_callback_joins_columns_witness :
  pretty_sql_callback true (Some <$> ["alpha"; EmptyString; "beta"]) EmptyString
  = (0%Z, String.concat ", " (c_str <$> ["alpha"; EmptyString; "beta"])).
Proof.
  apply (pretty_sql_callback_joins_columns "alpha" [EmptyString; "beta"]).
  vm_compute. discriminate.
Defined.

Lemma pretty_sql_callback_separates_every_column_witness :
  pretty_sql_callback true [Some "a"; None; Some "b"] "x"
  = (0%Z,
     "x" +:+ String.concat EmptyString
               (column_text <$> [Some "a"; None; Some "b"])).
Proof.
  apply (pretty_sql_callback_separates_every_column
           [Some "a"; None; Some "b"] "x").
  discriminate.
Defined.

Lemma two_files_excluded_call :
  text_filters_changed exclude_all two_files_twice = Ok two_files_excluded.
Proof. vm_compute. reflexivity. Qed.

Lemma two_files_twice_refiltered :
  text_filters_changed (tick RR_NO_NEW_LINES) two_files_twice
  = Ok two_files_twice.
Proof. vm_compute. reflexivity. Qed.

Lemma find_fn_base_decodes_to_the_file_witness :
  ∃ ld,
    find_data (lss_files two_files) (2 ^ 24 + Z.of_nat 2)%Z = Ok (ld, 2)
    ∧ get_file ld = Some (file_of "B" (map line_at [2; 4; 6]%Z))
    ∧ (2 ^ 24 + Z.of_nat 2)%Z = con_line (ld_file_index ld) 2
    ∧ (0 ≤ 2 ^ 24 + Z.of_nat 2 < 2 ^ 32)%Z.
Proof.
  apply (find_fn_base_decodes_to_the_file two_files "B"
           (file_of "B" (map line_at [2; 4; 6]%Z)) (2 ^ 24)%Z 2).
  - apply two_files_wf.
  - vm_compute. discriminate.
  - repeat constructor; eexists; reflexivity.
  - vm_compute. reflexivity.
  - vm_compute. reflexivity.
Defined.

Lemma text_filters_changed_keeps_passing_lines_witness :
  lss_index two_files_excluded = lss_index two_files_twice
  ∧ lss_files two_files_excluded
    = reobserved_files exclude_all (lss_files two_files_twice)
  ∧ lss_filtered_index two_files_excluded
    = map (λ j, uint32 (Z.of_nat j))
        (kept_positions two_files_twice (lss_files two_files_excluded)
           (enabled_mask exclude_all).1 (enabled_mask exclude_all).2
           (lss_index two_files_twice) 0).
Proof.
  apply (text_filters_changed_keeps_passing_lines exclude_all
           two_files_twice two_files_excluded).
  apply two_files_excluded_call.
Defined.

Lemma text_filters_changed_without_filters_shows_all_witness :
  lss_filtered_index two_files_twice
  = map (λ j, uint32 (Z.of_nat j))
      (seq 0 (length (lss_index two_files_twice))).
Proof.
  apply (text_filters_changed_without_filters_shows_all
           (tick RR_NO_NEW_LINES) two_files_twice two_files_twice).
  - reflexivity.
  - repeat split.
  - apply two_files_twice_refiltered.
Defined.

Lemma text_filters_changed_excluding_everything_witness :
  lss_filtered_index two_files_excluded = []
  ∧ lss_index two_files_excluded = lss_index two_files_twice.
Proof.
  apply (text_filters_changed_excluding_everything exclude_all
           two_files_twice two_files_excluded).
  - intros cl ld line m Hcl Hdata Hm.
    simpl in Hcl.
    repeat (apply elem_of_cons in Hcl as [->|Hcl]);
      try (by apply elem_of_nil in Hcl);
      vm_compute in Hdata; injection Hdata as <- <-;
      simpl in Hm; injection Hm as <-; discriminate.
  - apply two_files_excluded_call.
Defined.

Lemma rebuild_index_filters_like_a_full_pass_witness :
  filtered_is_full_pass (tick RR_NO_NEW_LINES) two_files_twice.
Proof.
  apply (rebuild_index_filters_like_a_full_pass keep_order
           (tick RR_NO_NEW_LINES) two_files_once two_files_twice
           rr_appended_lines).
  - intros cl Hcl. simpl in Hcl.
    repeat (apply elem_of_cons in Hcl as [->|Hcl]);
      try (by apply elem_of_nil in Hcl); vm_compute; reflexivity.
  - vm_compute. reflexivity.
  - apply two_files_second_call.
Defined.
